(** * MusicChain multi-chain wallet: the monitoring engine of app.js

    A shallow embedding of the stateful core of [app.js]: the chain
    configuration parser, the provider cache, the activity recorder with its
    seen-set, and the per-chain subscription and block-polling machinery,
    followed by the properties of the written specification that concern
    them. *)

From Stdlib Require Import ZArith NArith Ascii String List Bool Lia DecimalString.
From Stdlib Require DecimalN DecimalPos.
From stdpp Require Import gmap strings list fin_maps.

Local Open Scope string_scope.
Local Open Scope list_scope.

(** ** JavaScript strings and numbers

    A string is the sequence of the bytes of its UTF-8 encoding.  Every
    character the parser looks for (a separator, a colon, a digit, a
    white-space character) is a whole character of that encoding, so that
    splitting, trimming and the digit test can work on bytes. *)

Module Js.

(** A string is truthy when it is not empty; [.filter(Boolean)] keeps those. *)
Definition nonempty (s : string) : bool :=
  match s with EmptyString => false | String _ _ => true end.

(** The white space [String.prototype.trim] removes is [WhiteSpace] and
    [LineTerminator] of ECMAScript.  Those of one byte: TAB, LF, VT, FF, CR
    and the space. *)
Definition is_ws (c : ascii) : bool :=
  let n := nat_of_ascii c in
  (n =? 32)%nat || ((9 <=? n)%nat && (n <=? 13)%nat).

(** Of two bytes: U+00A0. *)
Definition is_ws2 (c1 c2 : ascii) : bool :=
  ((nat_of_ascii c1 =? 194) && (nat_of_ascii c2 =? 160))%nat.

(** Of three bytes: U+1680, U+2000 to U+200A, U+2028, U+2029, U+202F,
    U+205F, U+3000 and U+FEFF. *)
Definition is_ws3 (c1 c2 c3 : ascii) : bool :=
  let a := nat_of_ascii c1 in
  let b := nat_of_ascii c2 in
  let c := nat_of_ascii c3 in
  ((a =? 225) && (b =? 154) && (c =? 128))%nat
  || ((a =? 226) && (b =? 128) &&
      (((128 <=? c) && (c <=? 138)) || (c =? 168) || (c =? 169) || (c =? 175)))%nat
  || ((a =? 226) && (b =? 129) && (c =? 159))%nat
  || ((a =? 227) && (b =? 128) && (c =? 128))%nat
  || ((a =? 239) && (b =? 187) && (c =? 191))%nat.

(** [s.trimStart()] *)
Fixpoint trimStart (s : string) : string :=
  match s with
  | EmptyString => EmptyString
  | String c1 s1 =>
      if is_ws c1 then trimStart s1
      else
        match s1 with
        | EmptyString => s
        | String c2 s2 =>
            if is_ws2 c1 c2 then trimStart s2
            else
              match s2 with
              | EmptyString => s
              | String c3 s3 => if is_ws3 c1 c2 c3 then trimStart s3 else s
              end
        end
  end.

(** [s] is white space from end to end. *)
Definition blank (s : string) : bool := negb (nonempty (trimStart s)).

(** [s.trimEnd()]: [s] up to where nothing but white space follows. *)
Fixpoint trimEnd (s : string) : string :=
  match s with
  | EmptyString => EmptyString
  | String c s' => if blank s then EmptyString else String c (trimEnd s')
  end.

(** [s.trim()] *)
Definition trim (s : string) : string := trimEnd (trimStart s).

(** [s.split(sep)] for a one-character separator: never the empty list. *)
Fixpoint split_char (sep : ascii) (s : string) : list string :=
  match s with
  | EmptyString => [EmptyString]
  | String c s' =>
      if Ascii.eqb c sep then EmptyString :: split_char sep s'
      else match split_char sep s' with
           | p :: ps => String c p :: ps
           | [] => [String c EmptyString]
           end
  end.

(** [s.split(/[...]+/)] for a character class [cls]: a maximal run of
    separator characters is one separator. *)
Fixpoint split_runs (cls : ascii -> bool) (s : string) : list string :=
  match s with
  | EmptyString => [EmptyString]
  | String c s' =>
      if cls c then
        match s' with
        | String c' _ => if cls c' then split_runs cls s'
                         else EmptyString :: split_runs cls s'
        | EmptyString => EmptyString :: split_runs cls s'
        end
      else match split_runs cls s' with
           | p :: ps => String c p :: ps
           | [] => [String c EmptyString]
           end
  end.

(** [parts.join(sep)] *)
Fixpoint join (sep : string) (parts : list string) : string :=
  match parts with
  | [] => EmptyString
  | [p] => p
  | p :: ps => p +:+ sep +:+ join sep ps
  end.

Definition is_digit (c : ascii) : bool :=
  let n := nat_of_ascii c in (48 <=? n)%nat && (n <=? 57)%nat.

Fixpoint all_digits (s : string) : bool :=
  match s with
  | EmptyString => true
  | String c s' => is_digit c && all_digits s'
  end.

(** [/^\d+$/.test(s)] *)
Definition test_digits (s : string) : bool := nonempty s && all_digits s.

Fixpoint Number_from (acc : N) (s : string) : N :=
  match s with
  | EmptyString => acc
  | String c s' => Number_from (acc * 10 + (N.of_nat (nat_of_ascii c) - 48)) s'
  end.

(** Chain ids are Numbers: the values [Number] gives for a string of
    digits, which are the non-negative integers a double holds, and
    [Infinity].  They are written as naturals; [2^1024], which no double
    holds, stands for [Infinity]. *)
Definition infinity : N := 2 ^ 1024.

(** The Number value for the integer [n]: [n] itself below [2^53]; from there
    on [n] rounded to 53 significant bits, to the nearest value and on a tie
    to the even one, and [Infinity] when that reaches [2^1024]. *)
Definition number_value (n : N) : N :=
  if (n <? 2 ^ 53)%N then n
  else
    let sh := (N.log2 n - 52)%N in
    let q := N.shiftr n sh in
    let r := N.land n (N.ones sh) in
    let half := N.shiftl 1 (sh - 1) in
    let q' := if (half <? r)%N || ((r =? half)%N && N.odd q) then (q + 1)%N else q in
    let v := N.shiftl q' sh in
    if (infinity <=? v)%N then infinity else v.

(** [Number(s)] on a string of decimal digits. *)
Definition Number (s : string) : N := number_value (Number_from 0 s).

(** The decimal digits of [n]. *)
Definition digits (n : N) : string := NilZero.string_of_uint (N.to_uint n).

Fixpoint zeros (n : nat) : string :=
  match n with O => EmptyString | S n' => String "0" (zeros n') end.

(** The digits [String] prints for the double [x] of [d] decimal digits, as
    a number [s] with its number of digits: the least number of digits,
    from [k] on, for which some [s * 10^(d-k)] has the Number value [x];
    of two such [s] the one nearer to [x], and the even one when they are
    equally near. *)
Fixpoint shortest (fuel : nat) (k d x : N) : N * N :=
  match fuel with
  | O => (x, d)
  | S fuel' =>
      let m := (10 ^ (d - k))%N in
      let lo := (x / m)%N in
      let hi := (lo + 1)%N in
      let ok_lo := (number_value (lo * m) =? x)%N in
      let ok_hi := (hi <? 10 ^ k)%N && (number_value (hi * m) =? x)%N in
      match ok_lo, ok_hi with
      | true, true =>
          let below := (x - lo * m)%N in
          let above := (hi * m - x)%N in
          if (below <? above)%N then (lo, k)
          else if (above <? below)%N then (hi, k)
          else if N.even lo then (lo, k) else (hi, k)
      | true, false => (lo, k)
      | false, true => (hi, k)
      | false, false => shortest fuel' (k + 1)%N d x
      end
  end.

(** [String(n)] for a chain id, as in a template literal: all the digits
    below [2^53]; from there on the shortest digits that give the double
    back, filled up with zeros below [1e21] and in exponent form from [1e21]
    on. *)
Definition toString (n : N) : string :=
  let x := number_value n in
  if (x <? 2 ^ 53)%N then digits x
  else if (infinity <=? x)%N then "Infinity"
  else
    let d := N.of_nat (String.length (digits x)) in
    let '(s, k, e) :=
      if (number_value (10 ^ d) =? x)%N then (1%N, 1%N, d)
      else let '(s, k) := shortest (N.to_nat d) 1 d x in (s, k, (d - 1)%N) in
    if (e <? 21)%N then digits s +:+ zeros (N.to_nat (e + 1 - k))
    else
      match digits s with
      | String c EmptyString => String c ("e+" +:+ digits e)
      | String c rest => String c ("." +:+ rest +:+ "e+" +:+ digits e)
      | EmptyString => EmptyString
      end.

Definition lower (c : ascii) : ascii :=
  let n := nat_of_ascii c in
  if (65 <=? n)%nat && (n <=? 90)%nat then ascii_of_nat (n + 32) else c.

(** [s.toLowerCase()] on the letters of one byte, which are all the letters
    of the addresses it is applied to. *)
Fixpoint toLowerCase (s : string) : string :=
  match s with
  | EmptyString => EmptyString
  | String c s' => String (lower c) (toLowerCase s')
  end.

(** A value that is a string or [null]/[undefined]. *)
Definition truthy (v : option string) : bool :=
  match v with Some s => nonempty s | None => false end.

(** [a || b] *)
Definition or_else (a b : option string) : option string :=
  if truthy a then a else b.

End Js.


(** ** Data model *)

(** A chain configuration object: [{id, name, rpc, explorer, native}]. *)
Record ChainConfig := mkChain {
  cfg_id : N;
  cfg_name : string;
  cfg_rpc : option string;
  cfg_explorer : string;
  cfg_native : string
}.

(** Chain configuration objects live in a store, since the parser mutates
    the built-in ones in place: a [loc] is the identity of an object. *)
Abbreviation loc := nat (only parsing).

(** A [JsonRpcProvider]: its identity and the endpoint it was opened on. *)
Record Provider := mkProvider { prov_id : nat; prov_url : string }.

Inductive Kind := ERC20 | Native | SitePayment.

(** Amounts are the decimal strings ethers prints; they are kept as the call
    that produces them. *)
Inductive Amount :=
  | formatUnits (value decimals : Z)
  | formatEther (value : Z).

(** The [info] record handed to [recordActivity]. *)
Record Info := mkInfo {
  info_type : Kind;
  info_token : option string;
  info_from : option string;
  info_to : option string;
  info_amount : Amount;
  info_txHash : option string
}.

(** The list item one recorded activity adds to the activity panel. *)
Record Delivery := mkDelivery {
  d_chainId : N;
  d_chainName : string;
  d_tx : Info
}.

(** A transaction of a fetched block. *)
Record Tx := mkTx {
  tx_to : option string;
  tx_from : option string;
  tx_value : Z;
  tx_hash : option string
}.

Record Block := mkBlock { blk_number : Z; blk_transactions : list Tx }.

(** A Transfer log: [parseLog] may throw, which [log_args = None] records. *)
Record Log := mkLog {
  log_address : string;
  log_transactionHash : option string;
  log_args : option (string * string * Z)
}.

Abbreviation TimerId := nat (only parsing).
Abbreviation ListenerId := nat (only parsing).

(** [monitors[chainId]]: the unsubscribe closures (each named by the listener
    it detaches) and the interval handle. *)
Record Monitor := mkMonitor {
  tokenListeners : list ListenerId;
  pollHandle : option TimerId
}.

(** The closure of one [setInterval] callback: [polledBlock] is shared by
    all its ticks. *)
Record Poller := mkPoller {
  p_chainId : N;
  p_siteAddr : option string;
  polledBlock : option Z
}.

(** A live listener registered by [contract.on]: the filter it was
    registered under names the wallet address of that moment. *)
Record Listener := mkListener {
  l_chainId : N;
  l_token : string;
  l_filterTo : string
}.

(** A suspended [async] body: each constructor is one [await] of the source,
    holding what the continuation needs. *)
Inductive Task :=
  | TSubBlockNumber (chainId : N) (tokenAddr : string)
  | TSubLogs (chainId : N) (tokenAddr : string) (fromBlock toBlock : Z)
  | TSubDecimals (chainId : N) (tokenAddr : string) (cur : Log) (rest : list Log)
  | TDiscBlockNumber (chainId : N)
  | TDiscLogs (chainId : N) (fromBlock toBlock : Z)
  | TLiveDecimals (chainId : N) (tokenAddr : string) (from to : string) (value : Z)
      (txHash : option string)
  | TPollLatest (t : TimerId)
  | TPollBlock (t : TimerId) (b latest : Z).

(** The module-level variables of the script, the objects they reach, and
    what the browser holds for it: running intervals, registered listeners
    and the [async] bodies waiting for an RPC answer. *)
Record State := mkState {
  objs : gmap loc ChainConfig;
  nextLoc : loc;
  configuredChains : gmap N loc;
  providers : gmap N Provider;
  nextProvider : nat;
  wallet : option string;
  monitors : gmap N Monitor;
  seenTxs : gset string;
  activity : list Delivery;
  posted : list (N * Info);
  timers : gset TimerId;
  nextTimer : TimerId;
  pollers : gmap TimerId Poller;
  listeners : gmap ListenerId Listener;
  nextListener : ListenerId;
  tasks : list Task
}.

Definition set_objs (v : gmap loc ChainConfig) (s : State) : State :=
  mkState v (nextLoc s) (configuredChains s) (providers s) (nextProvider s) (wallet s)
    (monitors s) (seenTxs s) (activity s) (posted s) (timers s) (nextTimer s)
    (pollers s) (listeners s) (nextListener s) (tasks s).
Definition set_nextLoc (v : loc) (s : State) : State :=
  mkState (objs s) v (configuredChains s) (providers s) (nextProvider s) (wallet s)
    (monitors s) (seenTxs s) (activity s) (posted s) (timers s) (nextTimer s)
    (pollers s) (listeners s) (nextListener s) (tasks s).
Definition set_configuredChains (v : gmap N loc) (s : State) : State :=
  mkState (objs s) (nextLoc s) v (providers s) (nextProvider s) (wallet s) (monitors s)
    (seenTxs s) (activity s) (posted s) (timers s) (nextTimer s) (pollers s)
    (listeners s) (nextListener s) (tasks s).
Definition set_providers (v : gmap N Provider) (s : State) : State :=
  mkState (objs s) (nextLoc s) (configuredChains s) v (nextProvider s) (wallet s)
    (monitors s) (seenTxs s) (activity s) (posted s) (timers s) (nextTimer s)
    (pollers s) (listeners s) (nextListener s) (tasks s).
Definition set_nextProvider (v : nat) (s : State) : State :=
  mkState (objs s) (nextLoc s) (configuredChains s) (providers s) v (wallet s)
    (monitors s) (seenTxs s) (activity s) (posted s) (timers s) (nextTimer s)
    (pollers s) (listeners s) (nextListener s) (tasks s).
Definition set_wallet (v : option string) (s : State) : State :=
  mkState (objs s) (nextLoc s) (configuredChains s) (providers s) (nextProvider s) v
    (monitors s) (seenTxs s) (activity s) (posted s) (timers s) (nextTimer s)
    (pollers s) (listeners s) (nextListener s) (tasks s).
Definition set_monitors (v : gmap N Monitor) (s : State) : State :=
  mkState (objs s) (nextLoc s) (configuredChains s) (providers s) (nextProvider s)
    (wallet s) v (seenTxs s) (activity s) (posted s) (timers s) (nextTimer s)
    (pollers s) (listeners s) (nextListener s) (tasks s).
Definition set_seenTxs (v : gset string) (s : State) : State :=
  mkState (objs s) (nextLoc s) (configuredChains s) (providers s) (nextProvider s)
    (wallet s) (monitors s) v (activity s) (posted s) (timers s) (nextTimer s)
    (pollers s) (listeners s) (nextListener s) (tasks s).
Definition set_activity (v : list Delivery) (s : State) : State :=
  mkState (objs s) (nextLoc s) (configuredChains s) (providers s) (nextProvider s)
    (wallet s) (monitors s) (seenTxs s) v (posted s) (timers s) (nextTimer s)
    (pollers s) (listeners s) (nextListener s) (tasks s).
Definition set_posted (v : list (N * Info)) (s : State) : State :=
  mkState (objs s) (nextLoc s) (configuredChains s) (providers s) (nextProvider s)
    (wallet s) (monitors s) (seenTxs s) (activity s) v (timers s) (nextTimer s)
    (pollers s) (listeners s) (nextListener s) (tasks s).
Definition set_timers (v : gset TimerId) (s : State) : State :=
  mkState (objs s) (nextLoc s) (configuredChains s) (providers s) (nextProvider s)
    (wallet s) (monitors s) (seenTxs s) (activity s) (posted s) v (nextTimer s)
    (pollers s) (listeners s) (nextListener s) (tasks s).
Definition set_nextTimer (v : TimerId) (s : State) : State :=
  mkState (objs s) (nextLoc s) (configuredChains s) (providers s) (nextProvider s)
    (wallet s) (monitors s) (seenTxs s) (activity s) (posted s) (timers s) v (pollers s)
    (listeners s) (nextListener s) (tasks s).
Definition set_pollers (v : gmap TimerId Poller) (s : State) : State :=
  mkState (objs s) (nextLoc s) (configuredChains s) (providers s) (nextProvider s)
    (wallet s) (monitors s) (seenTxs s) (activity s) (posted s) (timers s) (nextTimer s)
    v (listeners s) (nextListener s) (tasks s).
Definition set_listeners (v : gmap ListenerId Listener) (s : State) : State :=
  mkState (objs s) (nextLoc s) (configuredChains s) (providers s) (nextProvider s)
    (wallet s) (monitors s) (seenTxs s) (activity s) (posted s) (timers s) (nextTimer s)
    (pollers s) v (nextListener s) (tasks s).
Definition set_nextListener (v : ListenerId) (s : State) : State :=
  mkState (objs s) (nextLoc s) (configuredChains s) (providers s) (nextProvider s)
    (wallet s) (monitors s) (seenTxs s) (activity s) (posted s) (timers s) (nextTimer s)
    (pollers s) (listeners s) v (tasks s).
Definition set_tasks (v : list Task) (s : State) : State :=
  mkState (objs s) (nextLoc s) (configuredChains s) (providers s) (nextProvider s)
    (wallet s) (monitors s) (seenTxs s) (activity s) (posted s) (timers s) (nextTimer s)
    (pollers s) (listeners s) (nextListener s) v.

(** ** Chain registry *)

(** The built-in chains.  [DEFAULT_CHAINS] itself is never reassigned: it
    maps each id to one object, and it is those objects that change. *)
Definition DEFAULT_CHAINS : gmap N loc :=
  {[ 1%N := 0%nat; 5%N := 1%nat; 56%N := 2%nat; 137%N := 3%nat ]}.

(** The objects of the built-in chains as the script creates them. *)
Definition default_objs : gmap loc ChainConfig :=
  {[ 0%nat := mkChain 1 "Ethereum Mainnet" (Some "https://cloudflare-eth.com")
                "https://etherscan.io/tx/" "ETH";
     1%nat := mkChain 5 "Goerli (test)" (Some "https://rpc.ankr.com/eth_goerli")
                "https://goerli.etherscan.io/tx/" "ETH";
     2%nat := mkChain 56 "BSC Mainnet" (Some "https://bsc-dataseed.binance.org/")
                "https://bscscan.com/tx/" "BNB";
     3%nat := mkChain 137 "Polygon" (Some "https://polygon-rpc.com")
                "https://polygonscan.com/tx/" "MATIC" ]}.

(** [obj[chainId]] followed by a read of the object found. *)
Definition deref (s : State) (m : gmap N loc) (chainId : N) : option (loc * ChainConfig) :=
  match m !! chainId with
  | Some l => match objs s !! l with Some c => Some (l, c) | None => None end
  | None => None
  end.

(** [configuredChains[chainId]] *)
Definition getConfig (s : State) (chainId : N) : option ChainConfig :=
  snd <$> deref s (configuredChains s) chainId.

(** [{...meta}]: a new object with the fields of [c]. *)
Definition alloc (c : ChainConfig) (s : State) : loc * State :=
  (nextLoc s, set_nextLoc (S (nextLoc s)) (set_objs (<[nextLoc s := c]> (objs s)) s)).

(** The character class of [/[\n,]+/]. *)
Definition is_sep (c : ascii) : bool :=
  Ascii.eqb c "," || Ascii.eqb c "010".

(** The body of the [for] loop of [parseChainsInput] on one item [p]. *)
Definition parse_item (p : string) (acc : gmap N loc * State) : gmap N loc * State :=
  let '(result, s) := acc in
  match Js.split_char ":" p with
  | [] => acc
  | left_ :: rest =>
      let chainIdStr := Js.trim left_ in
      if negb (Js.test_digits chainIdStr) then acc
      else
        let chainId := Js.Number chainIdStr in
        let dflt := deref s DEFAULT_CHAINS chainId in
        let rpc :=
          match rest with
          | [] => match dflt with Some (_, d) => cfg_rpc d | None => None end
          | _ => Some (Js.trim (Js.join ":" rest))
          end in
        match dflt with
        | Some (l, d) =>
            (* [meta] is the built-in object itself *)
            let meta := mkChain (cfg_id d) (cfg_name d)
                          (Js.or_else (Js.or_else rpc (cfg_rpc d)) None)
                          (cfg_explorer d) (cfg_native d) in
            let s1 := set_objs (<[l := meta]> (objs s)) s in
            let '(l', s2) := alloc meta s1 in
            (<[chainId := l']> result, s2)
        | None =>
            let meta0 := mkChain chainId ("Chain " +:+ Js.toString chainId)
                           (Js.or_else rpc None) "" "" in
            let meta := mkChain (cfg_id meta0) (cfg_name meta0)
                          (Js.or_else (Js.or_else rpc (cfg_rpc meta0)) None)
                          (cfg_explorer meta0) (cfg_native meta0) in
            let '(l', s2) := alloc meta s in
            (<[chainId := l']> result, s2)
        end
  end.

Arguments parse_item : simpl never.

(** The [for] loop of [parseChainsInput]. *)
Definition parse_items (parts : list string) (acc : gmap N loc * State) : gmap N loc * State :=
  fold_left (fun a p => parse_item p a) parts acc.

(** [raw.split(/[\n,]+/).map(s=>s.trim()).filter(Boolean)] *)
Definition parts_of (raw : string) : list string :=
  List.filter Js.nonempty (map Js.trim (Js.split_runs is_sep raw)).

Definition parseChainsInput (raw : string) (s : State) : gmap N loc * State :=
  parse_items (parts_of raw) (∅, s).

(** ** Provider pool *)

(** A value returned, or an exception thrown with its message. *)
Inductive Result (A : Type) :=
  | Ok (a : A)
  | Throw (msg : string).
Arguments Ok {A} a.
Arguments Throw {A} msg.

(** [ensureProvider(chainId)]: the cached provider, or a new one on the
    configured endpoint, or the exception for a chain without one. *)
Definition ensureProvider (chainId : N) (s : State) : Result Provider * State :=
  match providers s !! chainId with
  | Some p => (Ok p, s)
  | None =>
      match getConfig s chainId with
      | Some cfg =>
          match cfg_rpc cfg with
          | Some url =>
              if Js.nonempty url then
                let provider := mkProvider (nextProvider s) url in
                (Ok provider,
                 set_nextProvider (S (nextProvider s))
                   (set_providers (<[chainId := provider]> (providers s)) s))
              else (Throw ("No RPC configured for chain " +:+ Js.toString chainId), s)
          | None => (Throw ("No RPC configured for chain " +:+ Js.toString chainId), s)
          end
      | None => (Throw ("No RPC configured for chain " +:+ Js.toString chainId), s)
      end
  end.

(** [Object.keys(configuredChains)[0]]: integer keys are enumerated in
    ascending order, so this is the least configured id. *)
Definition first_key (m : gmap N loc) : option N :=
  match (map_to_list m).*1 with
  | [] => None
  | k :: ks => Some (foldr N.min k ks)
  end.

(** [updateBalanceForSelectedChain] with [chainId] the value of the main
    chain select.  Of its effects only the provider it may open is kept; the
    balance it then awaits goes to the page alone. *)
Definition updateBalanceForSelectedChain (chainId : N) (s : State) : State :=
  match wallet s with
  | None => s
  | Some _ =>
      match getConfig s chainId with
      | None => s
      | Some _ => snd (ensureProvider chainId s)
      end
  end.

(** [applyChainsToUI]: the selects are rebuilt and the first chain becomes
    the selected one, whose balance is refreshed. *)
Definition applyChainsToUI (s : State) : State :=
  match first_key (configuredChains s) with
  | Some k => updateBalanceForSelectedChain k s
  | None => s
  end.

(** The click handler of the apply-chains button on the text [input]. *)
Definition applyChains (input : string) (s : State) : State :=
  let raw := Js.trim input in
  if negb (Js.nonempty raw) then s
  else
    let '(parsed, s1) := parseChainsInput raw s in
    let s2 := set_configuredChains (parsed ∪ configuredChains s1) s1 in
    let s3 := set_providers ∅ s2 in
    applyChainsToUI s3.

(** The state once the script has run [initUI]: the configured chains are
    the built-in objects themselves.  Interval handles start at 1, as in a
    browser, so that a handle is never falsy. *)
Definition init : State :=
  mkState default_objs 4 DEFAULT_CHAINS ∅ 0 None ∅ ∅ [] [] ∅ 1 ∅ ∅ 0 [].

(** ** Recording an activity *)

(** [seenTxs.has(info.txHash)] *)
Definition seen (h : option string) (s : State) : bool :=
  match h with
  | Some x => bool_decide (x ∈ seenTxs s)
  | None => false
  end.

(** The name of [configuredChains[chainId] || { name: `Chain ${chainId}`, ... }]. *)
Definition chainName (s : State) (chainId : N) : string :=
  match getConfig s chainId with
  | Some cfg => cfg_name cfg
  | None => "Chain " +:+ Js.toString chainId
  end.

(** [recordActivity(chainId, info)]: the early return on a seen hash, the
    insertion into [seenTxs], then the list item prepended to the activity
    panel and the [incoming_tx] message posted to the embedding site. *)
Definition recordActivity (chainId : N) (info : Info) (s : State) : State :=
  let h := info_txHash info in
  if Js.truthy h && seen h s then s
  else
    let s1 :=
      match h with
      | Some x => if Js.nonempty x then set_seenTxs ({[x]} ∪ seenTxs s) s else s
      | None => s
      end in
    set_posted ((chainId, info) :: posted s1)
      (set_activity (mkDelivery chainId (chainName s1 chainId) info :: activity s1) s1).

(** ** Token subscriptions *)

(** An [async] body reaches an [await]: its continuation is pending. *)
Definition spawn (t : Task) (s : State) : State := set_tasks (tasks s ++ [t]) s.

(** [subscribeTokenTransfer] up to its first [await]. *)
Definition subscribeTokenTransfer (chainId : N) (tokenAddr : string) (s : State) : State :=
  match ensureProvider chainId s with
  | (Ok _, s1) => spawn (TSubBlockNumber chainId tokenAddr) s1
  | (Throw _, s1) => s1
  end.

(** The end of [subscribeTokenTransfer]: [contract.on] and the stored
    unsubscribe closure.  Reading [wallet.address] of a locked wallet throws
    into the outer [catch]. *)
Definition attach (chainId : N) (tokenAddr : string) (s : State) : State :=
  match wallet s with
  | None => s
  | Some a =>
      let lid := nextListener s in
      let s1 := set_nextListener (S lid)
                  (set_listeners (<[lid := mkListener chainId tokenAddr a]> (listeners s)) s) in
      let mon := default (mkMonitor [] None) (monitors s1 !! chainId) in
      set_monitors (<[chainId := mkMonitor (tokenListeners mon ++ [lid]) (pollHandle mon)]>
                      (monitors s1)) s1
  end.

(** The [for] loop over the historical logs, from the log it has reached:
    a log that does not parse is skipped, the next one waits for
    [decimals()]; after the last one the live listener is attached. *)
Fixpoint sub_logs (chainId : N) (tokenAddr : string) (logs : list Log) (s : State) : State :=
  match logs with
  | [] => attach chainId tokenAddr s
  | log :: rest =>
      match log_args log with
      | None => sub_logs chainId tokenAddr rest s
      | Some _ => spawn (TSubDecimals chainId tokenAddr log rest) s
      end
  end.

(** [new Set(logs.map(l => l.address))] in its iteration order. *)
Fixpoint distinct (l : list string) : list string :=
  match l with
  | [] => []
  | a :: l' => a :: List.filter (fun b => negb (String.eqb a b)) (distinct l')
  end.

(** ** Block polling *)

(** [a.toLowerCase() === b.toLowerCase()] *)
Definition same_address (a b : string) : bool :=
  String.eqb (Js.toLowerCase a) (Js.toLowerCase b).

(** [tx.to && tx.to.toLowerCase() === wallet.address.toLowerCase()];
    [None] when reading [wallet.address] throws. *)
Definition to_wallet (tx : Tx) (s : State) : option bool :=
  match tx_to tx with
  | Some t =>
      if Js.nonempty t then
        match wallet s with
        | Some w => Some (same_address t w)
        | None => None
        end
      else Some false
  | None => Some false
  end.

(** [siteAddr && tx.from && tx.from.toLowerCase() === siteAddr.toLowerCase()] *)
Definition from_site (siteAddr : option string) (tx : Tx) : bool :=
  match siteAddr, tx_from tx with
  | Some a, Some f => Js.nonempty a && Js.nonempty f && same_address f a
  | _, _ => false
  end.

(** The body of the loop over [full.transactions]; [None] when it throws,
    which can only happen before anything is recorded. *)
Definition scan_tx (chainId : N) (siteAddr : option string) (tx : Tx) (s : State)
  : option State :=
  match to_wallet tx s with
  | None => None
  | Some native =>
      let s1 :=
        if native then
          recordActivity chainId
            (mkInfo Native None (tx_from tx) (tx_to tx) (formatEther (tx_value tx)) (tx_hash tx)) s
        else s in
      if from_site siteAddr tx then
        match to_wallet tx s1 with
        | None => None
        | Some true =>
            Some (recordActivity chainId
                    (mkInfo SitePayment None (tx_from tx) (tx_to tx)
                       (formatEther (tx_value tx)) (tx_hash tx)) s1)
        | Some false => Some s1
        end
      else Some s1
  end.

(** The loop over the transactions of one block inside its [try]: an
    exception leaves the rest of the block unscanned. *)
Fixpoint scan_txs (chainId : N) (siteAddr : option string) (txs : list Tx) (s : State) : State :=
  match txs with
  | [] => s
  | tx :: rest =>
      match scan_tx chainId siteAddr tx s with
      | Some s' => scan_txs chainId siteAddr rest s'
      | None => s
      end
  end.

(** [polledBlock = v] in the closure of the interval [t]. *)
Definition set_polledBlock (t : TimerId) (v : Z) (s : State) : State :=
  set_pollers (alter (fun p => mkPoller (p_chainId p) (p_siteAddr p) (Some v)) t (pollers s)) s.

(** The step of the loop [for(b = ...; b <= block.number; b++)] after block
    [b] has been dealt with. *)
Definition poll_next (t : TimerId) (b latest : Z) (s : State) : State :=
  if (b + 1 <=? latest)%Z then spawn (TPollBlock t (b + 1) latest) s
  else set_polledBlock t latest s.

(** ** Starting and stopping *)

(** The body of [selectedOptions.forEach] for one chain. *)
Definition start_chain (tokens : option (list string)) (siteAddr : option string)
    (chainId : N) (s : State) : Result unit * State :=
  match monitors s !! chainId with
  | Some _ => (Ok tt, s)
  | None =>
      match ensureProvider chainId s with
      | (Throw msg, s1) => (Throw msg, s1)
      | (Ok _, s1) =>
          let s2 := set_monitors (<[chainId := mkMonitor [] None]> (monitors s1)) s1 in
          let s3 :=
            match tokens with
            | Some (tok :: toks) =>
                fold_left (fun a tk => subscribeTokenTransfer chainId tk a) (tok :: toks) s2
            | _ => spawn (TDiscBlockNumber chainId) s2
            end in
          let poll := nextTimer s3 in
          let s4 := set_nextTimer (S poll)
                      (set_timers ({[poll]} ∪ timers s3)
                         (set_pollers (<[poll := mkPoller chainId siteAddr None]> (pollers s3)) s3)) in
          (Ok tt,
           set_monitors
             (alter (fun m => mkMonitor (tokenListeners m) (Some poll)) chainId (monitors s4)) s4)
      end
  end.

(** [forEach]: an exception thrown by the callback ends the iteration. *)
Fixpoint start_chains (tokens : option (list string)) (siteAddr : option string)
    (chains : list N) (s : State) : Result unit * State :=
  match chains with
  | [] => (Ok tt, s)
  | c :: rest =>
      match start_chain tokens siteAddr c s with
      | (Ok _, s') => start_chains tokens siteAddr rest s'
      | (Throw msg, s') => (Throw msg, s')
      end
  end.

(** [startMonitoring] on the selected options of the chain select and the
    values of the token and site-address inputs. *)
Definition startMonitoring (selectedOptions : list N) (monitorTokens siteAddress : string)
    (s : State) : Result unit * State :=
  match wallet s with
  | None => (Ok tt, s)
  | Some _ =>
      match selectedOptions with
      | [] => (Ok tt, s)
      | _ =>
          let tokensRaw := Js.trim monitorTokens in
          let tokens :=
            if Js.nonempty tokensRaw
            then Some (List.filter Js.nonempty (map Js.trim (Js.split_char "," tokensRaw)))
            else None in
          let site := Js.trim siteAddress in
          let siteAddr := if Js.nonempty site then Some site else None in
          start_chains tokens siteAddr selectedOptions s
      end
  end.

(** One stored unsubscribe closure:
    [contract.off(contract.filters.Transfer(null, wallet.address), listener)]
    inside [try]. It throws on a locked wallet, and removes the listener only
    under the filter it was registered with. *)
Definition off (lid : ListenerId) (s : State) : State :=
  match wallet s with
  | None => s
  | Some a =>
      match listeners s !! lid with
      | Some l => if String.eqb (l_filterTo l) a
                  then set_listeners (delete lid (listeners s)) s else s
      | None => s
      end
  end.

(** [clearInterval(handle)] *)
Definition clearInterval (t : TimerId) (s : State) : State :=
  set_timers (timers s ∖ {[t]}) s.

(** The body of [Object.keys(monitors).forEach] in [stopMonitoring]. *)
Definition stop_chain (chainId : N) (s : State) : State :=
  match monitors s !! chainId with
  | None => s
  | Some mon =>
      let s1 := fold_left (fun a lid => off lid a) (tokenListeners mon) s in
      let s2 := match pollHandle mon with
                | Some t => clearInterval t s1
                | None => s1
                end in
      set_monitors (delete chainId (monitors s2)) s2
  end.

(** [stopMonitoring()]: every monitor is taken down; the order of the keys
    does not matter to the outcome. *)
Definition stopMonitoring (s : State) : State :=
  fold_left (fun a chainId => stop_chain chainId a) (map_to_list (monitors s)).*1 s.

(** [logout], as far as the engine is concerned: the wallet is dropped and
    the activity panel emptied before [stopMonitoring] runs. *)
Definition logout (s : State) : State :=
  stopMonitoring (set_activity [] (set_wallet None s)).

(** ** The event loop

    Between two events nothing runs.  An event is a user action, a timer
    firing, a Transfer event pushed to a live listener, or the answer to one
    pending RPC call, on which the waiting [async] body runs up to its next
    [await]. *)

(** What an RPC call is answered with; [RReject] is any failure. *)
Inductive Response :=
  | RNumber (n : Z)
  | RLogs (logs : list Log)
  | RBlock (b : Block)
  | RReject.

(** [EvWallet]: a wallet is created, imported or unlocked.  [EvBalance]: the
    balance of the selected chain is refreshed, which asks the pool for its
    provider, as sending a transaction does.  [EvApplyChains], [EvStart],
    [EvStop], [EvLogout]: the buttons of the page and the messages of the
    embedding site that stand for them.  [EvTimer]: an interval fires.
    [EvTransfer]: the provider pushes a Transfer event to a live listener.
    [EvResponse i r]: the [i]-th pending call is answered by [r]. *)
Inductive Event :=
  | EvWallet (address : string)
  | EvBalance (chainSelect : N)
  | EvLogout
  | EvApplyChains (input : string)
  | EvStart (selectedOptions : list N) (monitorTokens siteAddress : string)
  | EvStop
  | EvTimer (t : TimerId)
  | EvTransfer (lid : ListenerId) (from to : string) (value : Z) (txHash : option string)
  | EvResponse (i : nat) (r : Response).

(** [await contract.decimals().catch(()=>18)] *)
Definition decimals_of (r : Response) : option Z :=
  match r with
  | RNumber d => Some d
  | RReject => Some 18%Z
  | _ => None
  end.

(** The continuation of a suspended body on the answer [r]; [None] when [r]
    is not an answer to the call the body waits for. *)
Definition resume (t : Task) (r : Response) (s : State) : option State :=
  match t, r with
  | TSubBlockNumber c tok, RNumber block =>
      match wallet s with
      | Some _ => Some (spawn (TSubLogs c tok (Z.max 0 (block - 5000)) block) s)
      | None => Some s
      end
  | TSubBlockNumber _ _, RReject => Some s
  | TSubLogs c tok _ _, RLogs logs => Some (sub_logs c tok logs s)
  | TSubLogs c tok _ _, RReject => Some (attach c tok s)
  | TSubDecimals c tok log rest, _ =>
      match decimals_of r, log_args log with
      | Some d, Some (from, to, value) =>
          Some (sub_logs c tok rest
                  (recordActivity c
                     (mkInfo ERC20 (Some tok) (Some from) (Some to) (formatUnits value d)
                        (log_transactionHash log)) s))
      | _, _ => None
      end
  | TDiscBlockNumber c, RNumber block =>
      match wallet s with
      | Some _ => Some (spawn (TDiscLogs c (Z.max 0 (block - 5000)) block) s)
      | None => Some s
      end
  | TDiscBlockNumber _, RReject => Some s
  | TDiscLogs c _ _, RLogs logs =>
      Some (fold_left (fun a addr => subscribeTokenTransfer c addr a)
              (distinct (map log_address logs)) s)
  | TDiscLogs _ _ _, RReject => Some s
  | TLiveDecimals c tok from to value txHash, _ =>
      match decimals_of r with
      | Some d =>
          Some (recordActivity c
                  (mkInfo ERC20 (Some tok) (Some from) (Some to) (formatUnits value d) txHash) s)
      | None => None
      end
  | TPollLatest t, RBlock block =>
      match pollers s !! t with
      | None => None
      | Some p =>
          let polled := match polledBlock p with
                        | Some v => v
                        | None => (blk_number block - 1)%Z
                        end in
          let s1 := set_polledBlock t polled s in
          if (blk_number block <=? polled)%Z then Some s1
          else Some (spawn (TPollBlock t (polled + 1) (blk_number block)) s1)
      end
  | TPollLatest _, RReject => Some s
  | TPollBlock t b latest, RBlock full =>
      match pollers s !! t with
      | None => None
      | Some p =>
          Some (poll_next t b latest
                  (scan_txs (p_chainId p) (p_siteAddr p) (blk_transactions full) s))
      end
  | TPollBlock t b latest, RReject => Some (poll_next t b latest s)
  | _, _ => None
  end.

(** One event; [None] when it cannot happen in [s]: the interval is not
    running, the listener is not registered, no such call is pending.  An
    exception that leaves [startMonitoring] ends the handler and is lost. *)
Definition step (s : State) (e : Event) : option State :=
  match e with
  | EvWallet a => Some (set_wallet (Some a) s)
  | EvBalance sel => Some (updateBalanceForSelectedChain sel s)
  | EvLogout => Some (logout s)
  | EvApplyChains input => Some (applyChains input s)
  | EvStart sel toks site => Some (snd (startMonitoring sel toks site s))
  | EvStop => Some (stopMonitoring s)
  | EvTimer t => if bool_decide (t ∈ timers s) then Some (spawn (TPollLatest t) s) else None
  | EvTransfer lid from to value txHash =>
      match listeners s !! lid with
      | Some l => Some (spawn (TLiveDecimals (l_chainId l) (l_token l) from to value txHash) s)
      | None => None
      end
  | EvResponse i r =>
      match tasks s !! i with
      | Some t => resume t r (set_tasks (delete i (tasks s)) s)
      | None => None
      end
  end.

(** A sequence of events, in the order they happen. *)
Fixpoint run (s : State) (es : list Event) : option State :=
  match es with
  | [] => Some s
  | e :: es' => match step s e with Some s' => run s' es' | None => None end
  end.

(** ** Vocabulary of the statements *)

(** A sequence of [recordActivity] calls, whatever callback makes them. *)
Definition record_all (calls : list (N * Info)) (s : State) : State :=
  fold_left (fun a ci => recordActivity (fst ci) (snd ci) a) calls s.

(** The call [ci] reports the hash [h]. *)
Definition has_hash (h : string) (ci : N * Info) : bool :=
  match info_txHash (snd ci) with
  | Some x => String.eqb x h
  | None => false
  end.

(** How many events of the sink [l] carry the hash [h]. *)
Definition count_hash (h : string) (l : list (N * Info)) : nat :=
  length (List.filter (has_hash h) l).

(** An event of kind [k] for transaction [tx] is in the sink. *)
Definition delivered (k : Kind) (tx : Tx) (s : State) : Prop :=
  exists c i, (c, i) ∈ posted s /\ info_type i = k /\ info_txHash i = tx_hash tx.

(** The two records the poller builds for a transaction. *)
Definition native_info (tx : Tx) : Info :=
  mkInfo Native None (tx_from tx) (tx_to tx) (formatEther (tx_value tx)) (tx_hash tx).

Definition site_info (tx : Tx) : Info :=
  mkInfo SitePayment None (tx_from tx) (tx_to tx) (formatEther (tx_value tx)) (tx_hash tx).

(** The poller's watermark. *)
Definition watermark (s : State) (t : TimerId) : option Z :=
  match pollers s !! t with
  | Some p => polledBlock p
  | None => None
  end.

(** The answers a block fetch can get: a block, or a failure. *)
Definition block_answer (r : Response) : Prop :=
  r = RReject \/ exists full, r = RBlock full.

(** The live listeners registered for the pair [(c, tok)]. *)
Definition live (c : N) (tok : string) (s : State) : gmap nat Listener :=
  filter (fun x => l_chainId x.2 = c /\ l_token x.2 = tok) (listeners s).

(** An item of the chains input is well formed when what precedes its first
    colon is, once trimmed, a string of digits; that number is its id. *)
Definition well_formed (p : string) : bool :=
  match Js.split_char ":" p with
  | left_ :: _ => Js.test_digits (Js.trim left_)
  | [] => false
  end.

(** The chain id a well-formed item names. *)
Definition item_id (p : string) : N :=
  match Js.split_char ":" p with
  | left_ :: _ => Js.Number (Js.trim left_)
  | [] => 0%N
  end.

(** The object [parse_item] builds for a well-formed item [p] in state [s]. *)
Definition item_meta (p : string) (s : State) : ChainConfig :=
  let k := item_id p in
  let rest := tail (Js.split_char ":" p) in
  let dflt := deref s DEFAULT_CHAINS k in
  let rpc := match rest with
             | [] => match dflt with Some (_, d) => cfg_rpc d | None => None end
             | _ => Some (Js.trim (Js.join ":" rest))
             end in
  match dflt with
  | Some (_, d) =>
      mkChain (cfg_id d) (cfg_name d) (Js.or_else (Js.or_else rpc (cfg_rpc d)) None)
        (cfg_explorer d) (cfg_native d)
  | None =>
      mkChain k ("Chain " +:+ Js.toString k)
        (Js.or_else (Js.or_else rpc (Js.or_else rpc None)) None) "" ""
  end.

(** [c] with its endpoint replaced. *)
Definition with_rpc (rpc : option string) (c : ChainConfig) : ChainConfig :=
  mkChain (cfg_id c) (cfg_name c) rpc (cfg_explorer c) (cfg_native c).

(** No character of [s] satisfies [P]. *)
Fixpoint none_of (P : ascii -> bool) (s : string) : bool :=
  match s with
  | EmptyString => true
  | String c s' => negb (P c) && none_of P s'
  end.

Definition is_colon (c : ascii) : bool := Ascii.eqb c ":".

(** What follows the white-space character [s] starts with; [None] when [s]
    starts with none. *)
Definition strip_ws (s : string) : option string :=
  match s with
  | EmptyString => None
  | String c1 s1 =>
      if Js.is_ws c1 then Some s1
      else
        match s1 with
        | EmptyString => None
        | String c2 s2 =>
            if Js.is_ws2 c1 c2 then Some s2
            else
              match s2 with
              | EmptyString => None
              | String c3 s3 => if Js.is_ws3 c1 c2 c3 then Some s3 else None
              end
        end
  end.

(** A character of one byte that is not white space: no white-space
    character has such a byte in it. *)
Definition plain (c : ascii) : bool := (nat_of_ascii c <? 128)%nat && negb (Js.is_ws c).

(** No event of the list is a click on the apply-chains button. *)
Definition no_apply (es : list Event) : Prop :=
  Forall (fun e => forall input, e <> EvApplyChains input) es.

(** ** Frames and invariants *)

(** [s'] differs from [s] at most in the seen-set, the activity panel and
    the posted messages. *)
Record sink_only (s s' : State) : Prop := mkSinkOnly {
  so_objs : objs s' = objs s;
  so_nextLoc : nextLoc s' = nextLoc s;
  so_configuredChains : configuredChains s' = configuredChains s;
  so_providers : providers s' = providers s;
  so_nextProvider : nextProvider s' = nextProvider s;
  so_wallet : wallet s' = wallet s;
  so_monitors : monitors s' = monitors s;
  so_timers : timers s' = timers s;
  so_nextTimer : nextTimer s' = nextTimer s;
  so_pollers : pollers s' = pollers s;
  so_listeners : listeners s' = listeners s;
  so_nextListener : nextListener s' = nextListener s;
  so_tasks : tasks s' = tasks s
}.

(** [s'] differs from [s] at most in the provider pool and the pending tasks. *)
Record pool_only (s s' : State) : Prop := {
  po_objs : objs s' = objs s;
  po_nextLoc : nextLoc s' = nextLoc s;
  po_configuredChains : configuredChains s' = configuredChains s;
  po_wallet : wallet s' = wallet s;
  po_monitors : monitors s' = monitors s;
  po_seenTxs : seenTxs s' = seenTxs s;
  po_activity : activity s' = activity s;
  po_posted : posted s' = posted s;
  po_timers : timers s' = timers s;
  po_nextTimer : nextTimer s' = nextTimer s;
  po_pollers : pollers s' = pollers s;
  po_listeners : listeners s' = listeners s;
  po_nextListener : nextListener s' = nextListener s
}.

(** [s'] differs from [s] at most in the registered listeners. *)
Record listeners_only (s s' : State) : Prop := {
  lo_objs : objs s' = objs s;
  lo_nextLoc : nextLoc s' = nextLoc s;
  lo_configuredChains : configuredChains s' = configuredChains s;
  lo_providers : providers s' = providers s;
  lo_nextProvider : nextProvider s' = nextProvider s;
  lo_wallet : wallet s' = wallet s;
  lo_monitors : monitors s' = monitors s;
  lo_seenTxs : seenTxs s' = seenTxs s;
  lo_activity : activity s' = activity s;
  lo_posted : posted s' = posted s;
  lo_timers : timers s' = timers s;
  lo_nextTimer : nextTimer s' = nextTimer s;
  lo_pollers : pollers s' = pollers s;
  lo_nextListener : nextListener s' = nextListener s;
  lo_tasks : tasks s' = tasks s
}.

(** The fields of a chain object that never change once it exists. *)
Definition same_fixed (c d : ChainConfig) : Prop :=
  cfg_id c = cfg_id d /\ cfg_name c = cfg_name d /\
  cfg_explorer c = cfg_explorer d /\ cfg_native c = cfg_native d.

(** What the fixed fields of chain [k] are: those of its built-in object, or
    the fallback display fields. *)
Definition canon (k : N) : ChainConfig :=
  match DEFAULT_CHAINS !! k with
  | Some l => default (mkChain k ("Chain " +:+ Js.toString k) None "" "") (default_objs !! l)
  | None => mkChain k ("Chain " +:+ Js.toString k) None "" ""
  end.

(** Every entry of the map [m] points to an allocated object carrying the
    fixed fields of its chain. *)
Definition map_ok (o : gmap loc ChainConfig) (n : loc) (m : gmap N loc) : Prop :=
  forall k l, m !! k = Some l ->
    (l < n)%nat /\ exists c, o !! l = Some c /\ same_fixed c (canon k).

(** The built-in objects and the configured entries are allocated and
    carry the fixed fields of their chains; the built-in chains stay
    configured. *)
Definition InvR (o : gmap loc ChainConfig) (n : loc) (conf : gmap N loc) : Prop :=
  map_ok o n DEFAULT_CHAINS /\ map_ok o n conf /\
  forall k, is_Some (DEFAULT_CHAINS !! k) -> is_Some (conf !! k).

(** [s'] is [s] after some objects were allocated and some endpoints
    rewritten. *)
Definition heap_step (s s' : State) : Prop :=
  (exists o n, s' = set_nextLoc n (set_objs o s)) /\
  (nextLoc s <= nextLoc s')%nat /\
  forall l c, (l < nextLoc s)%nat -> objs s !! l = Some c ->
    exists c', objs s' !! l = Some c' /\ same_fixed c' c.

(** An endpoint is stored as [null] or as a non-empty string. *)
Definition rpc_ok (c : ChainConfig) : Prop := Js.or_else (cfg_rpc c) None = cfg_rpc c.

(** The configured entry of a built-in chain reads like its built-in object,
    and every stored endpoint is well formed. *)
Definition InvA (s : State) : Prop :=
  (forall k l l', DEFAULT_CHAINS !! k = Some l -> configuredChains s !! k = Some l' ->
     objs s !! l' = objs s !! l) /\
  (forall l c, objs s !! l = Some c -> rpc_ok c).

(** What holds of the result map and the store while a batch of items is
    parsed from the state [s0]. *)
Definition batch_inv (s0 : State) (result : gmap N loc) (s : State) : Prop :=
  (nextLoc s0 <= nextLoc s)%nat /\
  (forall k l', result !! k = Some l' ->
     (nextLoc s0 <= l')%nat /\ (l' < nextLoc s)%nat /\ is_Some (objs s !! l')) /\
  (forall k l l', DEFAULT_CHAINS !! k = Some l -> result !! k = Some l' ->
     objs s !! l' = objs s !! l) /\
  (forall l, (l < nextLoc s0)%nat ->
     (forall k, DEFAULT_CHAINS !! k = Some l -> result !! k = None) ->
     objs s !! l = objs s0 !! l) /\
  (forall l c, objs s !! l = Some c -> rpc_ok c).

(** Every handle of the pool was issued before the next one to come. *)
Definition InvP (s : State) : Prop :=
  forall k p, providers s !! k = Some p -> (prov_id p < nextProvider s)%nat.

(** The pool of [s'] extends the pool of [s]: handles are kept, new ones
    have new identities. *)
Definition pool_grows (s s' : State) : Prop :=
  (nextProvider s <= nextProvider s')%nat /\
  (forall k p, providers s !! k = Some p -> providers s' !! k = Some p) /\
  (InvP s -> InvP s').

(** Every registered listener was registered before the next one to come. *)
Definition InvL (s : State) : Prop :=
  forall lid, is_Some (listeners s !! lid) -> (lid < nextListener s)%nat.

(** Every running interval is the recorded poll handle of some monitor. *)
Definition InvT (s : State) : Prop :=
  forall t, t ∈ timers s ->
    exists c m, monitors s !! c = Some m /\ pollHandle m = Some t.

(** What holds in every state the page can reach. *)
Definition Inv (s : State) : Prop :=
  InvR (objs s) (nextLoc s) (configuredChains s) /\ InvP s /\ InvL s /\ InvT s.

(** What every step other than a change of configuration guarantees. *)
Definition quiet_step (s s' : State) : Prop :=
  objs s' = objs s /\ nextLoc s' = nextLoc s /\ configuredChains s' = configuredChains s /\
  pool_grows s s' /\ (InvL s -> InvL s') /\ (InvT s -> InvT s').

(** The sink holds one event for each non-empty hash of the seen-set and
    none for any other non-empty hash. *)
Definition InvD (s : State) : Prop :=
  forall h, Js.nonempty h = true ->
    count_hash h (posted s) = if bool_decide (h ∈ seenTxs s) then 1%nat else 0%nat.

(** ** Scenarios *)

Definition wA : string := "0xAbC0000000000000000000000000000000000001".

Definition siteA : string := "0x5172000000000000000000000000000000000002".

Definition tx1 : Tx := mkTx (Some wA) (Some siteA) 5 (Some "0xabc").

Definition tx2 : Tx := mkTx (Some wA) (Some siteA) 7 (Some "0xdef").

(** The wallet is unlocked, chain 1 is monitored with [siteA] as the site
    address, the first tick sees block 100 and the block holds [tx1]. *)
Definition trace_site_payment : list Event :=
  [ EvWallet wA; EvStart [1%N] "0xTOK" siteA; EvTimer 1;
    EvResponse 1 (RBlock (mkBlock 100 [])); EvResponse 1 (RBlock (mkBlock 100 [tx1])) ].

(** Chain 2 is configured without an endpoint. *)
Definition trace_no_rpc : list Event := [ EvWallet wA; EvApplyChains "2" ].

(** The wallet is unlocked and chain 1 is monitored, tokens to be discovered. *)
Definition started : State :=
  default init (run init [ EvWallet wA; EvStart [1%N] "" "" ]).

(** The token input names the same token twice; both subscriptions get
    their block number and an empty history. *)
Definition trace_twice : list Event :=
  [ EvWallet wA; EvStart [1%N] "0xTOK,0xTOK" "";
    EvResponse 0 (RNumber 100); EvResponse 0 (RNumber 100);
    EvResponse 0 (RLogs []); EvResponse 0 (RLogs []) ].

(** Chain 1 is monitored and a tick has asked for the latest block when
    monitoring is stopped. *)
Definition trace_stop : list Event :=
  [ EvWallet wA; EvStart [1%N] "" ""; EvTimer 1; EvStop ].

(** The answers to the calls that were in flight then. *)
Definition trace_after_stop : list Event :=
  [ EvResponse 1 (RBlock (mkBlock 100 [])); EvResponse 1 (RBlock (mkBlock 100 [tx2])) ].

(** Three reports of hash [0xabc], from two chains and two kinds, around a
    report of another hash. *)
Definition calls_abc : list (N * Info) :=
  [ (1%N, native_info tx1); (1%N, native_info tx2);
    (137%N, site_info tx1); (1%N, native_info tx1) ].

(** A custom chain has been given an endpoint. *)
Definition custom_configured : State := applyChains "999:https://y" init.

(** U+00A0, the no-break space, as its two UTF-8 bytes. *)
Definition nbsp : string := String "194" (String "160" "").

(** ** What the page shows

    The pieces of text [recordActivity] puts into a list item, and the test
    [importKey] makes on its input. *)

(** [s.slice(0, n)] *)
Definition slice_to (n : nat) (s : string) : string := String.substring 0 n s.

(** [s.slice(-n)] for a positive [n]: the last [n] characters, or all of [s]. *)
Definition slice_last (n : nat) (s : string) : string :=
  String.substring (String.length s - n) n s.

(** The character U+2026 of [short], here as its three UTF-8 bytes. *)
Definition ellipsis : string := String "226" (String "128" (String "166" "")).

(** [short(addr)] *)
Definition short (addr : option string) : string :=
  match addr with
  | Some a => if Js.nonempty a then slice_to 6 a +:+ ellipsis +:+ slice_last 4 a else ""
  | None => ""
  end.

(** The [cfg] of [recordActivity] is the configured entry or the literal
    [{ name, explorer:'' }], which has no [native] field. *)
Definition shownExplorer (s : State) (chainId : N) : string :=
  match getConfig s chainId with
  | Some cfg => cfg_explorer cfg
  | None => ""
  end.

Definition shownNative (s : State) (chainId : N) : option string :=
  match getConfig s chainId with
  | Some cfg => Some (cfg_native cfg)
  | None => None
  end.

(** [info.token || cfg.native || 'NATIVE'] *)
Definition tokenLabel (s : State) (chainId : N) (info : Info) : string :=
  default "NATIVE"
    (Js.or_else (Js.or_else (info_token info) (shownNative s chainId)) (Some "NATIVE")).

(** The [href] of the transaction link, [cfg.explorer] followed by the hash;
    an item without a hash has no link. *)
Definition txHref (s : State) (chainId : N) (info : Info) : option string :=
  match info_txHash info with
  | Some h => if Js.nonempty h then Some (shownExplorer s chainId +:+ h) else None
  | None => None
  end.

(** [raw.split(' ').length >= 12] in [importKey]: the input is handed to
    [Wallet.fromMnemonic], otherwise to [new Wallet]. *)
Definition is_phrase (raw : string) : bool :=
  (12 <=? length (Js.split_char " " raw))%nat.

(** How often the character [c] occurs in [s]. *)
Fixpoint count_char (c : ascii) (s : string) : nat :=
  match s with
  | EmptyString => 0%nat
  | String c' s' => if Ascii.eqb c' c then S (count_char c s') else count_char c s'
  end.

(** ** Further invariants *)

(** Every built-in object has an endpoint. *)
Definition InvB (s : State) : Prop :=
  forall k l, DEFAULT_CHAINS !! k = Some l ->
    exists d, objs s !! l = Some d /\ Js.truthy (cfg_rpc d) = true.

(** Every provider of the pool was opened on the endpoint its chain is
    configured with. *)
Definition InvS (s : State) : Prop :=
  forall k p, providers s !! k = Some p ->
    exists cfg, getConfig s k = Some cfg /\ cfg_rpc cfg = Some (prov_url p).

(** Running intervals and recorded poll handles are the same thing: each
    running interval is the handle of the monitor of the chain it polls,
    and each recorded handle is a running interval polling that chain. *)
Definition InvK (s : State) : Prop :=
  (forall t, t ∈ timers s ->
     (t < nextTimer s)%nat /\
     exists p m, pollers s !! t = Some p /\ monitors s !! p_chainId p = Some m /\
       pollHandle m = Some t) /\
  (forall c m t, monitors s !! c = Some m -> pollHandle m = Some t ->
     t ∈ timers s /\ exists p, pollers s !! t = Some p /\ p_chainId p = c).

(** What the panel lists, as chain and record. *)
Definition panel (s : State) : list (N * Info) :=
  map (fun d => (d_chainId d, d_tx d)) (activity s).

(** The panel lists the latest messages of the sink, in the same order. *)
Definition InvV (s : State) : Prop :=
  exists older, posted s = panel s ++ older.

(** A body waiting for [decimals()] in the history loop holds a log that
    has parsed. *)
Definition task_ok (T : Task) : Prop :=
  match T with
  | TSubDecimals _ _ log _ => is_Some (log_args log)
  | _ => True
  end.

Definition InvW (s : State) : Prop := Forall task_ok (tasks s).

(** What every step of the page guarantees: the seen-set and the sink only
    grow, and the invariants above are kept. *)
Record keeps (s s' : State) : Prop := mkKeeps {
  k_seen : seenTxs s ⊆ seenTxs s';
  k_posted : exists new, posted s' = new ++ posted s;
  k_InvK : InvK s -> InvK s';
  k_InvV : InvV s -> InvV s';
  k_InvW : InvW s -> InvW s';
  k_InvS : InvS s -> InvS s'
}.

(** The hash a message of the sink is filed under, if it has one. *)
Definition hash_of (ci : N * Info) : option string :=
  match info_txHash (snd ci) with
  | Some h => if Js.nonempty h then Some h else None
  | None => None
  end.

(** The non-empty hashes of the sink, newest first. *)
Definition sink_hashes (s : State) : list string := omap hash_of (posted s).
(** The records the history loop of [subscribeTokenTransfer] hands to
    [recordActivity] for the logs [logs], in their order: one for each log
    that parses, with the decimals its [decimals()] call was answered by. *)
Fixpoint history_calls (chainId : N) (tokenAddr : string) (logs : list Log) (ds : list Z)
  : list (N * Info) :=
  match logs with
  | [] => []
  | log :: rest =>
      match log_args log, ds with
      | Some (from, to, value), d :: ds' =>
          (chainId, mkInfo ERC20 (Some tokenAddr) (Some from) (Some to) (formatUnits value d)
                      (log_transactionHash log))
          :: history_calls chainId tokenAddr rest ds'
      | Some _, [] => []
      | None, _ => history_calls chainId tokenAddr rest ds
      end
  end.

(** The logs that parse. *)
Definition parsed_logs (logs : list Log) : list Log :=
  List.filter (fun log => match log_args log with Some _ => true | None => false end) logs.

(** The decimals an answer to [decimals()] stands for: 18 on a failure. *)
Definition decimals_or_18 (r : Response) : Z := default 18%Z (decimals_of r).

(** An answer a [decimals()] call can get. *)
Definition decimals_answer (r : Response) : Prop :=
  r = RReject \/ exists d, r = RNumber d.

(** ** Polling

    What the statements about the poll loop speak of. *)

(** The blocks the interval [t] has asked for and not got yet, in the order
    it asked for them. *)
Definition requested (t : TimerId) (s : State) : list Z :=
  omap (fun T => match T with
                 | TPollBlock t' b _ => if decide (t' = t) then Some b else None
                 | _ => None
                 end) (tasks s).

(** A body that does not wait for a block of the poll loop. *)
Definition not_fetch (T : Task) : Prop :=
  match T with TPollBlock _ _ _ => False | _ => True end.

(** A body of the poll loop waits for a block only once the watermark of
    its interval is set. *)
Definition fetch_set (s : State) (T : Task) : Prop :=
  match T with
  | TPollBlock t _ _ => is_Some (watermark s t)
  | _ => True
  end.

(** A body of the interval [t] that waits for a block waits for one from
    [B] on, in a tick that saw that block or a later one. *)
Definition fetch_from (t : TimerId) (B : Z) (T : Task) : Prop :=
  match T with
  | TPollBlock t' b latest => t' = t -> (B <= b <= latest)%Z
  | _ => True
  end.

(** Interval handles are not reused: every closure of the poll loop was
    created under a handle below the next one. *)
Definition InvN (s : State) : Prop :=
  forall t, is_Some (pollers s !! t) -> (t < nextTimer s)%nat.

Definition InvF (s : State) : Prop := Forall (fetch_set s) (tasks s).

(** The interval [t] polls from block [B] on: its watermark is at [B - 1]
    or above and the blocks it waits for are at [B] or above. *)
Definition polls_from (t : TimerId) (B : Z) (s : State) : Prop :=
  (exists w, watermark s t = Some w /\ (B - 1 <= w)%Z) /\
  Forall (fetch_from t B) (tasks s).

(** What a step keeps of the above. *)
Record poll_keeps (t : TimerId) (B : Z) (s s' : State) : Prop := mkPollKeeps {
  pk_InvN : InvN s -> InvN s';
  pk_InvF : InvN s -> InvF s -> InvF s';
  pk_from : InvN s -> polls_from t B s -> polls_from t B s'
}.

(** The pending calls of [s'] are those of [s] and new ones, none of which
    waits for a block of the poll loop. *)
Definition tasks_grow (s s' : State) : Prop :=
  exists new, tasks s' = tasks s ++ new /\ Forall not_fetch new.

(** The second tick is answered while the block the first one asked for is
    still on its way. *)
Definition trace_overlap : list Event :=
  [ EvTimer 1; EvResponse 1 (RBlock (mkBlock 100 [tx1]));
    EvTimer 1; EvResponse 2 (RBlock (mkBlock 101 [])) ].

(** * Properties *)

(** ** The embedding on concrete inputs *)

Example trim_spaces : Js.trim "  137 : x  " = "137 : x".
Proof. reflexivity. Qed.

Example split_on_separators :
  Js.split_runs is_sep ",a,,b," = [""; "a"; "b"; ""] /\ Js.split_runs is_sep "" = [""].
Proof. split; reflexivity. Qed.

Example split_on_colon : Js.split_char ":" "137:https://x" = ["137"; "https"; "//x"].
Proof. reflexivity. Qed.

Example number_of_digits : Js.Number "0137" = 137%N /\ Js.toString 137 = "137".
Proof. split; reflexivity. Qed.

Example trim_no_break_space :
  Js.trim (nbsp +:+ " 137 " +:+ nbsp) = "137" /\ Js.trim (nbsp +:+ " " +:+ nbsp) = "" /\
  Js.trim ("a" +:+ nbsp +:+ "b") = "a" +:+ nbsp +:+ "b".
Proof. repeat split; reflexivity. Qed.

Example number_rounds_to_double :
  Js.Number "9007199254740992" = 9007199254740992%N /\
  Js.Number "9007199254740993" = 9007199254740992%N /\
  Js.Number "9007199254740995" = 9007199254740996%N /\
  Js.Number ("1" +:+ Js.zeros 309) = Js.infinity.
Proof. repeat split; vm_compute; reflexivity. Qed.

Example string_of_large_number :
  Js.toString (2 ^ 53) = "9007199254740992" /\
  Js.toString (2 ^ 60) = "1152921504606847000" /\
  Js.toString (10 ^ 21) = "1e+21" /\
  Js.toString (2 ^ 70) = "1.1805916207174113e+21" /\
  Js.toString (Js.Number "100000000000000000000000") = "1e+23" /\
  Js.toString Js.infinity = "Infinity".
Proof. repeat split; vm_compute; reflexivity. Qed.

Example items_of_input :
  parts_of "1, 5:https://r ,, abc" = ["1"; "5:https://r"; "abc"].
Proof. reflexivity. Qed.

Example custom_chain_applied :
  getConfig (applyChains "abc, 999:https://y" init) 999 =
  Some (mkChain 999 "Chain 999" (Some "https://y") "" "").
Proof. vm_compute. reflexivity. Qed.

Example item_with_no_break_spaces :
  getConfig (applyChains (nbsp +:+ "137" +:+ nbsp +:+ ":https://x" +:+ nbsp) init) 137 =
  Some (mkChain 137 "Polygon" (Some "https://x") "https://polygonscan.com/tx/" "MATIC") /\
  applyChains (nbsp +:+ " " +:+ nbsp) init = init.
Proof. split; vm_compute; reflexivity. Qed.

Example chain_id_beyond_exact_integers :
  getConfig (applyChains "9007199254740993" init) 9007199254740992 =
  Some (mkChain 9007199254740992 "Chain 9007199254740992" None "" "") /\
  getConfig (applyChains "9007199254740993" init) 9007199254740993 = None /\
  cfg_name <$> getConfig (applyChains "1000000000000000000000" init) (10 ^ 21) =
  Some "Chain 1e+21".
Proof. repeat split; vm_compute; reflexivity. Qed.

Example custom_chain_without_endpoint :
  getConfig (applyChains "2" init) 2 = Some (mkChain 2 "Chain 2" None "" "") /\
  fst (ensureProvider 2 (applyChains "2" init)) = Throw "No RPC configured for chain 2".
Proof. split; vm_compute; reflexivity. Qed.

Example pool_reopened_after_apply :
  let s0 := set_wallet (Some wA) init in
  let s1 := snd (ensureProvider 137 s0) in
  fst (ensureProvider 137 s0) = Ok (mkProvider 0 "https://polygon-rpc.com") /\
  fst (ensureProvider 137 s1) = Ok (mkProvider 0 "https://polygon-rpc.com") /\
  map_to_list (providers (applyChains "999:https://y" s1)) =
    [(1%N, mkProvider 1 "https://cloudflare-eth.com")] /\
  fst (ensureProvider 137 (applyChains "999:https://y" s1)) =
    Ok (mkProvider 2 "https://polygon-rpc.com").
Proof. repeat split; vm_compute; reflexivity. Qed.

Example site_payment_sink :
  posted <$> run init trace_site_payment = Some [(1%N, native_info tx1)].
Proof. vm_compute. reflexivity. Qed.

(** ** Frames *)

Lemma sink_only_refl s : sink_only s s.
Proof. by constructor. Qed.

Lemma sink_only_trans s1 s2 s3 : sink_only s1 s2 -> sink_only s2 s3 -> sink_only s1 s3.
Proof. intros [] []. constructor; congruence. Qed.

Lemma recordActivity_sink_only c i s : sink_only s (recordActivity c i s).
Proof.
  unfold recordActivity.
  destruct (Js.truthy (info_txHash i) && seen (info_txHash i) s); [apply sink_only_refl|].
  destruct (info_txHash i) as [x|]; [destruct (Js.nonempty x)|]; by constructor.
Qed.

Lemma scan_tx_sink_only c site tx s s' :
  scan_tx c site tx s = Some s' -> sink_only s s'.
Proof.
  unfold scan_tx. intros H.
  destruct (to_wallet tx s) as [native|]; [|done].
  assert (H1 : sink_only s
            (if native then recordActivity c
               (mkInfo Native None (tx_from tx) (tx_to tx) (formatEther (tx_value tx)) (tx_hash tx)) s
             else s)).
  { destruct native; [apply recordActivity_sink_only | apply sink_only_refl]. }
  destruct (from_site site tx).
  - destruct (to_wallet tx _) as [[]|]; simplify_eq; [|done].
    eapply sink_only_trans; [exact H1 | apply recordActivity_sink_only].
  - by simplify_eq.
Qed.

Lemma scan_txs_sink_only c site txs s : sink_only s (scan_txs c site txs s).
Proof.
  revert s. induction txs as [|tx txs IH]; intros s; simpl; [apply sink_only_refl|].
  destruct (scan_tx c site tx s) as [s'|] eqn:E; [|apply sink_only_refl].
  eapply sink_only_trans; [by eapply scan_tx_sink_only | apply IH].
Qed.

Lemma pool_only_refl s : pool_only s s.
Proof. by constructor. Qed.

Lemma pool_only_trans s1 s2 s3 : pool_only s1 s2 -> pool_only s2 s3 -> pool_only s1 s3.
Proof. intros [] []. constructor; congruence. Qed.

Lemma listeners_only_refl s : listeners_only s s.
Proof. by constructor. Qed.

Lemma listeners_only_trans s1 s2 s3 :
  listeners_only s1 s2 -> listeners_only s2 s3 -> listeners_only s1 s3.
Proof. intros [] []. constructor; congruence. Qed.

Lemma pool_grows_refl s : pool_grows s s.
Proof. by repeat split. Qed.

Lemma pool_grows_trans s1 s2 s3 : pool_grows s1 s2 -> pool_grows s2 s3 -> pool_grows s1 s3.
Proof.
  intros (Hn1 & Hm1 & Hi1) (Hn2 & Hm2 & Hi2). split; [lia|]. split.
  - intros k p H. by apply Hm2, Hm1.
  - intros HI. by apply Hi2, Hi1.
Qed.

Lemma quiet_step_refl s : quiet_step s s.
Proof. repeat split; auto. Qed.

Lemma quiet_step_trans s1 s2 s3 : quiet_step s1 s2 -> quiet_step s2 s3 -> quiet_step s1 s3.
Proof.
  intros (?&?&?&Hp1&?&?) (?&?&?&Hp2&?&?).
  split; [congruence|]. split; [congruence|]. split; [congruence|].
  split; [by eapply pool_grows_trans|]. split; auto.
Qed.

Lemma sink_only_quiet s s' : sink_only s s' -> quiet_step s s'.
Proof.
  intros []. unfold quiet_step, pool_grows, InvP, InvL, InvT.
  rewrite so_objs0, so_nextLoc0, so_configuredChains0, so_providers0, so_nextProvider0,
    so_listeners0, so_nextListener0, so_timers0, so_monitors0.
  repeat split; auto.
Qed.

Lemma pool_only_quiet s s' : pool_only s s' -> pool_grows s s' -> quiet_step s s'.
Proof.
  intros [] Hg. unfold quiet_step, InvL, InvT.
  rewrite po_objs0, po_nextLoc0, po_configuredChains0,
    po_listeners0, po_nextListener0, po_timers0, po_monitors0.
  split; [done|]. split; [done|]. split; [done|]. split; [exact Hg|]. split; auto.
Qed.

Lemma quiet_step_Inv s s' : quiet_step s s' -> Inv s -> Inv s'.
Proof.
  intros (Ho & Hn & Hc & (_ & _ & Hp) & HL & HT) (HR & HP & HL' & HT').
  unfold Inv. rewrite Ho, Hn, Hc. split; [done|]. split; [by apply Hp|]. auto.
Qed.

Lemma set_tasks_id s : set_tasks (tasks s) s = s.
Proof. by destruct s. Qed.

Lemma set_objs_id s : set_nextLoc (nextLoc s) (set_objs (objs s) s) = s.
Proof. by destruct s. Qed.

Ltac same_pool := unfold pool_grows, InvP; simpl; repeat split; auto.

(** ** The seen-set *)

Lemma recordActivity_seen c i h s :
  info_txHash i = Some h -> Js.nonempty h = true -> h ∈ seenTxs s ->
  recordActivity c i s = s.
Proof.
  intros Hh Hne Hin. unfold recordActivity. rewrite Hh. simpl. rewrite Hne.
  rewrite bool_decide_eq_true_2 by done. reflexivity.
Qed.

Lemma recordActivity_first c i h s :
  info_txHash i = Some h -> Js.nonempty h = true -> h ∉ seenTxs s ->
  posted (recordActivity c i s) = (c, i) :: posted s /\
  seenTxs (recordActivity c i s) = {[h]} ∪ seenTxs s.
Proof.
  intros Hh Hne Hin. unfold recordActivity. rewrite Hh. simpl. rewrite Hne.
  rewrite bool_decide_eq_false_2 by done. simpl. done.
Qed.

Lemma recordActivity_seen_mono c i h s :
  h ∈ seenTxs s -> h ∈ seenTxs (recordActivity c i s).
Proof.
  intros Hin. unfold recordActivity.
  destruct (Js.truthy (info_txHash i) && seen (info_txHash i) s); [done|].
  destruct (info_txHash i) as [x|]; simpl; [|done].
  destruct (Js.nonempty x); simpl; [by apply elem_of_union_r | done].
Qed.

Lemma record_all_seen_mono calls h s :
  h ∈ seenTxs s -> h ∈ seenTxs (record_all calls s).
Proof.
  revert s. induction calls as [|[c i] calls IH]; intros s Hin; simpl; [done|].
  apply IH. by apply recordActivity_seen_mono.
Qed.

Lemma String_eqb_false_ne (x h : string) : String.eqb x h = false -> x ≠ h.
Proof. intros H E. subst x. by rewrite String.eqb_refl in H. Qed.

Lemma recordActivity_other c i h s :
  has_hash h (c, i) = false ->
  count_hash h (posted (recordActivity c i s)) = count_hash h (posted s) /\
  (h ∈ seenTxs (recordActivity c i s) <-> h ∈ seenTxs s).
Proof.
  intros Hno. unfold recordActivity.
  destruct (Js.truthy (info_txHash i) && seen (info_txHash i) s); [done|].
  unfold count_hash. simpl. rewrite Hno.
  unfold has_hash in Hno. simpl in Hno.
  destruct (info_txHash i) as [x|]; simpl; [|done].
  apply String_eqb_false_ne in Hno.
  destruct (Js.nonempty x); simpl; [|done].
  split; [done|]. rewrite elem_of_union, elem_of_singleton.
  split; [intros [E|?]; [by subst | done] | by right].
Qed.

Lemma record_all_other calls h s :
  Forall (fun ci => has_hash h ci = false) calls ->
  count_hash h (posted (record_all calls s)) = count_hash h (posted s) /\
  (h ∈ seenTxs (record_all calls s) <-> h ∈ seenTxs s).
Proof.
  intros HF. revert s. induction HF as [|[c i] calls Hci _ IH]; intros s; simpl; [done|].
  destruct (IH (recordActivity c i s)) as [-> ->].
  by apply recordActivity_other.
Qed.

Lemma record_all_app l1 l2 s :
  record_all (l1 ++ l2) s = record_all l2 (record_all l1 s).
Proof. unfold record_all. by rewrite fold_left_app. Qed.

Lemma first_occurrence h (calls : list (N * Info)) :
  Exists (fun ci => has_hash h ci = true) calls ->
  exists pre ci post, calls = pre ++ ci :: post /\ has_hash h ci = true /\
    Forall (fun x => has_hash h x = false) pre.
Proof.
  induction 1 as [ci l Hci | ci l _ IH].
  - exists [], ci, l. auto.
  - destruct (has_hash h ci) eqn:E.
    + exists [], ci, l. auto.
    + destruct IH as (pre & x & post & -> & Hx & Hpre).
      exists (ci :: pre), x, post. auto.
Qed.

Lemma has_hash_true h c i :
  has_hash h (c, i) = true <-> info_txHash i = Some h.
Proof.
  unfold has_hash. simpl. destruct (info_txHash i) as [x|]; [|done].
  rewrite String.eqb_eq. split; congruence.
Qed.

Lemma record_all_seen_same calls h s :
  Js.nonempty h = true -> h ∈ seenTxs s ->
  count_hash h (posted (record_all calls s)) = count_hash h (posted s).
Proof.
  intros Hne. revert s.
  induction calls as [|[c' i'] calls IH]; intros s Hin; simpl; [done|].
  rewrite IH by by apply recordActivity_seen_mono.
  destruct (has_hash h (c', i')) eqn:E.
  - apply has_hash_true in E. by rewrite (recordActivity_seen c' i' h s).
  - by apply recordActivity_other.
Qed.

Lemma recordActivity_nohash c i s :
  Js.truthy (info_txHash i) = false ->
  posted (recordActivity c i s) = (c, i) :: posted s.
Proof.
  intros H. unfold recordActivity. rewrite H. simpl.
  destruct (info_txHash i) as [x|]; [|done].
  simpl in H. by rewrite H.
Qed.

(** C5.  In any sequence of [recordActivity] calls, from any chains and
    callbacks, in which a non-empty hash [h] not yet in the seen-set occurs:
    the first call carrying [h] is forwarded to the sink, every later call
    carrying [h] leaves the whole state as it is, and the sink has gained
    exactly one event with hash [h] at the end. *)
Theorem dedup_exactly_once (calls : list (N * Info)) (s : State) (h : string) :
  Js.nonempty h = true ->
  h ∉ seenTxs s ->
  Exists (fun ci => has_hash h ci = true) calls ->
  exists pre c i post,
    calls = pre ++ (c, i) :: post /\
    info_txHash i = Some h /\
    Forall (fun x => has_hash h x = false) pre /\
    posted (recordActivity c i (record_all pre s)) = (c, i) :: posted (record_all pre s) /\
    (forall post1 c' i' post2,
        post = post1 ++ (c', i') :: post2 -> info_txHash i' = Some h ->
        recordActivity c' i' (record_all (pre ++ (c, i) :: post1) s)
        = record_all (pre ++ (c, i) :: post1) s) /\
    count_hash h (posted (record_all calls s)) = S (count_hash h (posted s)).
Proof.
  intros Hne Hfresh Hex.
  destruct (first_occurrence h calls Hex) as (pre & [c i] & post & -> & Hci & Hpre).
  apply has_hash_true in Hci.
  destruct (record_all_other pre h s Hpre) as [Hcnt Hseen].
  assert (Hfresh' : h ∉ seenTxs (record_all pre s)) by (by rewrite Hseen).
  destruct (recordActivity_first c i h _ Hci Hne Hfresh') as [Hpost Hs].
  exists pre, c, i, post. repeat split; try done.
  - intros post1 c' i' post2 _ Hh'.
    apply (recordActivity_seen c' i' h); [done..|].
    rewrite record_all_app. simpl. apply record_all_seen_mono. rewrite Hs.
    by apply elem_of_union_l, elem_of_singleton.
  - rewrite record_all_app. simpl.
    rewrite (record_all_seen_same post h) by (try done; rewrite Hs; by apply elem_of_union_l, elem_of_singleton).
    rewrite Hpost. unfold count_hash at 1. simpl.
    rewrite (proj2 (has_hash_true h c i) Hci). simpl. f_equal. apply Hcnt.
Qed.

Lemma dedup_exactly_once_witness :
  count_hash "0xabc" (posted (record_all calls_abc init)) = 1%nat.
Proof.
  destruct (dedup_exactly_once calls_abc init "0xabc") as (pre & c & i & post & H);
    [reflexivity | apply not_elem_of_empty | by left |].
  exact (proj2 (proj2 (proj2 (proj2 (proj2 H))))).
Defined.

(** ** A transaction matching both rules of the poller *)

Lemma to_wallet_recordActivity tx c i s :
  to_wallet tx (recordActivity c i s) = to_wallet tx s.
Proof.
  unfold to_wallet, recordActivity.
  destruct (Js.truthy (info_txHash i) && seen (info_txHash i) s); [done|].
  destruct (info_txHash i) as [x|]; [destruct (Js.nonempty x)|]; done.
Qed.

(** C1, as the code has it.  For a transaction to the watched address from
    the configured site address the poller calls [recordActivity] for the
    Native kind and then for the SitePayment kind.  The seen-set is keyed by
    the transaction hash alone, so with a non-empty hash at most one event
    reaches the sink: the Native one if the hash is new, none if it was seen.
    Both reach the sink only when the transaction carries no hash. *)
Theorem site_payment_shares_hash_key (chainId : N) (siteAddr : option string) (tx : Tx)
    (s : State) :
  to_wallet tx s = Some true ->
  from_site siteAddr tx = true ->
  exists s',
    scan_tx chainId siteAddr tx s = Some s' /\
    s' = recordActivity chainId (site_info tx) (recordActivity chainId (native_info tx) s) /\
    match tx_hash tx with
    | Some h =>
        if Js.nonempty h then
          if bool_decide (h ∈ seenTxs s) then s' = s
          else posted s' = (chainId, native_info tx) :: posted s
        else posted s' = (chainId, site_info tx) :: (chainId, native_info tx) :: posted s
    | None => posted s' = (chainId, site_info tx) :: (chainId, native_info tx) :: posted s
    end.
Proof.
  intros Hto Hfrom. unfold scan_tx. rewrite Hto, Hfrom.
  fold (native_info tx). fold (site_info tx).
  rewrite to_wallet_recordActivity, Hto.
  eexists. split; [reflexivity|]. split; [reflexivity|].
  destruct (tx_hash tx) as [h|] eqn:Hh.
  - destruct (Js.nonempty h) eqn:Hne.
    + case_bool_decide as Hin.
      * rewrite (recordActivity_seen chainId (native_info tx) h s) by done.
        by rewrite (recordActivity_seen chainId (site_info tx) h s).
      * destruct (recordActivity_first chainId (native_info tx) h s) as [Hp Hs]; [done..|].
        rewrite (recordActivity_seen chainId (site_info tx) h); [done..|].
        rewrite Hs. by apply elem_of_union_l, elem_of_singleton.
    + rewrite !recordActivity_nohash; [done|..]; simpl; rewrite Hh; simpl; by rewrite Hne.
  - rewrite !recordActivity_nohash; [done|..]; simpl; by rewrite Hh.
Qed.

Lemma site_payment_shares_hash_key_witness :
  exists s', scan_tx 1 (Some siteA) tx1 (set_wallet (Some wA) init) = Some s' /\
    posted s' = [(1%N, native_info tx1)].
Proof.
  destruct (site_payment_shares_hash_key 1 (Some siteA) tx1 (set_wallet (Some wA) init))
    as (s' & Hscan & _ & Hpost); [reflexivity | reflexivity |].
  exists s'. split; [exact Hscan | exact Hpost].
Defined.

(** C1, as the specification words it, fails: after the monitor has scanned
    the block holding [tx1], which goes to the watched address and comes
    from the site address, the sink holds the Native event and no
    SitePayment event. *)
Lemma site_payment_not_delivered :
  exists s, run init trace_site_payment = Some s /\
    to_wallet tx1 s = Some true /\ from_site (Some siteA) tx1 = true /\
    ~ (delivered Native tx1 s /\ delivered SitePayment tx1 s).
Proof.
  eexists. split; [vm_compute; reflexivity|].
  split; [reflexivity|]. split; [reflexivity|].
  intros [_ (c & i & Hin & Hk & _)].
  apply list_elem_of_singleton in Hin. inversion Hin; subst. discriminate Hk.
Qed.

(** ** The watermark of a poller *)

Lemma watermark_set_polledBlock t v s :
  is_Some (pollers s !! t) -> watermark (set_polledBlock t v s) t = Some v.
Proof.
  intros [p Hp]. unfold watermark, set_polledBlock. simpl.
  rewrite lookup_alter_eq, Hp. reflexivity.
Qed.

Lemma step_response_last T r s :
  step (spawn T s) (EvResponse (length (tasks s)) r) = resume T r s.
Proof.
  simpl. rewrite list_lookup_middle by done.
  rewrite (delete_middle (tasks s) [] T), app_nil_r.
  by destruct s.
Qed.

Lemma step_response_at T r ts s :
  tasks s = ts ++ [T] ->
  step s (EvResponse (length ts) r) = resume T r (set_tasks ts s).
Proof.
  intros H. simpl. rewrite H, list_lookup_middle by done.
  by rewrite (delete_middle ts [] T), app_nil_r.
Qed.

(** A tick up to the answer to its request for the latest block. *)
Lemma tick_latest t p L txs s :
  t ∈ timers s -> pollers s !! t = Some p ->
  let w := default (L - 1)%Z (polledBlock p) in
  run s [EvTimer t; EvResponse (length (tasks s)) (RBlock (mkBlock L txs))] =
  Some (if (L <=? w)%Z then set_polledBlock t w s
        else spawn (TPollBlock t (w + 1) L) (set_polledBlock t w s)).
Proof.
  intros Ht Hp w. unfold run.
  change (step s (EvTimer t)) with
    (if bool_decide (t ∈ timers s) then Some (spawn (TPollLatest t) s) else None).
  rewrite bool_decide_eq_true_2 by done.
  rewrite step_response_last. simpl. rewrite Hp. subst w.
  destruct (polledBlock p); simpl; by destruct (_ <=? _)%Z.
Qed.

(** The answer to the fetch of block [b] in a tick that saw [L]. *)
Lemma block_done t p b L r ts s :
  pollers s !! t = Some p -> tasks s = ts ++ [TPollBlock t b L] -> block_answer r ->
  exists s2,
    run s [EvResponse (length ts) r] = Some s2 /\
    timers s2 = timers s /\ is_Some (pollers s2 !! t) /\
    if (b + 1 <=? L)%Z
    then tasks s2 = ts ++ [TPollBlock t (b + 1) L] /\ watermark s2 t = watermark s t
    else tasks s2 = ts /\ watermark s2 t = Some L.
Proof.
  intros Hp Hts Hr. unfold run. rewrite (step_response_at _ r ts s Hts).
  set (s0 := set_tasks ts s).
  assert (exists sa, resume (TPollBlock t b L) r s0 = Some (poll_next t b L sa) /\
            sink_only s0 sa) as (sa & -> & Hso).
  { destruct Hr as [-> | [full ->]]; simpl.
    - exists s0. split; [done | apply sink_only_refl].
    - subst s0. simpl. rewrite Hp. eexists. split; [reflexivity|].
      apply scan_txs_sink_only. }
  eexists. split; [reflexivity|].
  destruct Hso. subst s0. simpl in *.
  unfold poll_next, watermark.
  destruct (b + 1 <=? L)%Z; simpl.
  - rewrite so_timers0, so_pollers0, so_tasks0, Hp. eauto.
  - rewrite so_timers0, so_pollers0, so_tasks0, lookup_alter_eq, Hp. simpl. eauto.
Qed.

(** Ticks that take their turn.  A poller whose ticks have not yet seen a
    block sets its watermark to [L - 1] on the tick that sees latest block
    [L] and asks for block [L].  Once that fetch is answered the watermark
    is [L] and nothing of the tick is pending.  A tick that then still sees
    [L] asks for nothing; the tick that sees [L + 1] asks for block [L + 1],
    after which the watermark is [L + 1]. *)
Lemma ticks_in_turn (t : TimerId) (p : Poller) (L : Z) (txs : list Tx)
    (s : State) :
  t ∈ timers s -> pollers s !! t = Some p -> polledBlock p = None ->
  let n := length (tasks s) in
  exists s1,
    run s [EvTimer t; EvResponse n (RBlock (mkBlock L txs))] = Some s1 /\
    watermark s1 t = Some (L - 1)%Z /\
    tasks s1 = tasks s ++ [TPollBlock t L L] /\
    posted s1 = posted s /\
    forall r, block_answer r ->
      exists s2,
        run s1 [EvResponse n r] = Some s2 /\
        watermark s2 t = Some L /\ tasks s2 = tasks s /\
        (forall txs', exists s3,
            run s2 [EvTimer t; EvResponse n (RBlock (mkBlock L txs'))] = Some s3 /\
            tasks s3 = tasks s /\ watermark s3 t = Some L /\ posted s3 = posted s2) /\
        (forall txs', exists s3,
            run s2 [EvTimer t; EvResponse n (RBlock (mkBlock (L + 1) txs'))] = Some s3 /\
            tasks s3 = tasks s ++ [TPollBlock t (L + 1) (L + 1)] /\
            forall r', block_answer r' ->
              exists s4, run s3 [EvResponse n r'] = Some s4 /\
                watermark s4 t = Some (L + 1)%Z /\ tasks s4 = tasks s).
Proof.
  intros Ht Hp Hnone n.
  pose proof (tick_latest t p L txs s Ht Hp) as H1. simpl in H1.
  rewrite Hnone in H1. simpl in H1.
  replace (L <=? L - 1)%Z with false in H1 by lia.
  replace (L - 1 + 1)%Z with L in H1 by lia.
  eexists. split; [exact H1|].
  split; [apply watermark_set_polledBlock; eauto|].
  split; [reflexivity|]. split; [reflexivity|].
  intros r Hr.
  set (s1 := spawn (TPollBlock t L L) (set_polledBlock t (L - 1) s)).
  assert (Hp1 : pollers s1 !! t = Some (mkPoller (p_chainId p) (p_siteAddr p) (Some (L - 1)%Z))).
  { subst s1. simpl. by rewrite lookup_alter_eq, Hp. }
  destruct (block_done t _ L L r (tasks s) s1 Hp1 eq_refl Hr) as (s2 & Hrun2 & Htm2 & [p2 Hp2] & H2).
  replace (L + 1 <=? L)%Z with false in H2 by lia. destruct H2 as [Hts2 Hw2].
  exists s2. split; [exact Hrun2|]. split; [exact Hw2|]. split; [exact Hts2|].
  assert (Ht2 : t ∈ timers s2) by (by rewrite Htm2).
  assert (Hpb2 : polledBlock p2 = Some L).
  { unfold watermark in Hw2. by rewrite Hp2 in Hw2. }
  split.
  - intros txs'.
    pose proof (tick_latest t p2 L txs' s2 Ht2 Hp2) as H3. simpl in H3.
    rewrite Hpb2 in H3. simpl in H3. rewrite Z.leb_refl in H3.
    subst n. rewrite <- Hts2.
    eexists. split; [exact H3|]. simpl.
    split; [done|]. split; [|done].
    apply watermark_set_polledBlock. eauto.
  - intros txs'.
    pose proof (tick_latest t p2 (L + 1) txs' s2 Ht2 Hp2) as H3. simpl in H3.
    rewrite Hpb2 in H3. simpl in H3.
    replace (L + 1 <=? L)%Z with false in H3 by lia.
    subst n. rewrite <- Hts2.
    eexists. split; [exact H3|]. split; [reflexivity|].
    intros r' Hr'.
    set (s3 := spawn (TPollBlock t (L + 1) (L + 1)) (set_polledBlock t L s2)).
    assert (Hp3 : pollers s3 !! t = Some (mkPoller (p_chainId p2) (p_siteAddr p2) (Some L))).
    { subst s3. simpl. by rewrite lookup_alter_eq, Hp2. }
    destruct (block_done t _ (L + 1) (L + 1) r' (tasks s2) s3 Hp3 eq_refl Hr')
      as (s4 & Hrun4 & _ & _ & H4).
    replace (L + 1 + 1 <=? L + 1)%Z with false in H4 by lia.
    exists s4. split; [exact Hrun4|]. destruct H4 as [-> ->]. done.
Qed.

(** ** Parsing a chains input *)

Lemma same_fixed_refl c : same_fixed c c.
Proof. by repeat split. Qed.

Lemma same_fixed_sym c d : same_fixed c d -> same_fixed d c.
Proof. unfold same_fixed. intros (?&?&?&?). by repeat split. Qed.

Lemma same_fixed_trans a b c : same_fixed a b -> same_fixed b c -> same_fixed a c.
Proof. unfold same_fixed. intros (?&?&?&?) (?&?&?&?). repeat split; congruence. Qed.

Lemma heap_step_refl s : heap_step s s.
Proof.
  split; [|split].
  - exists (objs s), (nextLoc s). by rewrite set_objs_id.
  - done.
  - intros l c _ H. exists c. split; [done | apply same_fixed_refl].
Qed.

Lemma heap_step_trans s1 s2 s3 : heap_step s1 s2 -> heap_step s2 s3 -> heap_step s1 s3.
Proof.
  intros ((o & n & ->) & Hn1 & H1) ((o' & n' & ->) & Hn2 & H2).
  split; [|split].
  - exists o', n'. by destruct s1.
  - simpl in *. lia.
  - intros l c Hl Hc. destruct (H1 l c Hl Hc) as (c1 & Hc1 & Hf1).
    destruct (H2 l c1) as (c2 & Hc2 & Hf2); [simpl in *; lia | done |].
    exists c2. split; [done|]. by eapply same_fixed_trans.
Qed.

Lemma map_ok_heap_step s s' m :
  heap_step s s' -> map_ok (objs s) (nextLoc s) m -> map_ok (objs s') (nextLoc s') m.
Proof.
  intros (_ & Hn & H) Hm k l Hk.
  destruct (Hm k l Hk) as (Hl & c & Hc & Hf).
  destruct (H l c Hl Hc) as (c' & Hc' & Hf').
  split; [lia|]. exists c'. split; [done|]. by eapply same_fixed_trans.
Qed.

Lemma map_ok_empty o n : map_ok o n ∅.
Proof. intros k l H. by rewrite lookup_empty in H. Qed.

Lemma parse_item_malformed p acc : well_formed p = false -> parse_item p acc = acc.
Proof.
  unfold well_formed, parse_item. destruct acc as [result s].
  destruct (Js.split_char ":" p) as [|left_ rest]; [done|].
  by intros ->.
Qed.

(** What [parse_item] does on a well-formed item. *)
Lemma parse_item_well_formed p result s :
  well_formed p = true ->
  let k := item_id p in
  let rest := tail (Js.split_char ":" p) in
  let dflt := deref s DEFAULT_CHAINS k in
  let rpc := match rest with
             | [] => match dflt with Some (_, d) => cfg_rpc d | None => None end
             | _ => Some (Js.trim (Js.join ":" rest))
             end in
  let meta := match dflt with
              | Some (_, d) =>
                  mkChain (cfg_id d) (cfg_name d)
                    (Js.or_else (Js.or_else rpc (cfg_rpc d)) None)
                    (cfg_explorer d) (cfg_native d)
              | None =>
                  mkChain k ("Chain " +:+ Js.toString k)
                    (Js.or_else (Js.or_else rpc (Js.or_else rpc None)) None) "" ""
              end in
  let o1 := match dflt with
            | Some (l, _) => <[l := meta]> (objs s)
            | None => objs s
            end in
  parse_item p (result, s) =
  (<[k := nextLoc s]> result,
   set_nextLoc (S (nextLoc s)) (set_objs (<[nextLoc s := meta]> o1) s)).
Proof.
  unfold well_formed, item_id, parse_item.
  destruct (Js.split_char ":" p) as [|left_ rest]; [done|].
  intros ->. simpl.
  destruct (deref s DEFAULT_CHAINS (Js.Number (Js.trim left_))) as [[l d]|]; [|by destruct s].
  destruct s; reflexivity.
Qed.

Lemma deref_Some s m k l c :
  deref s m k = Some (l, c) <-> m !! k = Some l /\ objs s !! l = Some c.
Proof.
  unfold deref. split.
  - intros H. destruct (m !! k) as [l'|]; [|done].
    destruct (objs s !! l') as [c'|] eqn:E; [|done]. by simplify_eq.
  - intros [-> H]. by rewrite H.
Qed.

Lemma deref_None_default s k :
  map_ok (objs s) (nextLoc s) DEFAULT_CHAINS ->
  deref s DEFAULT_CHAINS k = None -> DEFAULT_CHAINS !! k = None.
Proof.
  intros Hm. unfold deref. destruct (DEFAULT_CHAINS !! k) as [l|] eqn:E; [|done].
  destruct (Hm k l E) as (_ & c & -> & _). done.
Qed.

Lemma parse_item_ok p result s result' s' :
  map_ok (objs s) (nextLoc s) DEFAULT_CHAINS ->
  map_ok (objs s) (nextLoc s) result ->
  parse_item p (result, s) = (result', s') ->
  heap_step s s' /\ map_ok (objs s') (nextLoc s') result' /\
  (forall k, is_Some (result !! k) -> is_Some (result' !! k)).
Proof.
  intros HD Hres Hp.
  destruct (well_formed p) eqn:Hwf.
  2:{ rewrite parse_item_malformed in Hp by done. simplify_eq.
      split; [apply heap_step_refl | done]. }
  rewrite parse_item_well_formed in Hp by done.
  set (k := item_id p) in *.
  destruct (deref s DEFAULT_CHAINS k) as [[l d]|] eqn:Hd; simplify_eq.
  - apply deref_Some in Hd as [Hk Hl].
    destruct (HD k l Hk) as (Hlt & d' & Hd' & Hfix). simplify_eq.
    match goal with |- heap_step _ (set_nextLoc _ (set_objs (<[_ := ?m]> _) _)) /\ _ =>
      set (meta := m) end.
    assert (Hmeta : same_fixed meta d) by (by repeat split).
    assert (Hstep : heap_step s
              (set_nextLoc (S (nextLoc s))
                 (set_objs (<[nextLoc s := meta]> (<[l := meta]> (objs s))) s))).
    { split; [eauto|]. split; [simpl; lia|]. simpl. intros l0 c Hl0 Hc.
      rewrite lookup_insert_ne by lia.
      destruct (decide (l = l0)) as [->|Hne].
      - rewrite lookup_insert_eq. exists meta. split; [done|]. by simplify_eq.
      - rewrite lookup_insert_ne by done. exists c. split; [done | apply same_fixed_refl]. }
    split; [exact Hstep|]. split.
    + intros k' l' Hk'. destruct (decide (k = k')) as [<-|Hne].
      * rewrite lookup_insert_eq in Hk'. simplify_eq. simpl. split; [lia|].
        exists meta. rewrite lookup_insert_eq. split; [done|].
        by eapply same_fixed_trans.
      * rewrite lookup_insert_ne in Hk' by done.
        by apply (map_ok_heap_step s _ result Hstep Hres).
    + intros k' Hk'. destruct (decide (k = k')) as [<-|Hne].
      * rewrite lookup_insert_eq. eauto.
      * by rewrite lookup_insert_ne.
  - apply deref_None_default in Hd; [|done].
    match goal with |- heap_step _ (set_nextLoc _ (set_objs (<[_ := ?m]> _) _)) /\ _ =>
      set (meta := m) end.
    assert (Hmeta : same_fixed meta (canon k)).
    { unfold canon. rewrite Hd. by repeat split. }
    assert (Hstep : heap_step s
              (set_nextLoc (S (nextLoc s)) (set_objs (<[nextLoc s := meta]> (objs s)) s))).
    { split; [eauto|]. split; [simpl; lia|]. simpl. intros l0 c Hl0 Hc.
      rewrite lookup_insert_ne by lia. exists c. split; [done | apply same_fixed_refl]. }
    split; [exact Hstep|]. split.
    + intros k' l' Hk'. destruct (decide (k = k')) as [<-|Hne].
      * rewrite lookup_insert_eq in Hk'. simplify_eq. simpl. split; [lia|].
        exists meta. by rewrite lookup_insert_eq.
      * rewrite lookup_insert_ne in Hk' by done.
        by apply (map_ok_heap_step s _ result Hstep Hres).
    + intros k' Hk'. destruct (decide (k = k')) as [<-|Hne].
      * rewrite lookup_insert_eq. eauto.
      * by rewrite lookup_insert_ne.
Qed.

Lemma parse_items_ok parts result s result' s' :
  map_ok (objs s) (nextLoc s) DEFAULT_CHAINS ->
  map_ok (objs s) (nextLoc s) result ->
  parse_items parts (result, s) = (result', s') ->
  heap_step s s' /\ map_ok (objs s') (nextLoc s') result' /\
  (forall k, is_Some (result !! k) -> is_Some (result' !! k)).
Proof.
  revert result s. induction parts as [|p parts IH]; intros result s HD Hres Hp.
  - simpl in Hp. simplify_eq. split; [apply heap_step_refl | done].
  - simpl in Hp. destruct (parse_item p (result, s)) as [r1 s1] eqn:E.
    destruct (parse_item_ok p result s r1 s1 HD Hres E) as (Hs1 & Hr1 & Hd1).
    destruct (IH r1 s1 (map_ok_heap_step _ _ _ Hs1 HD) Hr1 Hp) as (Hs2 & Hr2 & Hd2).
    split; [by eapply heap_step_trans|]. split; [done|]. auto.
Qed.

Lemma parse_item_shape p result s result' s' :
  parse_item p (result, s) = (result', s') ->
  exists o n, s' = set_nextLoc n (set_objs o s).
Proof.
  destruct (well_formed p) eqn:Hwf.
  - rewrite parse_item_well_formed by done. intros H.
    assert (s' = (parse_item p (result, s)).2) as ->
      by (rewrite parse_item_well_formed by done; simpl; congruence).
    rewrite parse_item_well_formed by done. simpl. eauto.
  - rewrite parse_item_malformed by done. intros H.
    assert (s' = s) as -> by congruence.
    exists (objs s), (nextLoc s). by rewrite set_objs_id.
Qed.

Lemma parse_items_ok' parts result s result' s' :
  parse_items parts (result, s) = (result', s') ->
  exists o n, s' = set_nextLoc n (set_objs o s).
Proof.
  revert result s. induction parts as [|p parts IH]; intros result s H.
  - simpl in H. assert (s' = s) as -> by congruence.
    exists (objs s), (nextLoc s). by rewrite set_objs_id.
  - simpl in H. destruct (parse_item p (result, s)) as [r1 s1] eqn:E.
    destruct (parse_item_shape _ _ _ _ _ E) as (o1 & n1 & ->).
    destruct (IH _ _ H) as (o2 & n2 & ->). exists o2, n2. by destruct s.
Qed.

Lemma parse_items_filter parts acc :
  parse_items parts acc = parse_items (List.filter well_formed parts) acc.
Proof.
  revert acc. induction parts as [|p parts IH]; intros acc; [done|].
  simpl. destruct (well_formed p) eqn:E; simpl.
  - apply IH.
  - rewrite parse_item_malformed by done. apply IH.
Qed.

Lemma parse_item_keeps p result s k :
  is_Some (result !! k) -> is_Some ((parse_item p (result, s)).1 !! k).
Proof.
  intros Hk. destruct (well_formed p) eqn:E.
  - rewrite parse_item_well_formed by done. simpl.
    destruct (decide (item_id p = k)) as [->|Hne].
    + rewrite lookup_insert_eq. eauto.
    + by rewrite lookup_insert_ne.
  - by rewrite parse_item_malformed.
Qed.

Lemma parse_items_keeps parts result s k :
  is_Some (result !! k) -> is_Some ((parse_items parts (result, s)).1 !! k).
Proof.
  revert result s. induction parts as [|p parts IH]; intros result s Hk; [done|].
  simpl. destruct (parse_item p (result, s)) as [r1 s1] eqn:E.
  apply IH. pose proof (parse_item_keeps p result s k Hk) as H. by rewrite E in H.
Qed.

Lemma parse_items_applies parts result s p :
  In p parts -> well_formed p = true ->
  is_Some ((parse_items parts (result, s)).1 !! item_id p).
Proof.
  revert result s. induction parts as [|q parts IH]; intros result s Hin Hwf; [done|].
  simpl. destruct (parse_item q (result, s)) as [r1 s1] eqn:E.
  destruct Hin as [->|Hin]; [|by apply IH].
  apply parse_items_keeps.
  rewrite parse_item_well_formed in E by done. simplify_eq.
  rewrite lookup_insert_eq. eauto.
Qed.

(** ** The provider pool *)

Lemma ensureProvider_pool_only c s : pool_only s (ensureProvider c s).2.
Proof.
  unfold ensureProvider.
  destruct (providers s !! c); [apply pool_only_refl|].
  destruct (getConfig s c) as [cfg|]; [|apply pool_only_refl].
  destruct (cfg_rpc cfg) as [url|]; [|apply pool_only_refl].
  destruct (Js.nonempty url); [by constructor | apply pool_only_refl].
Qed.

Lemma ensureProvider_grows c s : pool_grows s (ensureProvider c s).2.
Proof.
  unfold ensureProvider.
  destruct (providers s !! c) eqn:Hc; [apply pool_grows_refl|].
  destruct (getConfig s c) as [cfg|]; [|apply pool_grows_refl].
  destruct (cfg_rpc cfg) as [url|]; [|apply pool_grows_refl].
  destruct (Js.nonempty url); [|apply pool_grows_refl].
  unfold pool_grows, InvP. simpl. split; [lia|]. split.
  - intros k p Hk. rewrite lookup_insert_ne; [done|]. intros ->. congruence.
  - intros HI k p. destruct (decide (c = k)) as [->|Hne].
    + rewrite lookup_insert_eq. intros [= <-]. simpl. lia.
    + rewrite lookup_insert_ne by done. intros Hk. specialize (HI k p Hk). lia.
Qed.

Lemma ensureProvider_Ok c s p s1 :
  ensureProvider c s = (Ok p, s1) ->
  providers s1 !! c = Some p /\
  ((providers s !! c = Some p /\ s1 = s) \/
   (providers s !! c = None /\ prov_id p = nextProvider s)).
Proof.
  unfold ensureProvider. destruct (providers s !! c) as [p0|] eqn:Hc.
  - intros [= <- <-]. auto.
  - destruct (getConfig s c) as [cfg|]; [|done].
    destruct (cfg_rpc cfg) as [url|]; [|done].
    destruct (Js.nonempty url); [|done].
    intros [= <- <-]. simpl. rewrite lookup_insert_eq. auto.
Qed.

Lemma ensureProvider_valid c s cfg url :
  getConfig s c = Some cfg -> cfg_rpc cfg = Some url -> Js.nonempty url = true ->
  exists p s1, ensureProvider c s = (Ok p, s1).
Proof.
  intros Hc Hu Hne. unfold ensureProvider.
  destruct (providers s !! c); [eauto|]. rewrite Hc, Hu, Hne. eauto.
Qed.

Lemma ensureProvider_cached c s p :
  providers s !! c = Some p -> ensureProvider c s = (Ok p, s).
Proof. intros H. unfold ensureProvider. by rewrite H. Qed.

Lemma ensureProvider_ids c s n :
  (forall k q, providers s !! k = Some q -> (n <= prov_id q)%nat) ->
  (n <= nextProvider s)%nat ->
  (forall k q, providers (ensureProvider c s).2 !! k = Some q -> (n <= prov_id q)%nat) /\
  (n <= nextProvider (ensureProvider c s).2)%nat.
Proof.
  intros Hids Hn. unfold ensureProvider.
  destruct (providers s !! c); [done|].
  destruct (getConfig s c) as [cfg|]; [|done].
  destruct (cfg_rpc cfg) as [url|]; [|done].
  destruct (Js.nonempty url); [|done].
  simpl. split; [|lia]. intros k q.
  destruct (decide (c = k)) as [->|Hne].
  - rewrite lookup_insert_eq. by intros [= <-].
  - rewrite lookup_insert_ne by done. apply Hids.
Qed.

Lemma spawn_pool_only T s : pool_only s (spawn T s).
Proof. by constructor. Qed.

Lemma spawn_grows T s : pool_grows s (spawn T s).
Proof. by repeat split. Qed.

Lemma spawn_quiet T s : quiet_step s (spawn T s).
Proof. apply pool_only_quiet; [apply spawn_pool_only | apply spawn_grows]. Qed.

Lemma subscribeTokenTransfer_pool_only c tok s : pool_only s (subscribeTokenTransfer c tok s).
Proof.
  unfold subscribeTokenTransfer.
  pose proof (ensureProvider_pool_only c s) as H.
  destruct (ensureProvider c s) as [[p|msg] s1]; simpl in H; [|done].
  eapply pool_only_trans; [exact H | apply spawn_pool_only].
Qed.

Lemma subscribeTokenTransfer_grows c tok s : pool_grows s (subscribeTokenTransfer c tok s).
Proof.
  unfold subscribeTokenTransfer.
  pose proof (ensureProvider_grows c s) as H.
  destruct (ensureProvider c s) as [[p|msg] s1]; simpl in H; [|done].
  eapply pool_grows_trans; [exact H | apply spawn_grows].
Qed.

Lemma subscribe_all_pool c toks s :
  let s' := fold_left (fun a tk => subscribeTokenTransfer c tk a) toks s in
  pool_only s s' /\ pool_grows s s'.
Proof.
  revert s. induction toks as [|tok toks IH]; intros s; simpl.
  - split; [apply pool_only_refl | apply pool_grows_refl].
  - destruct (IH (subscribeTokenTransfer c tok s)) as [H1 H2]. split.
    + eapply pool_only_trans; [apply subscribeTokenTransfer_pool_only | exact H1].
    + eapply pool_grows_trans; [apply subscribeTokenTransfer_grows | exact H2].
Qed.

Lemma subscribe_all_quiet c toks s :
  quiet_step s (fold_left (fun a tk => subscribeTokenTransfer c tk a) toks s).
Proof. apply pool_only_quiet; apply subscribe_all_pool. Qed.

Lemma updateBalance_quiet sel s : quiet_step s (updateBalanceForSelectedChain sel s).
Proof.
  unfold updateBalanceForSelectedChain.
  destruct (wallet s); [|apply quiet_step_refl].
  destruct (getConfig s sel); [|apply quiet_step_refl].
  apply pool_only_quiet; [apply ensureProvider_pool_only | apply ensureProvider_grows].
Qed.

Lemma applyChainsToUI_quiet s : quiet_step s (applyChainsToUI s).
Proof.
  unfold applyChainsToUI. destruct (first_key _); [|apply quiet_step_refl].
  apply updateBalance_quiet.
Qed.

(** ** Attaching and detaching listeners *)

Lemma attach_quiet c tok s : quiet_step s (attach c tok s).
Proof.
  unfold attach. destruct (wallet s) as [a|]; [|apply quiet_step_refl].
  split; [done|]. split; [done|]. split; [done|]. split; [same_pool|]. split.
  - unfold InvL. simpl. intros HL lid Hlid.
    destruct (decide (nextListener s = lid)) as [<-|Hne]; [lia|].
    rewrite lookup_insert_ne in Hlid by done. specialize (HL lid Hlid). lia.
  - unfold InvT. simpl. intros HT t Ht.
    destruct (HT t Ht) as (c' & m' & Hc' & Hm').
    destruct (decide (c = c')) as [<-|Hne].
    + exists c. eexists. split; [apply lookup_insert_eq|].
      simpl. by rewrite Hc'.
    + exists c', m'. by rewrite lookup_insert_ne.
Qed.

Lemma attach_frame c tok s :
  tasks (attach c tok s) = tasks s /\ posted (attach c tok s) = posted s /\
  timers (attach c tok s) = timers s /\ wallet (attach c tok s) = wallet s.
Proof. unfold attach. destruct (wallet s) eqn:E; simpl; by rewrite ?E. Qed.

Lemma sub_logs_quiet c tok logs s : quiet_step s (sub_logs c tok logs s).
Proof.
  induction logs as [|log rest IH]; simpl; [apply attach_quiet|].
  destruct (log_args log); [apply spawn_quiet | apply IH].
Qed.

Lemma off_listeners_only lid s : listeners_only s (off lid s).
Proof.
  unfold off. destruct (wallet s); [|apply listeners_only_refl].
  destruct (listeners s !! lid) as [l|]; [|apply listeners_only_refl].
  destruct (String.eqb _ _); [by constructor | apply listeners_only_refl].
Qed.

Lemma off_shrinks lid s lid' l :
  listeners (off lid s) !! lid' = Some l -> listeners s !! lid' = Some l.
Proof.
  unfold off. destruct (wallet s); [|done].
  destruct (listeners s !! lid) as [l0|]; [|done].
  destruct (String.eqb _ _); [|done].
  simpl. intros H. apply lookup_delete_Some in H. tauto.
Qed.

Lemma off_detaches lid s l :
  listeners s !! lid = Some l -> wallet s = Some (l_filterTo l) ->
  listeners (off lid s) !! lid = None.
Proof.
  intros Hl Hw. unfold off. rewrite Hw, Hl, String.eqb_refl. simpl.
  apply lookup_delete_eq.
Qed.

Lemma off_all lids s :
  let s' := fold_left (fun a lid => off lid a) lids s in
  listeners_only s s' /\
  (forall lid l, listeners s' !! lid = Some l -> listeners s !! lid = Some l) /\
  (forall lid l, lid ∈ lids -> listeners s !! lid = Some l ->
     wallet s = Some (l_filterTo l) -> listeners s' !! lid = None).
Proof.
  revert s. induction lids as [|lid0 lids IH]; intros s; simpl.
  - split; [apply listeners_only_refl|]. split; [done|].
    intros lid l Hin. by apply elem_of_nil in Hin.
  - destruct (IH (off lid0 s)) as (Hlo & Hsh & Hdet).
    pose proof (off_listeners_only lid0 s) as Hlo0.
    split; [by eapply listeners_only_trans|]. split.
    + intros lid l H. by apply off_shrinks with lid0, Hsh.
    + intros lid l Hin Hl Hw.
      assert (Hnone : listeners (off lid0 s) !! lid = None ->
                listeners (fold_left (fun a x => off x a) lids (off lid0 s)) !! lid = None).
      { intros E. destruct (listeners (fold_left _ lids (off lid0 s)) !! lid) eqn:E2; [|done].
        apply Hsh in E2. congruence. }
      apply elem_of_cons in Hin as [->|Hin].
      * apply Hnone. by apply off_detaches with l.
      * destruct (listeners (off lid0 s) !! lid) as [l1|] eqn:E; [|by apply Hnone].
        pose proof (off_shrinks _ _ _ _ E) as E'.
        assert (l1 = l) as -> by congruence.
        apply (Hdet lid l Hin E). by rewrite (lo_wallet _ _ Hlo0).
Qed.

(** ** Stopping *)

Lemma stop_chain_monitors c s : monitors (stop_chain c s) = delete c (monitors s).
Proof.
  unfold stop_chain. destruct (monitors s !! c) as [mon|] eqn:E.
  - destruct (off_all (tokenListeners mon) s) as ([] & _).
    destruct (pollHandle mon); simpl; congruence.
  - symmetry. by apply delete_id.
Qed.

Lemma stop_chain_timers c s :
  timers (stop_chain c s) =
  match monitors s !! c with
  | Some mon => match pollHandle mon with
                | Some t => timers s ∖ {[t]}
                | None => timers s
                end
  | None => timers s
  end.
Proof.
  unfold stop_chain. destruct (monitors s !! c) as [mon|] eqn:E; [|done].
  destruct (off_all (tokenListeners mon) s) as ([] & _).
  destruct (pollHandle mon); simpl; congruence.
Qed.

Lemma stop_chain_frame c s :
  tasks (stop_chain c s) = tasks s /\ posted (stop_chain c s) = posted s /\
  wallet (stop_chain c s) = wallet s /\ seenTxs (stop_chain c s) = seenTxs s /\
  (forall lid l, listeners (stop_chain c s) !! lid = Some l -> listeners s !! lid = Some l).
Proof.
  unfold stop_chain. destruct (monitors s !! c) as [mon|] eqn:E; [|done].
  destruct (off_all (tokenListeners mon) s) as ([] & Hsh & _).
  destruct (pollHandle mon); simpl; repeat split; auto.
Qed.

Lemma stop_chain_quiet c s : quiet_step s (stop_chain c s).
Proof.
  pose proof (stop_chain_monitors c s) as Hm.
  pose proof (stop_chain_timers c s) as Ht.
  pose proof (stop_chain_frame c s) as (_ & _ & _ & _ & Hsh).
  assert (Hf : listeners_only s (fold_left (fun a lid => off lid a)
                 (tokenListeners (default (mkMonitor [] None) (monitors s !! c))) s))
    by apply off_all.
  assert (Hreg : objs (stop_chain c s) = objs s /\ nextLoc (stop_chain c s) = nextLoc s /\
                 configuredChains (stop_chain c s) = configuredChains s /\
                 providers (stop_chain c s) = providers s /\
                 nextProvider (stop_chain c s) = nextProvider s /\
                 nextListener (stop_chain c s) = nextListener s).
  { unfold stop_chain. destruct (monitors s !! c) as [mon|]; [|done].
    simpl in Hf. destruct Hf. destruct (pollHandle mon); simpl; repeat split; congruence. }
  destruct Hreg as (H1 & H2 & H3 & H4 & H5 & H6).
  split; [done|]. split; [done|]. split; [done|]. split.
  { unfold pool_grows, InvP. rewrite H4, H5. repeat split; auto. }
  split.
  - unfold InvL. rewrite H6. intros HL lid [l Hl]. apply HL. eauto.
  - unfold InvT. rewrite Hm, Ht. intros HT t Hin.
    assert (Hin' : t ∈ timers s).
    { destruct (monitors s !! c) as [mon|]; [destruct (pollHandle mon)|]; try done.
      by apply elem_of_difference in Hin as [? _]. }
    destruct (HT t Hin') as (c' & m' & Hc' & Hm').
    exists c', m'. split; [|done]. rewrite lookup_delete_ne; [done|].
    intros <-. rewrite Hc', Hm' in Hin.
    apply elem_of_difference in Hin as [_ Hn]. apply Hn. by apply elem_of_singleton.
Qed.

Lemma stop_chains_quiet cs s :
  quiet_step s (fold_left (fun a c => stop_chain c a) cs s).
Proof.
  revert s. induction cs as [|c cs IH]; intros s; simpl; [apply quiet_step_refl|].
  eapply quiet_step_trans; [apply stop_chain_quiet | apply IH].
Qed.

Lemma stopMonitoring_quiet s : quiet_step s (stopMonitoring s).
Proof. apply stop_chains_quiet. Qed.

Lemma stop_chains_monitors cs s :
  monitors (fold_left (fun a c => stop_chain c a) cs s) =
  fold_left (fun m c => delete c m) cs (monitors s).
Proof.
  revert s. induction cs as [|c cs IH]; intros s; simpl; [done|].
  by rewrite IH, stop_chain_monitors.
Qed.

Lemma delete_all_lookup (cs : list N) (m : gmap N Monitor) k :
  fold_left (fun m c => delete c m) cs m !! k = if bool_decide (k ∈ cs) then None else m !! k.
Proof.
  revert m. induction cs as [|c cs IH]; intros m; cbn [fold_left].
  - case_bool_decide as H; [by apply elem_of_nil in H | done].
  - rewrite IH. destruct (decide (k = c)) as [->|Hne].
    + rewrite lookup_delete_eq. rewrite (bool_decide_eq_true_2 (c ∈ c :: cs)) by left.
      by case_bool_decide.
    + rewrite lookup_delete_ne by done.
      case_bool_decide as H1; case_bool_decide as H2; try done.
      * exfalso. apply H2. by right.
      * exfalso. apply H1. by apply elem_of_cons in H2 as [?|?].
Qed.

Lemma stopMonitoring_monitors s : monitors (stopMonitoring s) = ∅.
Proof.
  unfold stopMonitoring. rewrite stop_chains_monitors.
  apply map_eq. intros k. rewrite delete_all_lookup, lookup_empty.
  case_bool_decide as H; [done|].
  destruct (monitors s !! k) as [m|] eqn:E; [|done].
  exfalso. apply H. apply list_elem_of_fmap. exists (k, m). split; [done|].
  by apply elem_of_map_to_list.
Qed.

Lemma stop_chains_frame cs s :
  let s' := fold_left (fun a c => stop_chain c a) cs s in
  tasks s' = tasks s /\ posted s' = posted s /\ wallet s' = wallet s /\
  seenTxs s' = seenTxs s /\
  (forall lid l, listeners s' !! lid = Some l -> listeners s !! lid = Some l).
Proof.
  revert s. induction cs as [|c cs IH]; intros s; simpl; [done|].
  destruct (IH (stop_chain c s)) as (H1 & H2 & H3 & H4 & H5).
  destruct (stop_chain_frame c s) as (G1 & G2 & G3 & G4 & G5).
  repeat split; try congruence. auto.
Qed.

Lemma stop_chain_detaches c s m lid l :
  monitors s !! c = Some m -> lid ∈ tokenListeners m ->
  wallet s = Some (l_filterTo l) -> listeners s !! lid = Some l ->
  listeners (stop_chain c s) !! lid = None.
Proof.
  intros Hm Hin Hw Hl. unfold stop_chain. rewrite Hm.
  destruct (off_all (tokenListeners m) s) as (_ & _ & Hdet).
  specialize (Hdet lid l Hin Hl Hw).
  destruct (pollHandle m); simpl; exact Hdet.
Qed.

Lemma stop_chains_stay_detached cs s lid :
  listeners s !! lid = None ->
  listeners (fold_left (fun a c => stop_chain c a) cs s) !! lid = None.
Proof.
  intros H. destruct (stop_chains_frame cs s) as (_ & _ & _ & _ & Hsh).
  destruct (listeners (fold_left _ cs s) !! lid) as [l|] eqn:E; [|done].
  apply Hsh in E. congruence.
Qed.

Lemma stop_chains_detaches cs s c m lid l :
  c ∈ cs -> monitors s !! c = Some m -> lid ∈ tokenListeners m ->
  wallet s = Some (l_filterTo l) -> listeners s !! lid = Some l ->
  listeners (fold_left (fun a c => stop_chain c a) cs s) !! lid = None.
Proof.
  revert s. induction cs as [|c0 cs IH]; intros s Hc Hm Hin Hw Hl.
  { by apply elem_of_nil in Hc. }
  simpl. destruct (decide (c0 = c)) as [->|Hne].
  - apply stop_chains_stay_detached. by eapply stop_chain_detaches.
  - apply elem_of_cons in Hc as [->|Hc]; [done|].
    destruct (stop_chain_frame c0 s) as (_ & _ & Hw0 & _ & Hsh).
    destruct (listeners (stop_chain c0 s) !! lid) as [l'|] eqn:E.
    + pose proof (Hsh _ _ E) as E'. assert (l' = l) as -> by congruence.
      apply (IH (stop_chain c0 s)); try done.
      * by rewrite stop_chain_monitors, lookup_delete_ne.
      * by rewrite Hw0.
    + by apply stop_chains_stay_detached.
Qed.

Lemma logout_quiet s : quiet_step s (logout s).
Proof.
  unfold logout. eapply quiet_step_trans; [|apply stopMonitoring_quiet].
  split; [done|]. split; [done|]. split; [done|]. split; [same_pool|]. done.
Qed.

(** ** Starting *)

Lemma alter_insert_same {A} (f : A -> A) (m : gmap N A) k x :
  alter f k (<[k := x]> m) = <[k := f x]> m.
Proof.
  apply map_eq. intros j. destruct (decide (k = j)) as [->|Hne].
  - by rewrite lookup_alter_eq, !lookup_insert_eq.
  - by rewrite lookup_alter_ne, !lookup_insert_ne.
Qed.

(** What [start_chain] leaves behind for a chain it does start. *)
Lemma start_chain_started tokens siteAddr c s p s1 :
  monitors s !! c = None ->
  ensureProvider c s = (Ok p, s1) ->
  exists s3,
    pool_only s s3 /\ pool_grows s s3 /\
    start_chain tokens siteAddr c s =
    (Ok tt,
     set_monitors (<[c := mkMonitor [] (Some (nextTimer s))]> (monitors s))
       (set_nextTimer (S (nextTimer s))
          (set_timers ({[nextTimer s]} ∪ timers s)
             (set_pollers (<[nextTimer s := mkPoller c siteAddr None]> (pollers s)) s3)))).
Proof.
  intros Hc He. unfold start_chain. rewrite Hc, He.
  pose proof (ensureProvider_pool_only c s) as Hpo.
  pose proof (ensureProvider_grows c s) as Hpg.
  rewrite He in Hpo, Hpg. simpl in Hpo, Hpg.
  set (s2 := set_monitors (<[c := mkMonitor [] None]> (monitors s1)) s1).
  set (s3 := match tokens with
             | Some (tok :: toks) =>
                 fold_left (fun a tk => subscribeTokenTransfer c tk a) (tok :: toks) s2
             | _ => spawn (TDiscBlockNumber c) s2
             end).
  assert (H23 : pool_only s2 s3 /\ pool_grows s2 s3).
  { subst s3. destruct tokens as [[|tok toks]|].
    - split; [apply spawn_pool_only | apply spawn_grows].
    - apply subscribe_all_pool.
    - split; [apply spawn_pool_only | apply spawn_grows]. }
  destruct H23 as [Hpo3 Hpg3].
  exists (set_monitors (monitors s) s3). split; [|split].
  - destruct Hpo, Hpo3. constructor; simpl; try congruence.
    all: subst s2; simpl in *; congruence.
  - eapply pool_grows_trans; [exact Hpg|].
    eapply pool_grows_trans; [|eapply pool_grows_trans; [exact Hpg3|]]; same_pool.
  - f_equal. destruct Hpo, Hpo3. subst s2. simpl in *.
    rewrite po_monitors1. simpl. rewrite alter_insert_same. simpl.
    rewrite po_monitors0, po_nextTimer1, po_timers1, po_pollers1. simpl.
    rewrite po_nextTimer0, po_timers0, po_pollers0.
    destruct s3; reflexivity.
Qed.

Lemma start_chain_quiet tokens siteAddr c s :
  quiet_step s (start_chain tokens siteAddr c s).2.
Proof.
  destruct (monitors s !! c) as [m|] eqn:Hc.
  { unfold start_chain. rewrite Hc. apply quiet_step_refl. }
  destruct (ensureProvider c s) as [[p|msg] s1] eqn:He.
  2:{ unfold start_chain. rewrite Hc, He. simpl.
      pose proof (ensureProvider_pool_only c s) as H1.
      pose proof (ensureProvider_grows c s) as H2. rewrite He in H1, H2.
      by apply pool_only_quiet. }
  destruct (start_chain_started tokens siteAddr c s p s1 Hc He) as (s3 & Hpo & Hpg & ->).
  simpl. destruct Hpo.
  split; [done|]. split; [done|]. split; [done|]. split.
  { eapply pool_grows_trans; [exact Hpg | same_pool]. }
  split.
  - unfold InvL. simpl. by rewrite po_listeners0, po_nextListener0.
  - unfold InvT. simpl. intros HT t Ht.
    apply elem_of_union in Ht as [Ht|Ht].
    + apply elem_of_singleton in Ht as ->.
      exists c. eexists. split; [apply lookup_insert_eq | done].
    + destruct (HT t Ht) as (c' & m' & Hc' & Hm').
      exists c', m'. split; [|done]. rewrite lookup_insert_ne; [done|]. congruence.
Qed.

Lemma start_chains_quiet tokens siteAddr cs s :
  quiet_step s (start_chains tokens siteAddr cs s).2.
Proof.
  revert s. induction cs as [|c cs IH]; intros s; simpl; [apply quiet_step_refl|].
  pose proof (start_chain_quiet tokens siteAddr c s) as H.
  destruct (start_chain tokens siteAddr c s) as [[u|msg] s']; simpl in *; [|done].
  eapply quiet_step_trans; [exact H | apply IH].
Qed.

Lemma startMonitoring_quiet sel toks site s :
  quiet_step s (startMonitoring sel toks site s).2.
Proof.
  unfold startMonitoring. destruct (wallet s); [|apply quiet_step_refl].
  destruct sel; [apply quiet_step_refl|]. apply start_chains_quiet.
Qed.

Lemma start_chains_throw tokens siteAddr c rest s msg s' :
  start_chain tokens siteAddr c s = (Throw msg, s') ->
  start_chains tokens siteAddr (c :: rest) s = (Throw msg, s').
Proof. intros H. simpl. by rewrite H. Qed.

(** ** Steps of the event loop *)

Lemma set_polledBlock_quiet t v s : quiet_step s (set_polledBlock t v s).
Proof. split; [done|]. split; [done|]. split; [done|]. split; [same_pool|]. done. Qed.

Lemma poll_next_quiet t b latest s : quiet_step s (poll_next t b latest s).
Proof.
  unfold poll_next. destruct (_ <=? _)%Z; [apply spawn_quiet | apply set_polledBlock_quiet].
Qed.

Lemma record_quiet c i s : quiet_step s (recordActivity c i s).
Proof. apply sink_only_quiet, recordActivity_sink_only. Qed.

Lemma scan_txs_quiet c site txs s : quiet_step s (scan_txs c site txs s).
Proof. apply sink_only_quiet, scan_txs_sink_only. Qed.

Create HintDb quiet.

#[local] Hint Resolve quiet_step_refl spawn_quiet sub_logs_quiet attach_quiet
  subscribe_all_quiet record_quiet scan_txs_quiet set_polledBlock_quiet
  poll_next_quiet : quiet.

#[local] Hint Extern 4 (quiet_step _ _) => eapply quiet_step_trans; [|solve [eauto with quiet]]
  : quiet.

Lemma resume_quiet T r s s' : resume T r s = Some s' -> quiet_step s s'.
Proof.
  destruct T, r; simpl; intros H; simplify_eq; eauto with quiet;
    repeat match goal with
    | H : match ?x with _ => _ end = Some _ |- _ => destruct x eqn:?; simplify_eq
    end;
    eauto with quiet.
Qed.

Lemma set_wallet_quiet w s : quiet_step s (set_wallet w s).
Proof. split; [done|]. split; [done|]. split; [done|]. split; [same_pool|]. done. Qed.

Lemma set_tasks_quiet ts s : quiet_step s (set_tasks ts s).
Proof. split; [done|]. split; [done|]. split; [done|]. split; [same_pool|]. done. Qed.

(** Every step that is not a change of configuration leaves the registry
    alone and only adds to the provider pool. *)
Lemma step_quiet s e s' :
  step s e = Some s' -> (forall input, e <> EvApplyChains input) -> quiet_step s s'.
Proof.
  intros H Hne. destruct e; simpl in H; simplify_eq.
  - apply set_wallet_quiet.
  - apply updateBalance_quiet.
  - apply logout_quiet.
  - by destruct (Hne input).
  - apply startMonitoring_quiet.
  - apply stopMonitoring_quiet.
  - case_bool_decide; simplify_eq. apply spawn_quiet.
  - destruct (listeners s !! lid); simplify_eq. apply spawn_quiet.
  - destruct (tasks s !! i) as [T|]; simplify_eq.
    eapply quiet_step_trans; [apply set_tasks_quiet | by eapply resume_quiet].
Qed.

Lemma run_quiet es s s' : no_apply es -> run s es = Some s' -> quiet_step s s'.
Proof.
  intros Hna. revert s. induction Hna as [|e es He _ IH]; intros s H; simpl in H.
  - simplify_eq. apply quiet_step_refl.
  - destruct (step s e) as [s1|] eqn:E; [|done].
    eapply quiet_step_trans; [by eapply step_quiet | by apply IH].
Qed.

(** ** Invariants of the reachable states *)

Lemma DEFAULT_CHAINS_lookup k l :
  DEFAULT_CHAINS !! k = Some l ->
  (k, l) ∈ [(1%N, 0%nat); (5%N, 1%nat); (56%N, 2%nat); (137%N, 3%nat)].
Proof.
  unfold DEFAULT_CHAINS. intros H.
  repeat (apply lookup_insert_Some in H as [[<- <-]|[_ H]]; [set_solver|]).
  apply lookup_singleton_Some in H as [<- <-]. set_solver.
Qed.

Lemma DEFAULT_CHAINS_inj k1 k2 l :
  DEFAULT_CHAINS !! k1 = Some l -> DEFAULT_CHAINS !! k2 = Some l -> k1 = k2.
Proof.
  intros H1%DEFAULT_CHAINS_lookup H2%DEFAULT_CHAINS_lookup.
  repeat (apply elem_of_cons in H1 as [[= -> ->]|H1]);
    try (by apply elem_of_nil in H1);
    repeat (apply elem_of_cons in H2 as [[= ->]|H2]); try done;
    by apply elem_of_nil in H2.
Qed.

Lemma canon_id k : cfg_id (canon k) = k.
Proof.
  unfold canon. destruct (DEFAULT_CHAINS !! k) as [l|] eqn:E; [|done].
  apply DEFAULT_CHAINS_lookup in E.
  repeat (apply elem_of_cons in E as [[= -> ->]|E]; [reflexivity|]).
  by apply elem_of_nil in E.
Qed.

Lemma Inv_init : Inv init.
Proof.
  split; [|split; [|split]].
  - split; [|split].
    + intros k l H. apply DEFAULT_CHAINS_lookup in H.
      repeat (apply elem_of_cons in H as [[= -> ->]|H];
              [split; [simpl; lia|]; eexists; split; [by vm_compute|];
               vm_compute; by repeat split|]).
      by apply elem_of_nil in H.
    + intros k l H. apply DEFAULT_CHAINS_lookup in H.
      repeat (apply elem_of_cons in H as [[= -> ->]|H];
              [split; [simpl; lia|]; eexists; split; [by vm_compute|];
               vm_compute; by repeat split|]).
      by apply elem_of_nil in H.
    + done.
  - intros k p H. change (providers init) with (∅ : gmap N Provider) in H.
    by rewrite lookup_empty in H.
  - intros lid [l H]. change (listeners init) with (∅ : gmap nat Listener) in H.
    by rewrite lookup_empty in H.
  - intros t H. change (timers init) with (∅ : gset nat) in H.
    by apply not_elem_of_empty in H.
Qed.

Lemma getConfig_ext s s' k :
  objs s' = objs s -> configuredChains s' = configuredChains s ->
  getConfig s' k = getConfig s k.
Proof. intros H1 H2. unfold getConfig, deref. by rewrite H1, H2. Qed.

Lemma applyChains_Inv input s : Inv s -> Inv (applyChains input s).
Proof.
  intros ((HD & HC & Hdc) & HP & HL & HT). unfold applyChains.
  destruct (Js.nonempty (Js.trim input)); simpl; [|done].
  unfold parseChainsInput.
  destruct (parse_items (parts_of (Js.trim input)) (∅, s)) as [parsed s1] eqn:E.
  destruct (parse_items_ok _ _ _ _ _ HD (map_ok_empty _ _) E)
    as (Hstep & Hparsed & _).
  apply (quiet_step_Inv _ _ (applyChainsToUI_quiet _)).
  destruct Hstep as ((o & n & ->) & Hn & Hobj).
  assert (Hmono : forall m, map_ok (objs s) (nextLoc s) m ->
            map_ok (objs (set_nextLoc n (set_objs o s)))
              (nextLoc (set_nextLoc n (set_objs o s))) m).
  { intros m. apply map_ok_heap_step. split; [eauto | by split]. }
  split; [|split; [|split]]; simpl in *.
  - split; [by apply Hmono|]. split.
    + intros k l Hk. apply lookup_union_Some_raw in Hk as [Hk|[_ Hk]].
      * by apply Hparsed.
      * by apply (Hmono _ HC).
    + intros k Hk. destruct (Hdc k Hk) as [l Hl].
      destruct (parsed !! k) as [l'|] eqn:Ep.
      * exists l'. by apply lookup_union_Some_l.
      * exists l. rewrite lookup_union_r; done.
  - unfold InvP. simpl. intros k p H. by rewrite lookup_empty in H.
  - exact HL.
  - exact HT.
Qed.

Lemma step_Inv s e s' : step s e = Some s' -> Inv s -> Inv s'.
Proof.
  intros H HI.
  assert (Hcase : (exists input, e = EvApplyChains input) \/
                  (forall input, e <> EvApplyChains input))
    by (destruct e; eauto; right; done).
  destruct Hcase as [[input ->]|Hne].
  - simpl in H. simplify_eq. by apply applyChains_Inv.
  - eapply quiet_step_Inv; [|exact HI]. by eapply step_quiet.
Qed.

(** Whatever the events, the state the page reaches has a well-formed
    registry, a pool of distinct handles, and every interval on record. *)
Lemma run_Inv es s s' : run s es = Some s' -> Inv s -> Inv s'.
Proof.
  revert s. induction es as [|e es IH]; intros s H HI; simpl in H; [by simplify_eq|].
  destruct (step s e) as [s1|] eqn:E; [|done].
  eapply IH; [exact H|]. by eapply step_Inv.
Qed.

Lemma Inv_builtin s k l :
  Inv s -> DEFAULT_CHAINS !! k = Some l ->
  exists d, objs s !! l = Some d /\ same_fixed d (canon k).
Proof. intros ((HD & _) & _) Hk. by destruct (HD k l Hk) as (_ & d & Hd & Hf); eauto. Qed.

Lemma Inv_configured_default s k l :
  Inv s -> DEFAULT_CHAINS !! k = Some l ->
  exists c, getConfig s k = Some c /\ same_fixed c (canon k).
Proof.
  intros ((_ & HC & Hdc) & _) Hk.
  destruct (Hdc k) as [l' Hl']; [eauto|].
  destruct (HC k l' Hl') as (_ & c & Hc & Hf).
  exists c. split; [|done]. unfold getConfig, deref. by rewrite Hl', Hc.
Qed.

Lemma getConfig_fixed s k c : Inv s -> getConfig s k = Some c -> same_fixed c (canon k).
Proof.
  intros ((_ & HC & _) & _). unfold getConfig, deref.
  destruct (configuredChains s !! k) as [l|] eqn:E; [|done].
  destruct (HC k l E) as (_ & c' & -> & Hf). simpl. by intros [= <-].
Qed.

(** *** Built-in objects and their configured copies *)

Lemma rpc_ok_or_else x c :
  cfg_rpc c = Js.or_else x None -> rpc_ok c.
Proof.
  unfold rpc_ok. intros ->. unfold Js.or_else.
  destruct (Js.truthy x) eqn:E; [by rewrite E | done].
Qed.

Lemma or_else_same a : Js.or_else a (Js.or_else a None) = Js.or_else a None.
Proof. unfold Js.or_else. by destruct (Js.truthy a). Qed.

Lemma or_else_assoc a b :
  Js.or_else (Js.or_else a b) None = Js.or_else a (Js.or_else b None).
Proof. unfold Js.or_else. destruct (Js.truthy a) eqn:E; [by rewrite E | done]. Qed.

Lemma or_else_twice a :
  Js.or_else (Js.or_else a (Js.or_else a None)) None = Js.or_else a None.
Proof. unfold Js.or_else. destruct (Js.truthy a) eqn:E; rewrite ?E; simpl; by rewrite ?E. Qed.

Lemma or_else_supplied r x :
  Js.nonempty r = true -> Js.or_else (Js.or_else (Some r) x) None = Some r.
Proof. intros H. unfold Js.or_else. simpl. by rewrite H; simpl; rewrite H. Qed.

Lemma InvA_init : InvA init.
Proof.
  split.
  - intros k l l' H1 H2. change (configuredChains init) with DEFAULT_CHAINS in H2. congruence.
  - intros l c H. change (objs init) with default_objs in H. unfold default_objs in H.
    repeat (apply lookup_insert_Some in H as [[<- <-]|[_ H]]; [reflexivity|]).
    by apply lookup_singleton_Some in H as [<- <-].
Qed.

Lemma parse_item_batch s0 p result s result' s' :
  map_ok (objs s0) (nextLoc s0) DEFAULT_CHAINS ->
  batch_inv s0 result s ->
  parse_item p (result, s) = (result', s') ->
  batch_inv s0 result' s'.
Proof.
  intros HD (Ha & Hb & Hc & Hd & He) Hp.
  destruct (well_formed p) eqn:Hwf.
  2:{ rewrite parse_item_malformed in Hp by done. by simplify_eq. }
  rewrite parse_item_well_formed in Hp by done.
  set (k0 := item_id p) in *. set (n := nextLoc s) in *.
  destruct (deref s DEFAULT_CHAINS k0) as [[l0 d]|] eqn:Hd0; simplify_eq.
  - apply deref_Some in Hd0 as [Hk0 Hl0].
    destruct (HD k0 l0 Hk0) as (Hlt0 & _).
    match goal with |- batch_inv _ _ (set_nextLoc _ (set_objs (<[_ := ?m]> _) _)) =>
      set (meta := m) end.
    assert (Hmeta : rpc_ok meta) by (by eapply rpc_ok_or_else).
    split; [simpl; lia|]. split; [|split; [|split]]; simpl.
    + intros k l'. destruct (decide (k0 = k)) as [<-|Hne].
      * rewrite lookup_insert_eq. intros [= <-]. rewrite lookup_insert_eq.
        split; [lia|]. split; [lia | eauto].
      * rewrite lookup_insert_ne by done. intros H. destruct (Hb k l' H) as (?&?&?).
        rewrite !lookup_insert_ne by lia. split; [lia|]. split; [lia | done].
    + intros k l l' Hk. destruct (decide (k0 = k)) as [<-|Hne].
      * rewrite lookup_insert_eq. intros [= <-]. assert (l = l0) as -> by congruence.
        rewrite lookup_insert_eq, lookup_insert_ne by lia. by rewrite lookup_insert_eq.
      * rewrite lookup_insert_ne by done. intros H. destruct (Hb k l' H) as (?&?&?).
        destruct (HD k l Hk) as (Hl & _).
        assert (l <> l0) by (intros ->; apply Hne; by eapply DEFAULT_CHAINS_inj).
        rewrite !lookup_insert_ne by lia. by eapply Hc.
    + intros l Hl Hnone.
      assert (l <> l0).
      { intros ->. specialize (Hnone k0 Hk0). by rewrite lookup_insert_eq in Hnone. }
      rewrite !lookup_insert_ne by lia. apply Hd; [done|].
      intros k Hk. specialize (Hnone k Hk).
      rewrite lookup_insert_ne in Hnone; [done|]. intros <-. congruence.
    + intros l c. destruct (decide (n = l)) as [<-|Hn].
      * rewrite lookup_insert_eq. by intros [= <-].
      * rewrite lookup_insert_ne by done. destruct (decide (l0 = l)) as [<-|Hl].
        -- rewrite lookup_insert_eq. by intros [= <-].
        -- rewrite lookup_insert_ne by done. apply He.
  - assert (Hk0 : DEFAULT_CHAINS !! k0 = None).
    { destruct (DEFAULT_CHAINS !! k0) as [l|] eqn:E; [|done]. exfalso.
      destruct (HD k0 l E) as (Hl & c0 & Hc0 & _).
      assert (Hsome : is_Some (objs s !! l)).
      { destruct (result !! k0) as [l'|] eqn:Er.
        - rewrite <- (Hc k0 l l' E Er). apply (Hb k0 l' Er).
        - rewrite Hd; [eauto | done |].
          intros k Hk. by assert (k = k0) as -> by (by eapply DEFAULT_CHAINS_inj). }
      destruct Hsome as [c Hc']. unfold deref in Hd0. by rewrite E, Hc' in Hd0. }
    match goal with |- batch_inv _ _ (set_nextLoc _ (set_objs (<[_ := ?m]> _) _)) =>
      set (meta := m) end.
    assert (Hmeta : rpc_ok meta) by (by eapply rpc_ok_or_else).
    split; [simpl; lia|]. split; [|split; [|split]]; simpl.
    + intros k l'. destruct (decide (k0 = k)) as [<-|Hne].
      * rewrite lookup_insert_eq. intros [= <-]. rewrite lookup_insert_eq.
        split; [lia|]. split; [lia | eauto].
      * rewrite lookup_insert_ne by done. intros H. destruct (Hb k l' H) as (?&?&?).
        rewrite !lookup_insert_ne by lia. split; [lia|]. split; [lia | done].
    + intros k l l' Hk. assert (k0 <> k) by congruence.
      rewrite lookup_insert_ne by done. intros H'. destruct (Hb k l' H') as (?&?&?).
      destruct (HD k l Hk) as (Hl & _).
      rewrite !lookup_insert_ne by lia. by eapply Hc.
    + intros l Hl Hnone. rewrite lookup_insert_ne by lia. apply Hd; [done|].
      intros k Hk. specialize (Hnone k Hk).
      rewrite lookup_insert_ne in Hnone; [done|]. congruence.
    + intros l c. destruct (decide (n = l)) as [<-|Hn].
      * rewrite lookup_insert_eq. by intros [= <-].
      * rewrite lookup_insert_ne by done. apply He.
Qed.

Lemma parse_items_batch s0 parts result s result' s' :
  map_ok (objs s0) (nextLoc s0) DEFAULT_CHAINS ->
  batch_inv s0 result s ->
  parse_items parts (result, s) = (result', s') ->
  batch_inv s0 result' s'.
Proof.
  intros HD. revert result s. induction parts as [|p parts IH]; intros result s HB Hp.
  - simpl in Hp. by simplify_eq.
  - simpl in Hp. destruct (parse_item p (result, s)) as [r1 s1] eqn:E.
    eapply IH; [|exact Hp]. by eapply parse_item_batch.
Qed.

Lemma applyChains_InvA input s : Inv s -> InvA s -> InvA (applyChains input s).
Proof.
  intros ((HD & HC & _) & _) (HA1 & HA2). unfold applyChains.
  destruct (Js.nonempty (Js.trim input)); simpl; [|done].
  unfold parseChainsInput.
  destruct (parse_items (parts_of (Js.trim input)) (∅, s)) as [parsed s1] eqn:E.
  assert (HB0 : batch_inv s ∅ s).
  { split; [done|]. split; [intros k l' H; by rewrite lookup_empty in H|].
    split; [intros k l l' _ H; by rewrite lookup_empty in H|]. done. }
  destruct (parse_items_batch s _ _ _ _ _ HD HB0 E) as (Ha & Hb & Hc & Hd & He).
  destruct (parse_items_ok' _ _ _ _ _ E) as (o & n & ->).
  match goal with |- InvA (applyChainsToUI ?x) => set (s3 := x) end.
  destruct (applyChainsToUI_quiet s3) as (Ho & _ & Hcf & _).
  unfold InvA. rewrite Ho, Hcf. subst s3. simpl in *.
  split; [|exact He].
  intros k l l' Hk Hl'. apply lookup_union_Some_raw in Hl' as [Hl'|[Hnone Hl']].
  - by eapply Hc.
  - destruct (HD k l Hk) as (Hl & c & Hcl & Hfl).
    destruct (HC k l' Hl') as (Hll' & c' & Hcl' & Hfl').
    rewrite (Hd l Hl), (Hd l' Hll').
    + by eapply HA1.
    + intros k2 Hk2. destruct (HD k2 l' Hk2) as (_ & c2 & Hc2 & Hf2).
      assert (k2 = k) as ->; [|done].
      assert (c2 = c') as -> by congruence.
      destruct Hf2 as (Hi2 & _). destruct Hfl' as (Hi' & _).
      rewrite canon_id in Hi2, Hi'. congruence.
    + intros k2 Hk2. by assert (k2 = k) as -> by (by eapply DEFAULT_CHAINS_inj).
Qed.

Lemma run_InvA es s s' : run s es = Some s' -> Inv s -> InvA s -> InvA s'.
Proof.
  revert s. induction es as [|e es IH]; intros s H HI HA; simpl in H; [by simplify_eq|].
  destruct (step s e) as [s1|] eqn:E; [|done].
  eapply IH; [exact H | by eapply step_Inv |].
  assert (Hcase : (exists input, e = EvApplyChains input) \/
                  (forall input, e <> EvApplyChains input))
    by (destruct e; eauto; right; done).
  destruct Hcase as [[input ->]|Hne].
  - simpl in E. simplify_eq. by apply applyChains_InvA.
  - destruct (step_quiet _ _ _ E Hne) as (Ho & _ & Hc & _).
    unfold InvA. by rewrite Ho, Hc.
Qed.

(** In a reachable state the configured entry of a built-in chain is equal
    to the built-in object. *)
Lemma builtin_configured_equal s k l c :
  InvA s -> DEFAULT_CHAINS !! k = Some l -> getConfig s k = Some c ->
  deref s DEFAULT_CHAINS k = Some (l, c) /\ rpc_ok c.
Proof.
  intros (HA1 & HA2) Hk. unfold getConfig, deref at 1.
  destruct (configuredChains s !! k) as [l'|] eqn:E; [|done].
  destruct (objs s !! l') as [c'|] eqn:E2; [|done]. simpl. intros [= ->].
  rewrite (HA1 k l l' Hk E) in E2. split; [by apply deref_Some | by eapply HA2].
Qed.

(** *** The sink across events *)

Lemma InvD_ext s s' :
  seenTxs s' = seenTxs s -> posted s' = posted s -> InvD s -> InvD s'.
Proof. intros H1 H2 H. unfold InvD. by rewrite H1, H2. Qed.

Lemma recordActivity_InvD c i s : InvD s -> InvD (recordActivity c i s).
Proof.
  intros HD h Hh. specialize (HD h Hh).
  destruct (has_hash h (c, i)) eqn:E.
  - apply has_hash_true in E.
    destruct (decide (h ∈ seenTxs s)) as [Hin|Hin].
    + by rewrite (recordActivity_seen c i h s).
    + destruct (recordActivity_first c i h s E Hh Hin) as [-> ->].
      rewrite bool_decide_eq_false_2 in HD by done.
      rewrite bool_decide_eq_true_2 by (by apply elem_of_union_l, elem_of_singleton).
      unfold count_hash in *. simpl.
      rewrite (proj2 (has_hash_true h c i) E). simpl. by rewrite HD.
  - destruct (recordActivity_other c i h s E) as [-> Hiff].
    rewrite HD. by repeat case_bool_decide; tauto.
Qed.

Lemma pool_only_InvD s s' : pool_only s s' -> InvD s -> InvD s'.
Proof. intros []. by apply InvD_ext. Qed.

Lemma scan_txs_InvD c site txs s : InvD s -> InvD (scan_txs c site txs s).
Proof.
  revert s. induction txs as [|tx txs IH]; intros s HD; simpl; [done|].
  destruct (scan_tx c site tx s) as [s'|] eqn:E; [|done].
  apply IH. unfold scan_tx in E.
  destruct (to_wallet tx s) as [native|]; [|done].
  set (s1 := if native then _ else s) in E.
  assert (H1 : InvD s1) by (subst s1; destruct native; [by apply recordActivity_InvD | done]).
  destruct (from_site site tx); [|by simplify_eq].
  destruct (to_wallet tx s1) as [[]|]; simplify_eq; [|done].
  by apply recordActivity_InvD.
Qed.

Lemma attach_InvD c tok s : InvD s -> InvD (attach c tok s).
Proof. apply InvD_ext; unfold attach; by destruct (wallet s). Qed.

Lemma sub_logs_InvD c tok logs s : InvD s -> InvD (sub_logs c tok logs s).
Proof.
  induction logs as [|log rest IH]; simpl; [apply attach_InvD|].
  by destruct (log_args log).
Qed.

Lemma poll_next_InvD t b latest s : InvD s -> InvD (poll_next t b latest s).
Proof. unfold poll_next. by destruct (_ <=? _)%Z. Qed.

Lemma resume_InvD T r s s' : resume T r s = Some s' -> InvD s -> InvD s'.
Proof.
  intros H HD. destruct T, r; simpl in H; simplify_eq; try done;
    repeat match goal with
    | H : match ?x with _ => _ end = Some _ |- _ => destruct x eqn:?; simplify_eq
    end;
    try done;
    try (by apply sub_logs_InvD);
    try (by apply attach_InvD);
    try (by apply recordActivity_InvD);
    try (by apply sub_logs_InvD, recordActivity_InvD);
    try (by apply poll_next_InvD);
    try (by apply poll_next_InvD, scan_txs_InvD);
    try (eapply pool_only_InvD; [apply subscribe_all_pool | done]).
Qed.

Lemma startMonitoring_InvD sel toks site s :
  InvD s -> InvD (startMonitoring sel toks site s).2.
Proof.
  unfold startMonitoring. destruct (wallet s); [|done]. destruct sel as [|c0 sel0]; [done|].
  generalize (c0 :: sel0). intros cs. revert s.
  induction cs as [|c cs IH]; intros s HD; simpl; [done|].
  assert (H1 : InvD (start_chain
            (if Js.nonempty (Js.trim toks)
             then Some (List.filter Js.nonempty (map Js.trim (Js.split_char "," (Js.trim toks))))
             else None)
            (if Js.nonempty (Js.trim site) then Some (Js.trim site) else None) c s).2).
  { destruct (monitors s !! c) as [m|] eqn:Hc.
    { unfold start_chain. by rewrite Hc. }
    destruct (ensureProvider c s) as [[p|msg] s1] eqn:He.
    - destruct (start_chain_started
                  (if Js.nonempty (Js.trim toks)
                   then Some (List.filter Js.nonempty
                                (map Js.trim (Js.split_char "," (Js.trim toks))))
                   else None)
                  (if Js.nonempty (Js.trim site) then Some (Js.trim site) else None)
                  c s p s1 Hc He) as (s3 & Hpo & _ & ->).
      simpl. destruct Hpo. by eapply InvD_ext; [| |exact HD].
    - unfold start_chain. rewrite Hc, He. simpl.
      pose proof (ensureProvider_pool_only c s) as H. rewrite He in H.
      by eapply pool_only_InvD. }
  destruct (start_chain _ _ c s) as [[u|msg] s']; simpl in *; [by apply IH | done].
Qed.

Lemma stopMonitoring_InvD s : InvD s -> InvD (stopMonitoring s).
Proof.
  destruct (stop_chains_frame (map_to_list (monitors s)).*1 s) as (_ & H2 & _ & H4 & _).
  by apply InvD_ext.
Qed.

Lemma updateBalance_InvD sel s : InvD s -> InvD (updateBalanceForSelectedChain sel s).
Proof.
  unfold updateBalanceForSelectedChain. destruct (wallet s); [|done].
  destruct (getConfig s sel); [|done]. apply pool_only_InvD, ensureProvider_pool_only.
Qed.

Lemma applyChains_InvD input s : InvD s -> InvD (applyChains input s).
Proof.
  intros HD. unfold applyChains. destruct (Js.nonempty (Js.trim input)); simpl; [|done].
  unfold parseChainsInput.
  destruct (parse_items (parts_of (Js.trim input)) (∅, s)) as [parsed s1] eqn:E.
  destruct (parse_items_ok' _ _ _ _ _ E) as (o & n & ->).
  unfold applyChainsToUI. destruct (first_key _); [|done].
  by apply updateBalance_InvD.
Qed.

Lemma step_InvD s e s' : step s e = Some s' -> InvD s -> InvD s'.
Proof.
  intros H HD. destruct e; simpl in H; simplify_eq.
  - done.
  - by apply updateBalance_InvD.
  - unfold logout. by apply stopMonitoring_InvD.
  - by apply applyChains_InvD.
  - by apply startMonitoring_InvD.
  - by apply stopMonitoring_InvD.
  - by case_bool_decide; simplify_eq.
  - by destruct (listeners s !! lid); simplify_eq.
  - destruct (tasks s !! i) as [T|]; simplify_eq. by eapply resume_InvD.
Qed.

(** Whatever the events and their interleaving, no non-empty transaction
    hash has reached the sink twice. *)
Lemma sink_at_most_once es s h :
  run init es = Some s -> Js.nonempty h = true -> (count_hash h (posted s) <= 1)%nat.
Proof.
  intros Hrun Hh.
  assert (HD : InvD s).
  { assert (H0 : InvD init) by (intros h' _; reflexivity).
    revert Hrun H0. generalize init. induction es as [|e es IH]; intros s0 Hrun H0.
    - simpl in Hrun. by simplify_eq.
    - simpl in Hrun. destruct (step s0 e) as [s1|] eqn:E; [|done].
      eapply IH; [exact Hrun|]. by eapply step_InvD. }
  rewrite (HD h Hh). case_bool_decide; lia.
Qed.

(** ** Strings of the chains input *)

Lemma digit_plain c :
  Js.is_digit c = true -> plain c = true /\ is_sep c = false /\ is_colon c = false.
Proof. destruct c as [[] [] [] [] [] [] [] []]; vm_compute; intros H; done. Qed.

Lemma all_digits_none ds :
  Js.all_digits ds = true -> none_of is_sep ds = true /\ none_of is_colon ds = true.
Proof.
  induction ds as [|c ds IH]; simpl; [done|].
  intros [Hc Hds]%andb_prop. destruct (digit_plain c Hc) as (_ & -> & ->).
  destruct (IH Hds) as (-> & ->). done.
Qed.

Lemma none_of_app P a b : none_of P (a +:+ b) = none_of P a && none_of P b.
Proof. induction a as [|c a IH]; simpl; [done|]. by rewrite IH, andb_assoc. Qed.

Lemma split_char_cons sep s : exists q qs, Js.split_char sep s = q :: qs.
Proof.
  induction s as [|c s (q & qs & IH)]; simpl; [eauto|].
  destruct (Ascii.eqb c sep); [eauto|]. rewrite IH. eauto.
Qed.

Lemma split_char_none sep s :
  none_of (fun c => Ascii.eqb c sep) s = true -> Js.split_char sep s = [s].
Proof.
  induction s as [|c s IH]; simpl; [done|].
  intros [Hc Hs]%andb_prop. apply negb_true_iff in Hc. rewrite Hc, IH; done.
Qed.

Lemma split_char_app sep a b :
  none_of (fun c => Ascii.eqb c sep) a = true ->
  Js.split_char sep (a +:+ String sep b) = a :: Js.split_char sep b.
Proof.
  induction a as [|c a IH]; simpl.
  - intros _. by rewrite Ascii.eqb_refl.
  - intros [Hc Ha]%andb_prop. apply negb_true_iff in Hc. rewrite Hc, IH; done.
Qed.

Lemma join_cons_cons sep p q qs :
  Js.join sep (p :: q :: qs) = p +:+ sep +:+ Js.join sep (q :: qs).
Proof. reflexivity. Qed.

Lemma join_String sep c q qs :
  Js.join sep (String c q :: qs) = String c (Js.join sep (q :: qs)).
Proof. by destruct qs. Qed.

Lemma join_split_char sep s : Js.join (String sep "") (Js.split_char sep s) = s.
Proof.
  induction s as [|c s IH]; [done|].
  destruct (split_char_cons sep s) as (q & qs & E).
  cbn [Js.split_char]. rewrite E in *.
  destruct (Ascii.eqb c sep) eqn:Hc.
  - apply Ascii.eqb_eq in Hc as ->. by rewrite join_cons_cons, IH.
  - by rewrite join_String, IH.
Qed.

Lemma split_runs_none cls s : none_of cls s = true -> Js.split_runs cls s = [s].
Proof.
  induction s as [|c s IH]; simpl; [done|].
  intros [Hc Hs]%andb_prop. apply negb_true_iff in Hc. rewrite Hc, IH; done.
Qed.

(** *** White space *)

Ltac bool_prop H :=
  repeat first
    [ rewrite orb_true_iff in H | rewrite orb_false_iff in H
    | rewrite andb_true_iff in H | rewrite andb_false_iff in H
    | rewrite negb_true_iff in H | rewrite negb_false_iff in H
    | rewrite Nat.eqb_eq in H | rewrite Nat.eqb_neq in H
    | rewrite Nat.leb_le in H | rewrite Nat.leb_gt in H
    | rewrite Nat.ltb_lt in H | rewrite Nat.ltb_ge in H ].

Ltac refute_bool :=
  match goal with
  | |- ?b = false =>
      let E := fresh "E" in
      destruct b eqn:E; [exfalso; bool_prop E; lia | reflexivity]
  end.

Lemma is_ws_high c : Js.is_ws c = true -> plain c = false.
Proof. unfold plain. by intros ->; rewrite andb_false_r. Qed.

Lemma is_ws2_high c1 c2 :
  Js.is_ws2 c1 c2 = true -> Js.is_ws c1 = false /\ plain c1 = false /\ plain c2 = false.
Proof.
  unfold Js.is_ws2, Js.is_ws, plain, Js.is_ws. intros H. bool_prop H.
  repeat split; refute_bool.
Qed.

Lemma is_ws3_high c1 c2 c3 :
  Js.is_ws3 c1 c2 c3 = true ->
  Js.is_ws c1 = false /\ Js.is_ws2 c1 c2 = false /\
  plain c1 = false /\ plain c2 = false /\ plain c3 = false.
Proof.
  unfold Js.is_ws3, Js.is_ws2, Js.is_ws, plain, Js.is_ws. cbv zeta. intros H. bool_prop H.
  repeat split; refute_bool.
Qed.

Lemma plain_not_ws c : plain c = true -> Js.is_ws c = false.
Proof. unfold plain. intros [_ H]%andb_prop. by apply negb_true_iff in H. Qed.

Lemma string_len_ind (P : string -> Prop) :
  (forall s, (forall r, (String.length r < String.length s)%nat -> P r) -> P s) ->
  forall s, P s.
Proof.
  intros H s. remember (String.length s) as n eqn:E. revert s E.
  induction n as [n IH] using lt_wf_ind. intros s ->. apply H.
  intros r Hr. by apply (IH (String.length r)).
Qed.

Lemma string_app_length u v :
  String.length (u +:+ v) = (String.length u + String.length v)%nat.
Proof.
  induction u as [|c u IH]; [done|].
  change (String c u +:+ v) with (String c (u +:+ v)). simpl. by rewrite IH.
Qed.

Lemma string_app_assoc u v w : (u +:+ v) +:+ w = u +:+ (v +:+ w).
Proof.
  induction u as [|c u IH]; [done|].
  change (String c u +:+ v) with (String c (u +:+ v)).
  change (String c (u +:+ v) +:+ w) with (String c ((u +:+ v) +:+ w)).
  change (String c u +:+ (v +:+ w)) with (String c (u +:+ (v +:+ w))). by rewrite IH.
Qed.

(** The white-space character a string starts with. *)
Lemma strip_ws_Some s r :
  strip_ws s = Some r ->
  exists w, s = w +:+ r /\ w <> "" /\ none_of plain w = true /\
    forall z, strip_ws (w +:+ z) = Some z.
Proof.
  destruct s as [|c1 s]; [done|]. cbn [strip_ws].
  destruct (Js.is_ws c1) eqn:H1.
  { intros [= <-]. exists (String c1 ""). split; [done|]. split; [done|]. split.
    - cbn [none_of]. by rewrite (is_ws_high c1 H1).
    - intros z. change (String c1 "" +:+ z) with (String c1 z). cbn [strip_ws]. by rewrite H1. }
  destruct s as [|c2 s]; [done|].
  destruct (Js.is_ws2 c1 c2) eqn:H2.
  { intros [= <-]. exists (String c1 (String c2 "")).
    destruct (is_ws2_high c1 c2 H2) as (_ & P1 & P2).
    split; [done|]. split; [done|]. split.
    - cbn [none_of]. by rewrite P1, P2.
    - intros z. change (String c1 (String c2 "") +:+ z) with (String c1 (String c2 z)).
      cbn [strip_ws]. by rewrite H1, H2. }
  destruct s as [|c3 s]; [done|].
  destruct (Js.is_ws3 c1 c2 c3) eqn:H3; [|done].
  intros [= <-]. exists (String c1 (String c2 (String c3 ""))).
  destruct (is_ws3_high c1 c2 c3 H3) as (_ & _ & P1 & P2 & P3).
  split; [done|]. split; [done|]. split.
  - cbn [none_of]. by rewrite P1, P2, P3.
  - intros z.
    change (String c1 (String c2 (String c3 "")) +:+ z)
      with (String c1 (String c2 (String c3 z))).
    cbn [strip_ws]. by rewrite H1, H2, H3.
Qed.

Lemma strip_ws_length s r : strip_ws s = Some r -> (String.length r < String.length s)%nat.
Proof.
  intros (w & -> & Hw & _)%strip_ws_Some. rewrite string_app_length.
  destruct w; [done | simpl; lia].
Qed.

Lemma strip_ws_app s r z : strip_ws s = Some r -> strip_ws (s +:+ z) = Some (r +:+ z).
Proof. intros (w & -> & _ & _ & H)%strip_ws_Some. by rewrite string_app_assoc. Qed.

Lemma strip_ws_plain c q : plain c = true -> strip_ws (String c q) = None.
Proof.
  intros Hc. cbn [strip_ws]. rewrite (plain_not_ws c Hc).
  destruct q as [|c2 q]; [done|].
  destruct (Js.is_ws2 c c2) eqn:H2.
  { destruct (is_ws2_high _ _ H2) as (_ & P & _). congruence. }
  destruct q as [|c3 q]; [done|].
  destruct (Js.is_ws3 c c2 c3) eqn:H3; [|done].
  destruct (is_ws3_high _ _ _ H3) as (_ & _ & P & _). congruence.
Qed.

Lemma strip_ws_app_plain a c q :
  plain c = true -> strip_ws a = None -> strip_ws (a +:+ String c q) = None.
Proof.
  intros Hc. destruct a as [|c1 a].
  { intros _. change ("" +:+ String c q) with (String c q). by apply strip_ws_plain. }
  change (String c1 a +:+ String c q) with (String c1 (a +:+ String c q)).
  cbn [strip_ws]. destruct (Js.is_ws c1) eqn:H1; [done|].
  destruct a as [|c2 a].
  { intros _. change ("" +:+ String c q) with (String c q). cbv iota.
    destruct (Js.is_ws2 c1 c) eqn:H2.
    { destruct (is_ws2_high _ _ H2) as (_ & _ & P). congruence. }
    destruct q as [|c3 q]; [done|].
    destruct (Js.is_ws3 c1 c c3) eqn:H3; [|done].
    destruct (is_ws3_high _ _ _ H3) as (_ & _ & _ & P & _). congruence. }
  change (String c2 a +:+ String c q) with (String c2 (a +:+ String c q)). cbv iota.
  destruct (Js.is_ws2 c1 c2) eqn:H2; [done|].
  destruct a as [|c3 a].
  { intros _. change ("" +:+ String c q) with (String c q). cbv iota.
    destruct (Js.is_ws3 c1 c2 c) eqn:H3; [|done].
    destruct (is_ws3_high _ _ _ H3) as (_ & _ & _ & _ & P). congruence. }
  change (String c3 a +:+ String c q) with (String c3 (a +:+ String c q)). cbv iota.
  by destruct (Js.is_ws3 c1 c2 c3).
Qed.

(** [trimStart] takes white-space characters off one by one. *)
Lemma trimStart_strip s :
  Js.trimStart s = match strip_ws s with Some r => Js.trimStart r | None => s end.
Proof.
  destruct s as [|c1 s]; [done|]. cbn [strip_ws Js.trimStart].
  destruct (Js.is_ws c1); [done|].
  destruct s as [|c2 s]; [done|]. destruct (Js.is_ws2 c1 c2); [done|].
  destruct s as [|c3 s]; [done|]. by destruct (Js.is_ws3 c1 c2 c3).
Qed.

Lemma trimStart_suffix s : exists w, s = w +:+ Js.trimStart s.
Proof.
  induction s as [s IH] using string_len_ind. rewrite trimStart_strip.
  destruct (strip_ws s) as [r|] eqn:E; [|by exists ""].
  destruct (IH r (strip_ws_length _ _ E)) as [w Hw].
  apply strip_ws_Some in E as (w0 & -> & _). exists (w0 +:+ w).
  by rewrite string_app_assoc, <- Hw.
Qed.

Lemma trimStart_stops s : strip_ws (Js.trimStart s) = None.
Proof.
  induction s as [s IH] using string_len_ind. rewrite trimStart_strip.
  destruct (strip_ws s) as [r|] eqn:E; [|done]. apply IH. by eapply strip_ws_length.
Qed.

Lemma trimStart_none s : strip_ws s = None -> Js.trimStart s = s.
Proof. intros H. by rewrite trimStart_strip, H. Qed.

Lemma trimStart_app_plain a c q :
  plain c = true -> Js.trimStart (a +:+ String c q) = Js.trimStart a +:+ String c q.
Proof.
  intros Hc. induction a as [a IH] using string_len_ind.
  rewrite (trimStart_strip a), (trimStart_strip (a +:+ String c q)).
  destruct (strip_ws a) as [r|] eqn:E.
  - rewrite (strip_ws_app _ _ _ E). apply IH. by eapply strip_ws_length.
  - by rewrite strip_ws_app_plain.
Qed.

Lemma blank_app a b : Js.blank a = true -> Js.trimStart (a +:+ b) = Js.trimStart b.
Proof.
  unfold Js.blank. induction a as [a IH] using string_len_ind. intros H.
  rewrite trimStart_strip in H.
  destruct (strip_ws a) as [r|] eqn:E.
  - rewrite trimStart_strip, (strip_ws_app _ _ _ E). apply IH; [|done].
    by eapply strip_ws_length.
  - destruct a; [done | discriminate H].
Qed.

Lemma blank_app_plain a c q : plain c = true -> Js.blank (a +:+ String c q) = false.
Proof.
  intros Hc. unfold Js.blank. rewrite trimStart_app_plain by done.
  by destruct (Js.trimStart a).
Qed.

Lemma trimEnd_cons_plain c r : plain c = true -> Js.trimEnd (String c r) = String c (Js.trimEnd r).
Proof.
  intros Hc. cbn [Js.trimEnd]. change (String c r) with ("" +:+ String c r) at 1.
  by rewrite blank_app_plain.
Qed.

Lemma trimEnd_app_plain a c r :
  plain c = true -> Js.trimEnd (a +:+ String c r) = a +:+ String c (Js.trimEnd r).
Proof.
  intros Hc. induction a as [|c' a IH]; [by apply trimEnd_cons_plain|].
  change (String c' a +:+ String c r) with (String c' (a +:+ String c r)).
  cbn [Js.trimEnd]. rewrite IH.
  change (String c' (a +:+ String c r)) with (String c' a +:+ String c r) at 1.
  by rewrite blank_app_plain.
Qed.

Lemma trimEnd_split s : exists w, s = Js.trimEnd s +:+ w /\ Js.blank w = true.
Proof.
  induction s as [|c s (w & IH & Hw)]; [by exists ""|]. cbn [Js.trimEnd].
  destruct (Js.blank (String c s)) eqn:E; [by exists (String c s)|].
  exists w. split; [|done].
  change (String c (Js.trimEnd s) +:+ w) with (String c (Js.trimEnd s +:+ w)). by rewrite <- IH.
Qed.

Lemma trimEnd_length s : (String.length (Js.trimEnd s) <= String.length s)%nat.
Proof.
  destruct (trimEnd_split s) as (w & E & _). rewrite E at 2. rewrite string_app_length. lia.
Qed.

Lemma blank_trimEnd s : Js.blank s = false -> Js.blank (Js.trimEnd s) = false.
Proof.
  intros H. destruct (Js.blank (Js.trimEnd s)) eqn:E; [|done].
  destruct (trimEnd_split s) as (w & Hs & Hw).
  unfold Js.blank in H, Hw. rewrite Hs, (blank_app _ _ E) in H.
  destruct (Js.trimStart w); [done | discriminate Hw].
Qed.

Lemma trimEnd_idem s : Js.trimEnd (Js.trimEnd s) = Js.trimEnd s.
Proof.
  induction s as [|c s IH]; [done|]. cbn [Js.trimEnd].
  destruct (Js.blank (String c s)) eqn:E; [done|].
  cbn [Js.trimEnd]. rewrite IH.
  pose proof (blank_trimEnd (String c s) E) as H. cbn [Js.trimEnd] in H. rewrite E in H.
  by rewrite H.
Qed.

Lemma strip_ws_trimEnd s : strip_ws s = None -> strip_ws (Js.trimEnd s) = None.
Proof.
  intros H. destruct (strip_ws (Js.trimEnd s)) as [r|] eqn:E; [|done].
  destruct (trimEnd_split s) as (w & Hs & _).
  rewrite Hs, (strip_ws_app _ _ w E) in H. discriminate H.
Qed.

Lemma trim_idem s : Js.trim (Js.trim s) = Js.trim s.
Proof.
  unfold Js.trim.
  rewrite (trimStart_none (Js.trimEnd (Js.trimStart s)))
    by apply strip_ws_trimEnd, trimStart_stops.
  apply trimEnd_idem.
Qed.

Lemma trim_fixed r : Js.trim r = r -> Js.trimStart r = r /\ Js.trimEnd r = r.
Proof.
  unfold Js.trim. intros H.
  assert (Hs : Js.trimStart r = r).
  { destruct (trimStart_suffix r) as [w E].
    pose proof (trimEnd_length (Js.trimStart r)) as H1. rewrite H in H1.
    assert (Hl : String.length r = (String.length w + String.length (Js.trimStart r))%nat)
      by (rewrite E at 1; apply string_app_length).
    destruct w; [done | simpl in Hl; lia]. }
  split; [done|]. by rewrite Hs in H.
Qed.

Lemma none_of_trimStart P s : none_of P s = true -> none_of P (Js.trimStart s) = true.
Proof.
  destruct (trimStart_suffix s) as [w E]. rewrite E at 1. rewrite none_of_app.
  by intros [_ ?]%andb_prop.
Qed.

Lemma none_of_trimEnd P s : none_of P s = true -> none_of P (Js.trimEnd s) = true.
Proof.
  destruct (trimEnd_split s) as (w & E & _). rewrite E at 1. rewrite none_of_app.
  by intros [? _]%andb_prop.
Qed.

Lemma none_of_trim P s : none_of P s = true -> none_of P (Js.trim s) = true.
Proof. intros H. by apply none_of_trimEnd, none_of_trimStart. Qed.

Lemma trim_digits ds : Js.all_digits ds = true -> Js.trim ds = ds.
Proof.
  intros H. unfold Js.trim.
  assert (Js.trimStart ds = ds) as ->.
  { destruct ds as [|c ds]; [done|]. simpl in H. apply andb_prop in H as [Hc _].
    apply trimStart_none, strip_ws_plain. by apply digit_plain. }
  induction ds as [|c ds IH]; [done|]. simpl in H. apply andb_prop in H as [Hc Hd].
  rewrite trimEnd_cons_plain by (by apply digit_plain). by rewrite IH.
Qed.

Lemma test_digits_inv ds :
  Js.test_digits ds = true -> Js.nonempty ds = true /\ Js.all_digits ds = true.
Proof. unfold Js.test_digits. by intros ?%andb_prop. Qed.

(** An item made of an id alone. *)
Lemma item_plain ds :
  Js.test_digits ds = true ->
  Js.nonempty (Js.trim ds) = true /\ parts_of (Js.trim ds) = [ds] /\
  well_formed ds = true /\ item_id ds = Js.Number ds /\
  tail (Js.split_char ":" ds) = [].
Proof.
  intros [Hne Hd]%test_digits_inv.
  destruct (all_digits_none ds Hd) as (Hsep & Hcol).
  rewrite trim_digits by done. unfold parts_of, well_formed, item_id.
  rewrite split_runs_none by done. simpl. rewrite trim_digits by done. rewrite Hne.
  rewrite (split_char_none ":" ds) by exact Hcol. simpl. rewrite trim_digits by done.
  unfold Js.test_digits. by rewrite Hne, Hd.
Qed.

(** An item made of an id, a colon and an endpoint that has no separator
    in it and no white space at its ends. *)
Lemma item_with_rpc ds r :
  Js.test_digits ds = true ->
  Js.nonempty r = true -> Js.trim r = r -> none_of is_sep r = true ->
  let p := ds +:+ ":" +:+ r in
  Js.nonempty (Js.trim p) = true /\ parts_of (Js.trim p) = [p] /\
  well_formed p = true /\ item_id p = Js.Number ds /\
  exists q qs, tail (Js.split_char ":" p) = q :: qs /\ Js.trim (Js.join ":" (q :: qs)) = r.
Proof.
  intros [Hne Hd]%test_digits_inv Hr Htrim Hsep p.
  assert (Hpe : p = ds +:+ String ":" r) by reflexivity. clearbody p. subst p.
  destruct (all_digits_none ds Hd) as (Hsepd & Hcol).
  destruct (trim_fixed r Htrim) as [_ Hend].
  assert (Hp : Js.trim (ds +:+ String ":" r) = ds +:+ String ":" r).
  { unfold Js.trim.
    rewrite trimStart_app_plain, trimEnd_app_plain, Hend by done.
    assert (Js.trim ds = ds) as Hds by (by apply trim_digits).
    by destruct (trim_fixed ds Hds) as [-> _]. }
  assert (Hnep : Js.nonempty (ds +:+ String ":" r) = true) by (by destruct ds).
  rewrite Hp. split; [done|]. split.
  { unfold parts_of. rewrite split_runs_none.
    - cbn [map List.filter]. by rewrite Hp, Hnep.
    - rewrite none_of_app. cbn [none_of]. rewrite Hsepd, Hsep. reflexivity. }
  unfold well_formed, item_id.
  rewrite (split_char_app ":" ds r) by exact Hcol.
  rewrite trim_digits by done. split; [unfold Js.test_digits; by rewrite Hne, Hd|].
  split; [done|]. cbn [tail].
  destruct (split_char_cons ":" r) as (q & qs & E). exists q, qs. split; [done|].
  rewrite <- E. change ":" with (String ":" "") at 1. by rewrite join_split_char.
Qed.

(** ** Overriding a configured chain *)

Lemma applyChains_single_default input p k l d s :
  Js.nonempty (Js.trim input) = true ->
  parts_of (Js.trim input) = [p] ->
  well_formed p = true -> item_id p = k ->
  DEFAULT_CHAINS !! k = Some l -> objs s !! l = Some d ->
  let rest := tail (Js.split_char ":" p) in
  let rpc := match rest with
             | [] => cfg_rpc d
             | _ => Some (Js.trim (Js.join ":" rest))
             end in
  let meta := mkChain (cfg_id d) (cfg_name d) (Js.or_else (Js.or_else rpc (cfg_rpc d)) None)
                (cfg_explorer d) (cfg_native d) in
  getConfig (applyChains input s) k = Some meta /\
  objs (applyChains input s) !! l = Some meta.
Proof.
  intros Hne Hparts Hwf Hid Hk Hl rest rpc meta.
  unfold applyChains. rewrite Hne. simpl negb. cbv iota.
  unfold parseChainsInput. rewrite Hparts.
  change (parse_items [p] (∅, s)) with (parse_item p (∅, s)).
  rewrite parse_item_well_formed by done. rewrite Hid.
  assert (Hd : deref s DEFAULT_CHAINS k = Some (l, d)) by (by apply deref_Some).
  rewrite Hd. fold rest. fold rpc. fold meta.
  match goal with |- getConfig (applyChainsToUI ?x) _ = _ /\ _ => set (s3 := x) end.
  destruct (applyChainsToUI_quiet s3) as (Ho & _ & Hc & _).
  rewrite (getConfig_ext _ _ _ Ho Hc), Ho. subst s3.
  unfold getConfig, deref. simpl.
  rewrite (lookup_union_Some_l _ _ _ (nextLoc s)) by apply lookup_insert_eq.
  rewrite lookup_insert_eq. split; [done|].
  destruct (decide (nextLoc s = l)) as [->|Hneq].
  - by rewrite lookup_insert_eq.
  - by rewrite lookup_insert_ne, lookup_insert_eq.
Qed.

Lemma applyChains_single input p s :
  Js.nonempty (Js.trim input) = true ->
  parts_of (Js.trim input) = [p] ->
  well_formed p = true ->
  getConfig (applyChains input s) (item_id p) = Some (item_meta p s).
Proof.
  intros Hne Hparts Hwf.
  unfold applyChains. rewrite Hne. simpl negb. cbv iota.
  unfold parseChainsInput. rewrite Hparts.
  change (parse_items [p] (∅, s)) with (parse_item p (∅, s)).
  rewrite parse_item_well_formed by done. fold (item_meta p s).
  match goal with |- getConfig (applyChainsToUI ?x) _ = _ => set (s3 := x) end.
  destruct (applyChainsToUI_quiet s3) as (Ho & _ & Hc & _).
  rewrite (getConfig_ext _ _ _ Ho Hc). subst s3.
  unfold getConfig, deref. simpl.
  rewrite (lookup_union_Some_l _ _ _ (nextLoc s)) by apply lookup_insert_eq.
  by rewrite lookup_insert_eq.
Qed.

Lemma same_fixed_with_rpc c d rpc :
  same_fixed c d ->
  mkChain (cfg_id d) (cfg_name d) rpc (cfg_explorer d) (cfg_native d) = with_rpc rpc c.
Proof. unfold with_rpc. intros (-> & -> & -> & ->). reflexivity. Qed.

(** The object built for an item that names a configured chain: the
    configured one with the endpoint the item resolves to. *)
Lemma item_meta_configured p s c :
  Inv s -> well_formed p = true -> getConfig s (item_id p) = Some c ->
  let drpc := match deref s DEFAULT_CHAINS (item_id p) with
              | Some (_, d) => cfg_rpc d
              | None => None
              end in
  let rpc := match tail (Js.split_char ":" p) with
             | [] => drpc
             | rest => Some (Js.trim (Js.join ":" rest))
             end in
  item_meta p s = with_rpc (Js.or_else rpc (Js.or_else drpc None)) c.
Proof.
  intros HI Hwf Hc. pose proof (getConfig_fixed s _ c HI Hc) as Hfc.
  unfold item_meta.
  destruct (deref s DEFAULT_CHAINS (item_id p)) as [[l d]|] eqn:Hd.
  - apply deref_Some in Hd as [Hk Hl].
    destruct (Inv_builtin s _ l HI Hk) as (d' & Hd' & Hfd). simplify_eq.
    rewrite (same_fixed_with_rpc c d)
      by (eapply same_fixed_trans; [exact Hfc | by apply same_fixed_sym]).
    cbv zeta. rewrite or_else_assoc. by destruct (tail _).
  - destruct HI as ((HD & _) & _). apply deref_None_default in Hd; [|done].
    assert (Hcanon : canon (item_id p) =
              mkChain (item_id p) ("Chain " +:+ Js.toString (item_id p)) None "" "")
      by (unfold canon; by rewrite Hd).
    rewrite Hcanon in Hfc. destruct Hfc as (H1 & H2 & H3 & H4). simpl in H1, H2, H3, H4.
    unfold with_rpc. rewrite H1, H2, H3, H4. cbv zeta. rewrite or_else_twice.
    by destruct (tail _).
Qed.

(** C7, as the code has it.  In every state the page can reach chain 137 is
    configured with the name Polygon, and applying ["137:https://x"] leaves
    it with that name and the endpoint ["https://x"].  In general, an item
    that names a configured chain and supplies an endpoint replaces the
    endpoint and nothing else.  An item that names a configured chain
    without an endpoint builds the entry anew from the built-in object or
    from the fallback fields: a built-in chain is left as it is, a chain
    that is not built in loses the endpoint it had. *)
Theorem override_replaces_endpoint (es : list Event) (s : State) (k : N)
    (c : ChainConfig) (ds r : string) :
  run init es = Some s ->
  getConfig s k = Some c ->
  Js.test_digits ds = true -> Js.Number ds = k ->
  Js.nonempty r = true -> Js.trim r = r -> none_of is_sep r = true ->
  (cfg_name <$> getConfig s 137 = Some "Polygon" /\
   getConfig (applyChains "137:https://x" s) 137 =
   Some (mkChain 137 "Polygon" (Some "https://x") "https://polygonscan.com/tx/" "MATIC")) /\
  getConfig (applyChains (ds +:+ ":" +:+ r) s) k = Some (with_rpc (Some r) c) /\
  (is_Some (DEFAULT_CHAINS !! k) -> getConfig (applyChains ds s) k = Some c) /\
  (DEFAULT_CHAINS !! k = None -> getConfig (applyChains ds s) k = Some (with_rpc None c)).
Proof.
  intros Hrun Hc Hds Hnum Hr Htrim Hsep.
  pose proof (run_Inv _ _ _ Hrun Inv_init) as HI.
  pose proof (run_InvA _ _ _ Hrun Inv_init InvA_init) as HA.
  destruct (item_plain ds Hds) as (G1 & G2 & G3 & G4 & G5). rewrite Hnum in G4.
  split; [split|split; [|split]].
  - destruct (Inv_configured_default s 137 3 HI eq_refl) as (c0 & -> & (_ & Hn & _)).
    simpl. by rewrite Hn.
  - destruct (Inv_configured_default s 137 3 HI eq_refl) as (c0 & Hc0 & (H1 & H2 & H3 & H4)).
    change 137%N with (item_id "137:https://x") at 1.
    rewrite applyChains_single by reflexivity.
    rewrite (item_meta_configured "137:https://x" s c0 HI eq_refl Hc0).
    unfold with_rpc. rewrite H1, H2, H3, H4. reflexivity.
  - destruct (item_with_rpc ds r Hds Hr Htrim Hsep)
      as (H1 & H2 & H3 & H4 & q & qs & H5 & H6).
    rewrite Hnum in H4. rewrite <- H4 in Hc |- *.
    rewrite applyChains_single by done.
    rewrite (item_meta_configured _ s c HI H3 Hc), H5, H6.
    unfold Js.or_else at 1. simpl. by rewrite Hr.
  - intros [l Hk]. rewrite <- G4 in Hc, Hk |- *.
    rewrite applyChains_single by done.
    rewrite (item_meta_configured _ s c HI G3 Hc), G5.
    destruct (builtin_configured_equal s _ l c HA Hk Hc) as [-> Hok].
    rewrite or_else_same, Hok. by destruct c.
  - intros Hk. rewrite <- G4 in Hc, Hk |- *.
    rewrite applyChains_single by done.
    rewrite (item_meta_configured _ s c HI G3 Hc), G5.
    unfold deref. by rewrite Hk.
Qed.

Lemma override_replaces_endpoint_witness :
  getConfig (applyChains "999:https://z" custom_configured) 999 =
  Some (mkChain 999 "Chain 999" (Some "https://z") "" "").
Proof.
  exact (proj1 (proj2 (override_replaces_endpoint [EvApplyChains "999:https://y"]
                         custom_configured 999
                         (mkChain 999 "Chain 999" (Some "https://y") "" "")
                         "999" "https://z"
                         eq_refl eq_refl eq_refl eq_refl eq_refl eq_refl eq_refl))).
Defined.

(** C7, as the specification words it, fails for an override that
    specifies no field: chain 999 is configured with an endpoint, the item
    ["999"] supplies none, and applying it leaves chain 999 without one. *)
Lemma override_without_endpoint_resets :
  tail (Js.split_char ":" "999") = [] /\
  getConfig custom_configured 999 = Some (mkChain 999 "Chain 999" (Some "https://y") "" "") /\
  getConfig (applyChains "999" custom_configured) 999 = Some (mkChain 999 "Chain 999" None "" "").
Proof. split; [reflexivity|]. split; vm_compute; reflexivity. Qed.

(** C8.  In a state the page can reach, a batch gives the same result, and
    leaves the same objects, as the batch without its malformed items, and
    every well-formed item of the batch is applied: after the click the
    chain it names is configured, under that id. *)
Theorem malformed_entries_skipped (es : list Event) (s : State) (input : string) :
  run init es = Some s ->
  parseChainsInput (Js.trim input) s =
    parse_items (List.filter well_formed (parts_of (Js.trim input))) (∅, s) /\
  forall p, In p (parts_of (Js.trim input)) -> well_formed p = true ->
    exists c, getConfig (applyChains input s) (item_id p) = Some c /\ cfg_id c = item_id p.
Proof.
  intros Hrun. split; [apply parse_items_filter|].
  intros p Hin Hwf.
  pose proof (applyChains_Inv input s (run_Inv _ _ _ Hrun Inv_init)) as HI.
  assert (Hsome : is_Some (configuredChains (applyChains input s) !! item_id p)).
  { unfold applyChains.
    destruct (Js.nonempty (Js.trim input)) eqn:Hne; simpl.
    2:{ destruct (Js.trim input); [done | discriminate Hne]. }
    unfold parseChainsInput.
    pose proof (parse_items_applies (parts_of (Js.trim input)) ∅ s p Hin Hwf) as [l Hl].
    destruct (parse_items (parts_of (Js.trim input)) (∅, s)) as [parsed s1].
    destruct (applyChainsToUI_quiet
                (set_providers ∅ (set_configuredChains (parsed ∪ configuredChains s1) s1)))
      as (_ & _ & -> & _).
    simpl in *. exists l. by apply lookup_union_Some_l. }
  destruct Hsome as [l Hl]. destruct HI as ((_ & HC & _) & _).
  destruct (HC _ l Hl) as (_ & c & Hc & (Hid & _)).
  exists c. split; [|by rewrite Hid, canon_id].
  unfold getConfig, deref. by rewrite Hl, Hc.
Qed.

Lemma malformed_entries_skipped_witness :
  exists c, getConfig (applyChains "abc, 999:https://y, -1, 7x:z" init) 999 = Some c /\
    cfg_id c = 999%N.
Proof.
  apply (proj2 (malformed_entries_skipped [] init "abc, 999:https://y, -1, 7x:z" eq_refl)
           "999:https://y"); [vm_compute; tauto | reflexivity].
Defined.

(** C10.  Let [k] be a built-in chain.  Applying an input that gives [k] the
    endpoint [r] stores [r] in the built-in object of [k] itself, not only in
    the configured copy.  Whatever happens next short of another change of
    configuration, applying an input that names [k] without an endpoint
    configures [k] with [r], the endpoint supplied last, and not with the
    endpoint the script started with. *)
Theorem override_mutates_builtin (es : list Event) (s : State) (k : N) (l : loc)
    (ds ds' r : string) :
  run init es = Some s ->
  DEFAULT_CHAINS !! k = Some l ->
  Js.test_digits ds = true -> Js.Number ds = k ->
  Js.test_digits ds' = true -> Js.Number ds' = k ->
  Js.nonempty r = true -> Js.trim r = r -> none_of is_sep r = true ->
  let s1 := applyChains (ds +:+ ":" +:+ r) s in
  cfg_rpc <$> objs s1 !! l = Some (Some r) /\
  cfg_rpc <$> getConfig s1 k = Some (Some r) /\
  forall es' s2, no_apply es' -> run s1 es' = Some s2 ->
    cfg_rpc <$> objs s2 !! l = Some (Some r) /\
    cfg_rpc <$> getConfig (applyChains ds' s2) k = Some (Some r).
Proof.
  intros Hrun Hk Hds Hnum Hds' Hnum' Hr Htrim Hsep s1.
  pose proof (run_Inv _ _ _ Hrun Inv_init) as HI.
  destruct (Inv_builtin s k l HI Hk) as (d & Hd & _).
  destruct (item_with_rpc ds r Hds Hr Htrim Hsep)
    as (H1 & H2 & H3 & H4 & q & qs & H5 & H6).
  rewrite Hnum in H4.
  destruct (applyChains_single_default _ _ k l d s H1 H2 H3 H4 Hk Hd) as [Hg Ho].
  rewrite H5, H6, or_else_supplied in Hg, Ho by done.
  fold s1 in Hg, Ho. rewrite Ho, Hg. split; [done|]. split; [done|].
  intros es' s2 Hna Hrun2.
  destruct (run_quiet _ _ _ Hna Hrun2) as (Hobj & _).
  rewrite Hobj, Ho. split; [done|].
  destruct (item_plain ds' Hds') as (G1 & G2 & G3 & G4 & G5).
  rewrite Hnum' in G4.
  assert (Hl2 : objs s2 !! l = Some (mkChain (cfg_id d) (cfg_name d) (Some r)
                                       (cfg_explorer d) (cfg_native d)))
    by (by rewrite Hobj).
  destruct (applyChains_single_default _ _ k l _ s2 G1 G2 G3 G4 Hk Hl2) as [-> _].
  rewrite G5. simpl. by rewrite or_else_supplied.
Qed.

Lemma override_mutates_builtin_witness :
  cfg_rpc <$> objs (applyChains "137:https://x" init) !! 3%nat = Some (Some "https://x") /\
  cfg_rpc <$> getConfig (applyChains "0137" (applyChains "137:https://x" init)) 137
    = Some (Some "https://x").
Proof.
  destruct (override_mutates_builtin [] init 137 3 "137" "0137" "https://x")
    as (H1 & _ & H2); try reflexivity.
  split; [exact H1|].
  exact (proj2 (H2 [] _ ltac:(constructor) eq_refl)).
Defined.

(** ** The provider pool across events *)

(** After a change of configuration the pool holds nothing that was issued
    before it. *)
Lemma applyChains_pool input s :
  Js.nonempty (Js.trim input) = true ->
  (forall k q, providers (applyChains input s) !! k = Some q ->
     (nextProvider s <= prov_id q)%nat) /\
  (nextProvider s <= nextProvider (applyChains input s))%nat.
Proof.
  intros Hne. unfold applyChains. rewrite Hne. simpl.
  unfold parseChainsInput.
  destruct (parse_items (parts_of (Js.trim input)) (∅, s)) as [parsed s1] eqn:E.
  assert (Hn : nextProvider s1 = nextProvider s).
  { destruct (parse_items_ok' _ _ _ _ _ E) as (o & n & ->). done. }
  set (s3 := set_providers ∅ _).
  assert (H3 : (forall k q, providers s3 !! k = Some q -> (nextProvider s <= prov_id q)%nat) /\
               (nextProvider s <= nextProvider s3)%nat).
  { subst s3. simpl. split; [|lia]. intros k q H. by rewrite lookup_empty in H. }
  unfold applyChainsToUI. destruct (first_key _); [|done].
  unfold updateBalanceForSelectedChain. destruct (wallet s3); [|done].
  destruct (getConfig s3 n); [|done].
  apply ensureProvider_ids; apply H3.
Qed.

(** C9.  In a state the page can reach, let chain [c] be configured with a
    non-empty endpoint.  Then [ensureProvider c] returns a handle [p]; as
    long as no chains input is applied, every later call, whatever events
    come in between, returns the same [p] and changes nothing.  Once a
    non-empty chains input is applied, a call for any chain [c'] returns a
    handle issued after every handle of the pool as it was before: the whole
    pool has been dropped, also for chains the input does not name. *)
Theorem provider_cached_until_invalidated (es : list Event) (s : State) (c : N)
    (cfg : ChainConfig) (url : string) :
  run init es = Some s ->
  getConfig s c = Some cfg -> cfg_rpc cfg = Some url -> Js.nonempty url = true ->
  exists p s1,
    ensureProvider c s = (Ok p, s1) /\
    (forall es' s2, no_apply es' -> run s1 es' = Some s2 ->
       ensureProvider c s2 = (Ok p, s2) /\
       forall input c' p' s3,
         Js.nonempty (Js.trim input) = true ->
         ensureProvider c' (applyChains input s2) = (Ok p', s3) ->
         (prov_id p < prov_id p')%nat /\
         forall k q, providers s2 !! k = Some q -> (prov_id q < prov_id p')%nat).
Proof.
  intros Hrun Hc Hu Hne. pose proof (run_Inv _ _ _ Hrun Inv_init) as HI.
  destruct (ensureProvider_valid c s cfg url Hc Hu Hne) as (p & s1 & He).
  exists p, s1. split; [done|].
  intros es' s2 Hna Hrun2.
  destruct (ensureProvider_Ok _ _ _ _ He) as [Hp1 _].
  assert (HI1 : Inv s1).
  { pose proof (ensureProvider_pool_only c s) as H1.
    pose proof (ensureProvider_grows c s) as H2. rewrite He in H1, H2.
    eapply quiet_step_Inv; [|exact HI]. by apply pool_only_quiet. }
  destruct (run_quiet _ _ _ Hna Hrun2) as (_ & _ & _ & (_ & Hmono & _) & _).
  pose proof (Hmono c p Hp1) as Hp2.
  split; [by apply ensureProvider_cached|].
  intros input c' p' s3 Hin He'.
  assert (HI2 : Inv s2) by (by eapply run_Inv).
  destruct HI2 as (_ & HP2 & _).
  destruct (applyChains_pool input s2 Hin) as [Hids Hnext].
  assert (Hnew : (nextProvider s2 <= prov_id p')%nat).
  { destruct (ensureProvider_Ok _ _ _ _ He') as [_ [[Hc' _]|[_ ->]]]; [|done].
    by apply (Hids c'). }
  split.
  - specialize (HP2 c p Hp2). lia.
  - intros k q Hq. specialize (HP2 k q Hq). lia.
Qed.

Lemma provider_cached_until_invalidated_witness :
  exists p s1,
    ensureProvider 137 (set_wallet (Some wA) init) = (Ok p, s1) /\
    ensureProvider 137 s1 = (Ok p, s1) /\
    forall p' s3, ensureProvider 137 (applyChains "999:https://y" s1) = (Ok p', s3) ->
      (prov_id p < prov_id p')%nat.
Proof.
  destruct (provider_cached_until_invalidated [EvWallet wA] (set_wallet (Some wA) init) 137
              (mkChain 137 "Polygon" (Some "https://polygon-rpc.com")
                 "https://polygonscan.com/tx/" "MATIC") "https://polygon-rpc.com")
    as (p & s1 & He & H); try reflexivity.
  exists p, s1. split; [exact He|].
  destruct (H [] s1 ltac:(constructor) eq_refl) as [H1 H2].
  split; [exact H1|].
  intros p' s3 He'. exact (proj1 (H2 "999:https://y" 137%N p' s3 eq_refl He')).
Defined.

(** ** A chain without an endpoint among the selected ones *)

(** C3 at a concrete input.  Chain 2 has been configured without an
    endpoint and chain 5 has its built-in one.  Started on its own, chain 5
    gets its monitor; selected after chain 2, it gets none: the exception of
    [ensureProvider] for chain 2 leaves [forEach] and [startMonitoring]. *)
Theorem missing_rpc_aborts_siblings :
  exists s0,
    run init trace_no_rpc = Some s0 /\
    (exists p s1, ensureProvider 5 s0 = (Ok p, s1)) /\
    is_Some (monitors (snd (startMonitoring [5%N] "" "" s0)) !! 5%N) /\
    fst (startMonitoring [2%N; 5%N] "" "" s0) = Throw "No RPC configured for chain 2" /\
    monitors (snd (startMonitoring [2%N; 5%N] "" "" s0)) = ∅ /\
    timers (snd (startMonitoring [2%N; 5%N] "" "" s0)) = ∅.
Proof.
  eexists. split; [vm_compute; reflexivity|].
  split; [eexists _, _; vm_compute; reflexivity|].
  split; [vm_compute; eauto|].
  split; [vm_compute; reflexivity|].
  split; vm_compute; reflexivity.
Qed.

(** ** Subscribing twice *)

Lemma distinct_subset a l : a ∈ distinct l -> a ∈ l.
Proof.
  revert a. induction l as [|b l IH]; intros a; simpl; [done|].
  intros [->|H]%elem_of_cons; [left|right].
  apply IH. apply list_elem_of_In in H. apply filter_In in H as [H _].
  by apply list_elem_of_In.
Qed.

Lemma distinct_NoDup l : NoDup (distinct l).
Proof.
  induction l as [|a l IH]; simpl; constructor.
  - intros H. apply list_elem_of_In, filter_In in H as [_ H].
    by rewrite String.eqb_refl in H.
  - apply NoDup_ListNoDup, List.NoDup_filter, NoDup_ListNoDup, IH.
Qed.

(** C4, as the code has it.  Nothing records which pairs are subscribed:
    the end of every [subscribeTokenTransfer] call that gets there registers
    a new live listener for its pair, so that the pair has one more than
    before.  Duplicates are kept out upstream only: [startMonitoring] skips
    a chain that has a monitor, and the token addresses it discovers are
    distinct. *)
Theorem subscription_adds_listener (es : list Event) (s : State) (c : N)
    (tok a : string) (fromBlock toBlock : Z) :
  run init es = Some s -> wallet s = Some a ->
  let s' := attach c tok s in
  resume (TSubLogs c tok fromBlock toBlock) (RLogs []) s = Some s' /\
  resume (TSubLogs c tok fromBlock toBlock) RReject s = Some s' /\
  listeners s !! nextListener s = None /\
  listeners s' = <[nextListener s := mkListener c tok a]> (listeners s) /\
  size (live c tok s') = S (size (live c tok s)) /\
  (forall tokens siteAddr m, monitors s !! c = Some m ->
     start_chain tokens siteAddr c s = (Ok tt, s)) /\
  (forall logs, NoDup (distinct (map log_address logs))).
Proof.
  intros Hrun Hw s'. pose proof (run_Inv _ _ _ Hrun Inv_init) as (_ & _ & HL & _).
  assert (Hfresh : listeners s !! nextListener s = None).
  { destruct (listeners s !! nextListener s) eqn:E; [|done].
    specialize (HL (nextListener s)). rewrite E in HL. specialize (HL ltac:(eauto)). lia. }
  assert (Hls : listeners s' = <[nextListener s := mkListener c tok a]> (listeners s)).
  { unfold s', attach. by rewrite Hw. }
  split; [done|]. split; [done|]. split; [done|]. split; [done|]. split.
  - unfold live. rewrite Hls. rewrite map_filter_insert_True by done.
    apply map_size_insert_None. by apply map_lookup_filter_None_2; left.
  - split; [|intros; apply distinct_NoDup].
    intros tokens siteAddr m Hm. unfold start_chain. by rewrite Hm.
Qed.

Lemma subscription_adds_listener_witness :
  size (live 1 "0xTOK" (attach 1 "0xTOK" started)) = S (size (live 1 "0xTOK" started)).
Proof.
  destruct (subscription_adds_listener [EvWallet wA; EvStart [1%N] "" ""] started 1
              "0xTOK" wA 0 100) as (_ & _ & _ & _ & H & _);
    [vm_compute; reflexivity | reflexivity | exact H].
Defined.

(** C4, as the specification words it, fails: with the same token named
    twice in the token input, chain 1 ends up with two live listeners for
    that one token. *)
Lemma duplicate_listeners :
  exists s, run init trace_twice = Some s /\
    size (live 1 "0xTOK" s) = 2%nat /\ ~ (size (live 1 "0xTOK" s) <= 1)%nat.
Proof.
  eexists. split; [vm_compute; reflexivity|].
  assert (H : size (live 1 "0xTOK"
                (default init (run init trace_twice))) = 2%nat) by (vm_compute; reflexivity).
  split; [exact H|]. intros Hle. vm_compute in Hle. lia.
Qed.

(** ** Stopping with calls in flight *)

(** C2, as the code has it.  In a state the page can reach,
    [stopMonitoring] leaves no monitor and no running interval, so no tick
    starts afterwards, and it detaches every recorded listener that was
    registered under the address of the current wallet.  It does not touch
    the sink, nor the bodies waiting for an RPC answer: each of them still
    runs, from where it waits, when its answer arrives. *)
Theorem stop_cancels_recorded_handles (es : list Event) (s : State) :
  run init es = Some s ->
  let s' := stopMonitoring s in
  monitors s' = ∅ /\ timers s' = ∅ /\
  (forall t, step s' (EvTimer t) = None) /\
  (forall c m lid l from to value txHash,
      monitors s !! c = Some m -> lid ∈ tokenListeners m ->
      listeners s !! lid = Some l -> wallet s = Some (l_filterTo l) ->
      listeners s' !! lid = None /\ step s' (EvTransfer lid from to value txHash) = None) /\
  tasks s' = tasks s /\ posted s' = posted s /\ seenTxs s' = seenTxs s /\
  (forall i T r, tasks s !! i = Some T ->
     step s' (EvResponse i r) = resume T r (set_tasks (delete i (tasks s)) s')).
Proof.
  intros Hrun s'. pose proof (run_Inv _ _ _ Hrun Inv_init) as HI.
  pose proof (quiet_step_Inv _ _ (stopMonitoring_quiet s) HI) as (_ & _ & _ & HT).
  fold s' in HT.
  assert (Hmon : monitors s' = ∅) by apply stopMonitoring_monitors.
  assert (Htm : timers s' = ∅).
  { apply set_eq. intros t. split; [|by intros ?%not_elem_of_empty].
    intros Ht. destruct (HT t Ht) as (c & m & Hc & _).
    rewrite Hmon, lookup_empty in Hc. done. }
  split; [done|]. split; [done|]. split.
  { intros t. simpl. rewrite Htm. by rewrite bool_decide_eq_false_2 by set_solver. }
  split.
  { intros c m lid l from to value txHash Hm Hin Hl Hw.
    assert (Hd : listeners s' !! lid = None).
    { unfold s', stopMonitoring. eapply stop_chains_detaches; try done.
      apply list_elem_of_fmap. exists (c, m). split; [done|].
      by apply elem_of_map_to_list. }
    split; [done|]. simpl. by rewrite Hd. }
  destruct (stop_chains_frame (map_to_list (monitors s)).*1 s) as (H1 & H2 & _ & H4 & _).
  fold (stopMonitoring s) in H1, H2, H4. fold s' in H1, H2, H4.
  split; [done|]. split; [done|]. split; [done|].
  intros i T r Hi. simpl. by rewrite H1, Hi.
Qed.

Lemma stop_cancels_recorded_handles_witness :
  timers started = {[1%nat]} /\
  timers (stopMonitoring started) = ∅ /\
  tasks (stopMonitoring started) = tasks started.
Proof.
  destruct (stop_cancels_recorded_handles [EvWallet wA; EvStart [1%N] "" ""] started)
    as (_ & Ht & _ & _ & Hts & _); [vm_compute; reflexivity|].
  split; [vm_compute; reflexivity|]. split; [exact Ht | exact Hts].
Defined.

(** C2, as the specification words it, fails.  Monitoring is stopped while
    a tick waits for the latest block; the sink is empty then, and no
    interval or monitor is left.  The answers that arrive afterwards are not
    discarded: the block is scanned and its transfer reaches the sink. *)
Lemma stop_keeps_in_flight_results :
  exists s_stop s_end,
    run init trace_stop = Some s_stop /\
    posted s_stop = [] /\ timers s_stop = ∅ /\ monitors s_stop = ∅ /\
    run s_stop trace_after_stop = Some s_end /\
    posted s_end = [(1%N, native_info tx2)] /\
    posted s_end <> posted s_stop.
Proof.
  eexists _, _. split; [vm_compute; reflexivity|].
  split; [reflexivity|]. split; [vm_compute; reflexivity|].
  split; [vm_compute; reflexivity|].
  split; [vm_compute; reflexivity|].
  split; [reflexivity|]. discriminate.
Qed.

(** * Further properties *)

(** ** Built-in chains keep an endpoint *)

Lemma or_else_truthy a b :
  Js.truthy b = true -> Js.truthy (Js.or_else (Js.or_else a b) None) = true.
Proof.
  intros Hb. unfold Js.or_else. destruct (Js.truthy a) eqn:Ha; rewrite ?Ha, ?Hb; done.
Qed.

Lemma InvB_init : InvB init.
Proof.
  intros k l H. apply DEFAULT_CHAINS_lookup in H.
  repeat (apply elem_of_cons in H as [[= -> ->]|H];
          [eexists; split; [by vm_compute | reflexivity]|]).
  by apply elem_of_nil in H.
Qed.

Lemma parse_item_InvB p result s result' s' :
  map_ok (objs s) (nextLoc s) DEFAULT_CHAINS -> InvB s ->
  parse_item p (result, s) = (result', s') -> InvB s'.
Proof.
  intros HD HB Hp.
  destruct (well_formed p) eqn:Hwf.
  2:{ rewrite parse_item_malformed in Hp by done. by simplify_eq. }
  rewrite parse_item_well_formed in Hp by done.
  destruct (deref s DEFAULT_CHAINS (item_id p)) as [[l0 d]|] eqn:Hd; simplify_eq.
  - apply deref_Some in Hd as [Hk0 Hl0].
    destruct (HB _ _ Hk0) as (d0 & Hd0 & Ht0). simplify_eq.
    intros k l Hk. destruct (HD k l Hk) as (Hlt & _). simpl.
    rewrite lookup_insert_ne by lia.
    destruct (decide (l0 = l)) as [->|Hne].
    + rewrite lookup_insert_eq. eexists. split; [done|]. simpl. by apply or_else_truthy.
    + rewrite lookup_insert_ne by done. by apply (HB k l).
  - intros k l Hk. destruct (HD k l Hk) as (Hlt & _). simpl.
    rewrite lookup_insert_ne by lia. by apply (HB k l).
Qed.

Lemma parse_items_InvB parts result s result' s' :
  map_ok (objs s) (nextLoc s) DEFAULT_CHAINS -> InvB s ->
  parse_items parts (result, s) = (result', s') -> InvB s'.
Proof.
  revert result s. induction parts as [|p parts IH]; intros result s HD HB Hp.
  - simpl in Hp. by simplify_eq.
  - simpl in Hp. destruct (parse_item p (result, s)) as [r1 s1] eqn:E.
    assert (Hs1 : heap_step s s1).
    { destruct (well_formed p) eqn:Hwf.
      - assert (Hr : map_ok (objs s) (nextLoc s) ∅) by apply map_ok_empty.
        destruct (parse_item_ok p ∅ s (parse_item p (∅, s)).1 (parse_item p (∅, s)).2 HD Hr)
          as (Hh & _); [by destruct (parse_item p (∅, s))|].
        rewrite parse_item_well_formed in Hh, E by done. simpl in Hh. by simplify_eq.
      - rewrite parse_item_malformed in E by done. simplify_eq. apply heap_step_refl. }
    eapply IH; [| |exact Hp].
    + by eapply map_ok_heap_step.
    + by eapply parse_item_InvB.
Qed.

Lemma applyChains_InvB input s : Inv s -> InvB s -> InvB (applyChains input s).
Proof.
  intros ((HD & _) & _) HB. unfold applyChains.
  destruct (Js.nonempty (Js.trim input)); simpl; [|done].
  unfold parseChainsInput.
  destruct (parse_items (parts_of (Js.trim input)) (∅, s)) as [parsed s1] eqn:E.
  pose proof (parse_items_InvB _ _ _ _ _ HD HB E) as HB1.
  match goal with |- InvB (applyChainsToUI ?x) => set (s3 := x) end.
  destruct (applyChainsToUI_quiet s3) as (Ho & _).
  unfold InvB. rewrite Ho. exact HB1.
Qed.

Lemma run_InvB es s s' : run s es = Some s' -> Inv s -> InvB s -> InvB s'.
Proof.
  revert s. induction es as [|e es IH]; intros s H HI HB; simpl in H; [by simplify_eq|].
  destruct (step s e) as [s1|] eqn:E; [|done].
  eapply IH; [exact H | by eapply step_Inv |].
  assert (Hcase : (exists input, e = EvApplyChains input) \/
                  (forall input, e <> EvApplyChains input))
    by (destruct e; eauto; right; done).
  destruct Hcase as [[input ->]|Hne].
  - simpl in E. simplify_eq. by apply applyChains_InvB.
  - destruct (step_quiet _ _ _ E Hne) as (Ho & _). unfold InvB. by rewrite Ho.
Qed.

(** X1.  In every state the page can reach, each built-in chain is
    configured with a non-empty endpoint, whatever chains inputs have been
    applied, so [ensureProvider] returns a provider for it and never throws. *)
Theorem builtin_chain_keeps_an_endpoint (es : list Event) (s : State) (k : N) :
  run init es = Some s -> is_Some (DEFAULT_CHAINS !! k) ->
  (exists cfg url,
     getConfig s k = Some cfg /\ cfg_rpc cfg = Some url /\ Js.nonempty url = true) /\
  exists p s1, ensureProvider k s = (Ok p, s1).
Proof.
  intros Hrun [l Hk].
  pose proof (run_Inv _ _ _ Hrun Inv_init) as HI.
  pose proof (run_InvA _ _ _ Hrun Inv_init InvA_init) as HA.
  pose proof (run_InvB _ _ _ Hrun Inv_init InvB_init) as HB.
  destruct (Inv_configured_default s k l HI Hk) as (c & Hc & _).
  destruct (builtin_configured_equal s k l c HA Hk Hc) as [Hd _].
  apply deref_Some in Hd as [_ Hl].
  destruct (HB k l Hk) as (d & Hd & Ht).
  assert (d = c) as -> by congruence.
  destruct (cfg_rpc c) as [url|] eqn:Hu; [|done]. simpl in Ht.
  split; [by exists c, url|]. by eapply ensureProvider_valid.
Qed.

Lemma builtin_chain_keeps_an_endpoint_witness :
  exists p s1, ensureProvider 5 (applyChains "5: , 1:" init) = (Ok p, s1).
Proof.
  apply (builtin_chain_keeps_an_endpoint [EvApplyChains "5: , 1:"] _ 5);
    [reflexivity | by eexists].
Defined.

(** ** The registry only grows *)

Lemma applyChains_configured input s k :
  is_Some (configuredChains s !! k) -> is_Some (configuredChains (applyChains input s) !! k).
Proof.
  intros [l Hl]. unfold applyChains.
  destruct (Js.nonempty (Js.trim input)); simpl; [|eauto].
  unfold parseChainsInput.
  destruct (parse_items (parts_of (Js.trim input)) (∅, s)) as [parsed s1] eqn:E.
  destruct (parse_items_ok' _ _ _ _ _ E) as (o & n & ->).
  match goal with |- is_Some (configuredChains (applyChainsToUI ?x) !! _) => set (s3 := x) end.
  destruct (applyChainsToUI_quiet s3) as (_ & _ & -> & _). subst s3. simpl.
  destruct (parsed !! k) as [l'|] eqn:Ep.
  - exists l'. by apply lookup_union_Some_l.
  - exists l. by rewrite lookup_union_r.
Qed.

Lemma run_configured es s s' k :
  run s es = Some s' -> is_Some (configuredChains s !! k) ->
  is_Some (configuredChains s' !! k).
Proof.
  revert s. induction es as [|e es IH]; intros s H Hk; simpl in H; [by simplify_eq|].
  destruct (step s e) as [s1|] eqn:E; [|done].
  apply (IH s1 H).
  assert (Hcase : (exists input, e = EvApplyChains input) \/
                  (forall input, e <> EvApplyChains input))
    by (destruct e; eauto; right; done).
  destruct Hcase as [[input ->]|Hne].
  - simpl in E. simplify_eq. by apply applyChains_configured.
  - destruct (step_quiet _ _ _ E Hne) as (_ & _ & -> & _). done.
Qed.

(** X2.  A chain that is configured stays configured whatever happens
    next, and its id, name, explorer and native symbol stay what they were:
    no event removes an entry of the registry, and only the endpoint of an
    entry can change. *)
Theorem configured_chain_stays_configured (es es' : list Event) (s s' : State) (k : N)
    (c : ChainConfig) :
  run init es = Some s -> getConfig s k = Some c -> run s es' = Some s' ->
  exists c', getConfig s' k = Some c' /\
    cfg_id c = k /\ cfg_id c' = k /\ cfg_name c' = cfg_name c /\
    cfg_explorer c' = cfg_explorer c /\ cfg_native c' = cfg_native c.
Proof.
  intros Hrun Hc Hrun'.
  pose proof (run_Inv _ _ _ Hrun Inv_init) as HI.
  pose proof (run_Inv _ _ _ Hrun' HI) as HI'.
  destruct (getConfig_fixed s k c HI Hc) as (H1 & H2 & H3 & H4).
  assert (Hk : is_Some (configuredChains s !! k)).
  { unfold getConfig, deref in Hc. destruct (configuredChains s !! k); [eauto | done]. }
  destruct (run_configured _ _ _ k Hrun' Hk) as [l' Hl'].
  destruct HI' as ((_ & HC & _) & _).
  destruct (HC k l' Hl') as (_ & c' & Hc' & (G1 & G2 & G3 & G4)).
  exists c'. rewrite canon_id in H1, G1.
  split; [unfold getConfig, deref; by rewrite Hl', Hc'|].
  repeat split; congruence.
Qed.

Lemma configured_chain_stays_configured_witness :
  exists c', getConfig (logout (applyChains "999" custom_configured)) 999 = Some c' /\
    cfg_name c' = "Chain 999".
Proof.
  destruct (configured_chain_stays_configured [EvApplyChains "999:https://y"]
              [EvApplyChains "999"; EvLogout] custom_configured
              (logout (applyChains "999" custom_configured)) 999
              (mkChain 999 "Chain 999" (Some "https://y") "" ""))
    as (c' & H1 & _ & _ & H2 & _); [reflexivity | by vm_compute | reflexivity |].
  exists c'. split; [exact H1 | exact H2].
Defined.

(** ** What the panel shows for a chain *)

Lemma getConfig_init_None c : DEFAULT_CHAINS !! c = None -> getConfig init c = None.
Proof.
  intros H. unfold getConfig, deref.
  change (configuredChains init) with DEFAULT_CHAINS. by rewrite H.
Qed.

Lemma canon_custom c :
  DEFAULT_CHAINS !! c = None -> canon c = mkChain c ("Chain " +:+ Js.toString c) None "" "".
Proof. intros H. unfold canon. by rewrite H. Qed.

Lemma getConfig_init_builtin c l : DEFAULT_CHAINS !! c = Some l -> getConfig init c = Some (canon c).
Proof.
  intros H. apply DEFAULT_CHAINS_lookup in H.
  repeat (apply elem_of_cons in H as [[= -> ->]|H]; [by vm_compute|]).
  by apply elem_of_nil in H.
Qed.

(** The fields the panel reads are those of [canon], in any state with a
    well-formed registry. *)
Lemma shown_canon s c :
  Inv s ->
  chainName s c = cfg_name (canon c) /\
  shownExplorer s c = cfg_explorer (canon c) /\
  Js.or_else (shownNative s c) None = Js.or_else (Some (cfg_native (canon c))) None.
Proof.
  intros HI. unfold chainName, shownExplorer, shownNative.
  destruct (getConfig s c) as [cfg|] eqn:E.
  - destruct (getConfig_fixed s c cfg HI E) as (_ & -> & -> & ->). done.
  - assert (Hc : DEFAULT_CHAINS !! c = None).
    { destruct (DEFAULT_CHAINS !! c) as [l|] eqn:Hl; [|done].
      destruct (Inv_configured_default s c l HI Hl) as (c0 & Hc0 & _). congruence. }
    by rewrite (canon_custom c Hc).
Qed.

Lemma or_else_falsy_eq a b b' :
  Js.or_else b None = Js.or_else b' None ->
  Js.or_else (Js.or_else a b) (Some "NATIVE") = Js.or_else (Js.or_else a b') (Some "NATIVE").
Proof.
  unfold Js.or_else. destruct (Js.truthy a) eqn:Ha; [by rewrite Ha|].
  destruct (Js.truthy b) eqn:Hb, (Js.truthy b') eqn:Hb'; rewrite ?Hb, ?Hb';
    intros H; try done; subst; simpl in *; congruence.
Qed.

(** X3.  What the panel shows for a chain does not depend on the
    configuration: in every state the page can reach, the name of a chain,
    the token label of a record and the link of its transaction are what
    they would be before any chains input, that is the built-in name,
    native symbol and explorer of a built-in chain and, for any other chain,
    the name [Chain <id>], the label [NATIVE] and the bare hash as link. *)
Theorem display_fields_are_fixed (es : list Event) (s : State) (c : N) (i : Info) :
  run init es = Some s ->
  (chainName s c = chainName init c /\
   tokenLabel s c i = tokenLabel init c i /\
   txHref s c i = txHref init c i) /\
  (DEFAULT_CHAINS !! c = None ->
   chainName s c = "Chain " +:+ Js.toString c /\
   (Js.truthy (info_token i) = false -> tokenLabel s c i = "NATIVE") /\
   (forall h, info_txHash i = Some h -> Js.nonempty h = true -> txHref s c i = Some h)).
Proof.
  intros Hrun. pose proof (run_Inv _ _ _ Hrun Inv_init) as HI.
  destruct (shown_canon s c HI) as (H1 & H2 & H3).
  destruct (shown_canon init c Inv_init) as (G1 & G2 & G3).
  split; [split; [|split]|].
  - congruence.
  - unfold tokenLabel. f_equal. apply or_else_falsy_eq. congruence.
  - unfold txHref. by rewrite H2, G2.
  - intros Hc. rewrite (canon_custom c Hc) in H1, H2, H3. simpl in H1, H2, H3.
    split; [done|]. split.
    + intros Ht. unfold tokenLabel.
      assert (Js.or_else (info_token i) (shownNative s c) = shownNative s c) as ->
        by (unfold Js.or_else; by rewrite Ht).
      revert H3. unfold Js.or_else. simpl.
      destruct (Js.truthy (shownNative s c)); [by intros ->|done].
    + intros h Hh Hne. unfold txHref. by rewrite Hh, Hne, H2.
Qed.

Lemma display_fields_are_fixed_witness :
  chainName custom_configured 999 = "Chain 999" /\
  txHref custom_configured 999 (native_info tx1) = Some "0xabc".
Proof.
  destruct (display_fields_are_fixed [EvApplyChains "999:https://y"] custom_configured 999
              (native_info tx1) eq_refl) as [_ H].
  destruct (H eq_refl) as (H1 & _ & H3).
  split; [exact H1 | exact (H3 "0xabc" eq_refl eq_refl)].
Defined.

(** ** What every step keeps *)

Lemma keeps_refl s : keeps s s.
Proof. constructor; [done | by exists [] | done..]. Qed.

Lemma keeps_trans s1 s2 s3 : keeps s1 s2 -> keeps s2 s3 -> keeps s1 s3.
Proof.
  intros [A1 [n1 B1] C1 D1 E1 F1] [A2 [n2 B2] C2 D2 E2 F2]. constructor; auto.
  - by etrans.
  - exists (n2 ++ n1). by rewrite B2, B1, app_assoc.
Qed.

Lemma sink_only_keeps s s' :
  sink_only s s' -> seenTxs s ⊆ seenTxs s' -> (exists new, posted s' = new ++ posted s) ->
  (InvV s -> InvV s') -> keeps s s'.
Proof.
  intros [Ho _ Hc Hp _ _ Hm Ht Hn Hpl _ _ Hts] Hs Hpo Hv. constructor; try done.
  - unfold InvK. by rewrite Ht, Hn, Hpl, Hm.
  - unfold InvW. by rewrite Hts.
  - unfold InvS, getConfig, deref. by rewrite Hp, Ho, Hc.
Qed.

Lemma pool_only_keeps s s' :
  pool_only s s' -> (InvW s -> InvW s') -> (InvS s -> InvS s') -> keeps s s'.
Proof.
  intros [_ _ _ _ Hm Hse Ha Hpo Ht Hn Hpl _ _] Hw Hs. constructor; try done.
  - by rewrite Hse.
  - exists []. by rewrite Hpo.
  - unfold InvK. by rewrite Ht, Hn, Hpl, Hm.
  - unfold InvV, panel. by rewrite Hpo, Ha.
Qed.

Lemma listeners_only_keeps s s' : listeners_only s s' -> keeps s s'.
Proof.
  intros [Ho _ Hc Hp _ _ Hm Hse Ha Hpo Ht Hn Hpl _ Hts]. constructor.
  - by rewrite Hse.
  - exists []. by rewrite Hpo.
  - unfold InvK. by rewrite Ht, Hn, Hpl, Hm.
  - unfold InvV, panel. by rewrite Hpo, Ha.
  - unfold InvW. by rewrite Hts.
  - unfold InvS, getConfig, deref. by rewrite Hp, Ho, Hc.
Qed.

Lemma recordActivity_cases c i s :
  recordActivity c i s = s \/
  (posted (recordActivity c i s) = (c, i) :: posted s /\
   activity (recordActivity c i s) = mkDelivery c (chainName s c) i :: activity s).
Proof.
  unfold recordActivity.
  destruct (Js.truthy (info_txHash i) && seen (info_txHash i) s); [by left|right].
  destruct (info_txHash i) as [x|]; [destruct (Js.nonempty x)|]; done.
Qed.

Lemma recordActivity_keeps c i s : keeps s (recordActivity c i s).
Proof.
  apply sink_only_keeps; [apply recordActivity_sink_only|..].
  - intros h. apply recordActivity_seen_mono.
  - destruct (recordActivity_cases c i s) as [->|[-> _]]; [by exists [] | by exists [(c, i)]].
  - destruct (recordActivity_cases c i s) as [->|[Hp Ha]]; [done|].
    intros [older H]. exists older. unfold panel. by rewrite Hp, Ha, H.
Qed.

Lemma scan_tx_keeps c site tx s s' : scan_tx c site tx s = Some s' -> keeps s s'.
Proof.
  unfold scan_tx. intros H.
  destruct (to_wallet tx s) as [native|]; [|done].
  set (s1 := if native then _ else s) in H.
  assert (H1 : keeps s s1).
  { subst s1. destruct native; [apply recordActivity_keeps | apply keeps_refl]. }
  destruct (from_site site tx); [|by simplify_eq].
  destruct (to_wallet tx s1) as [[]|]; simplify_eq; [|done].
  eapply keeps_trans; [exact H1 | apply recordActivity_keeps].
Qed.

Lemma scan_txs_keeps c site txs s : keeps s (scan_txs c site txs s).
Proof.
  revert s. induction txs as [|tx txs IH]; intros s; simpl; [apply keeps_refl|].
  destruct (scan_tx c site tx s) as [s'|] eqn:E; [|apply keeps_refl].
  eapply keeps_trans; [by eapply scan_tx_keeps | apply IH].
Qed.

Lemma ensureProvider_tasks c s : tasks (ensureProvider c s).2 = tasks s.
Proof.
  unfold ensureProvider. destruct (providers s !! c); [done|].
  destruct (getConfig s c) as [cfg|]; [|done].
  destruct (cfg_rpc cfg) as [url|]; [|done]. by destruct (Js.nonempty url).
Qed.

Lemma ensureProvider_InvS c s : InvS s -> InvS (ensureProvider c s).2.
Proof.
  intros HS. unfold ensureProvider. destruct (providers s !! c) eqn:Hc; [done|].
  destruct (getConfig s c) as [cfg|] eqn:Hg; [|done].
  destruct (cfg_rpc cfg) as [url|] eqn:Hu; [|done].
  destruct (Js.nonempty url); [|done].
  intros k p. simpl. unfold getConfig, deref. simpl.
  destruct (decide (c = k)) as [->|Hne].
  - rewrite lookup_insert_eq. intros [= <-]. exists cfg. by split.
  - rewrite lookup_insert_ne by done. apply HS.
Qed.

Lemma ensureProvider_keeps c s : keeps s (ensureProvider c s).2.
Proof.
  apply pool_only_keeps; [apply ensureProvider_pool_only | | apply ensureProvider_InvS].
  unfold InvW. by rewrite ensureProvider_tasks.
Qed.

Lemma spawn_keeps T s : task_ok T -> keeps s (spawn T s).
Proof.
  intros HT. apply pool_only_keeps; [apply spawn_pool_only | | done].
  unfold InvW. simpl. intros H. apply Forall_app. split; [done|]. by constructor.
Qed.

Lemma subscribeTokenTransfer_keeps c tok s : keeps s (subscribeTokenTransfer c tok s).
Proof.
  unfold subscribeTokenTransfer.
  pose proof (ensureProvider_keeps c s) as H.
  destruct (ensureProvider c s) as [[p|msg] s1]; simpl in H; [|done].
  eapply keeps_trans; [exact H | by apply spawn_keeps].
Qed.

Lemma subscribe_all_keeps c toks s :
  keeps s (fold_left (fun a tk => subscribeTokenTransfer c tk a) toks s).
Proof.
  revert s. induction toks as [|tok toks IH]; intros s; simpl; [apply keeps_refl|].
  eapply keeps_trans; [apply subscribeTokenTransfer_keeps | apply IH].
Qed.

Lemma attach_keeps c tok s : keeps s (attach c tok s).
Proof.
  unfold attach. destruct (wallet s) as [a|]; [|apply keeps_refl].
  constructor; [done | by exists [] | | done..].
  unfold InvK. simpl. intros [H1 H2]. split.
  - intros t Ht. destruct (H1 t Ht) as (Hlt & p & m & Hp & Hm & Hh).
    split; [done|]. exists p.
    destruct (decide (c = p_chainId p)) as [->|Hne].
    + eexists. split; [done|]. rewrite lookup_insert_eq. split; [done|].
      simpl. by rewrite Hm.
    + exists m. by rewrite lookup_insert_ne.
  - intros c' m t. destruct (decide (c = c')) as [<-|Hne].
    + rewrite lookup_insert_eq. intros [= <-]. simpl.
      destruct (monitors s !! c) as [m0|] eqn:E; simpl; [|done]. by apply H2.
    + rewrite lookup_insert_ne by done. apply H2.
Qed.

Lemma sub_logs_keeps c tok logs s : keeps s (sub_logs c tok logs s).
Proof.
  induction logs as [|log rest IH]; simpl; [apply attach_keeps|].
  destruct (log_args log) eqn:E; [|apply IH].
  apply spawn_keeps. simpl. by rewrite E.
Qed.

Lemma listeners_only_shape s s' : listeners_only s s' -> s' = set_listeners (listeners s') s.
Proof. intros []. destruct s, s'. simpl in *. by subst. Qed.

(** [stop_chain] on a monitored chain, spelled out. *)
Lemma stop_chain_shape c s mon :
  monitors s !! c = Some mon ->
  exists ls,
    stop_chain c s =
    set_monitors (delete c (monitors s))
      (set_timers (match pollHandle mon with
                   | Some t => timers s ∖ {[t]}
                   | None => timers s
                   end) (set_listeners ls s)).
Proof.
  intros Hm. unfold stop_chain. rewrite Hm.
  destruct (off_all (tokenListeners mon) s) as (Hlo & _).
  pose proof (listeners_only_shape _ _ Hlo) as Hs.
  set (s1 := fold_left _ _ s) in *. exists (listeners s1).
  rewrite Hs. by destruct (pollHandle mon).
Qed.

Lemma stop_chain_keeps c s : keeps s (stop_chain c s).
Proof.
  destruct (monitors s !! c) as [mon|] eqn:Hm.
  2:{ unfold stop_chain. rewrite Hm. apply keeps_refl. }
  destruct (stop_chain_shape c s mon Hm) as (ls & ->).
  constructor; [done | by exists [] | | done..].
  unfold InvK. simpl. intros [H1 H2].
  assert (Hin : forall t, t ∈ (match pollHandle mon with
                              | Some t0 => timers s ∖ {[t0]}
                              | None => timers s
                              end) -> t ∈ timers s /\ pollHandle mon <> Some t).
  { intros t. destruct (pollHandle mon) as [t0|]; [|done].
    intros [? Hn]%elem_of_difference. split; [done|]. intros [= ->].
    apply Hn. by apply elem_of_singleton. }
  split.
  - intros t Ht. destruct (Hin t Ht) as [Ht' Hne].
    destruct (H1 t Ht') as (Hlt & p & m & Hp & Hmm & Hh).
    split; [done|]. exists p, m. split; [done|]. split; [|done].
    rewrite lookup_delete_ne; [done|]. intros Hcp. rewrite <- Hcp in Hmm. congruence.
  - intros c' m t Hc' Hh. apply lookup_delete_Some in Hc' as [Hne Hc'].
    destruct (H2 c' m t Hc' Hh) as (Ht & p & Hp & Hpc). split; [|eauto].
    destruct (pollHandle mon) as [t0|] eqn:E; [|done].
    apply elem_of_difference. split; [done|]. intros ->%elem_of_singleton.
    destruct (H2 c mon t0 Hm E) as (_ & p' & Hp' & Hpc'). congruence.
Qed.

Lemma stop_chains_keeps cs s : keeps s (fold_left (fun a c => stop_chain c a) cs s).
Proof.
  revert s. induction cs as [|c cs IH]; intros s; simpl; [apply keeps_refl|].
  eapply keeps_trans; [apply stop_chain_keeps | apply IH].
Qed.

Lemma stopMonitoring_keeps s : keeps s (stopMonitoring s).
Proof. apply stop_chains_keeps. Qed.

Lemma logout_keeps s : keeps s (logout s).
Proof.
  unfold logout. eapply keeps_trans; [|apply stopMonitoring_keeps].
  constructor; [done | by exists [] | done | | done..].
  intros _. by exists (posted s).
Qed.

Lemma set_polledBlock_keeps t v s : keeps s (set_polledBlock t v s).
Proof.
  constructor; [done | by exists [] | | done..].
  unfold InvK. simpl. intros [H1 H2]. split.
  - intros t' Ht'. destruct (H1 t' Ht') as (Hlt & p & m & Hp & Hm & Hh).
    split; [done|]. destruct (decide (t = t')) as [->|Hne].
    + eexists _, m. rewrite lookup_alter_eq, Hp. simpl. split; [done|]. by split.
    + exists p, m. by rewrite lookup_alter_ne.
  - intros c m t' Hc Hh. destruct (H2 c m t' Hc Hh) as (Ht' & p & Hp & Hpc).
    split; [done|]. destruct (decide (t = t')) as [->|Hne].
    + eexists. rewrite lookup_alter_eq, Hp. simpl. by split.
    + exists p. by rewrite lookup_alter_ne.
Qed.

Lemma poll_next_keeps t b latest s : keeps s (poll_next t b latest s).
Proof.
  unfold poll_next. destruct (_ <=? _)%Z; [by apply spawn_keeps | apply set_polledBlock_keeps].
Qed.

(** [start_chain] on a chain it does start, spelled out. *)
Lemma start_chain_form tokens siteAddr c s p s1 :
  monitors s !! c = None ->
  ensureProvider c s = (Ok p, s1) ->
  let s2 := set_monitors (<[c := mkMonitor [] None]> (monitors s1)) s1 in
  let s3 := match tokens with
            | Some (tok :: toks) =>
                fold_left (fun a tk => subscribeTokenTransfer c tk a) (tok :: toks) s2
            | _ => spawn (TDiscBlockNumber c) s2
            end in
  pool_only s (set_monitors (monitors s) s3) /\ keeps s2 s3 /\
  start_chain tokens siteAddr c s =
  (Ok tt,
   set_monitors (<[c := mkMonitor [] (Some (nextTimer s))]> (monitors s))
     (set_nextTimer (S (nextTimer s))
        (set_timers ({[nextTimer s]} ∪ timers s)
           (set_pollers (<[nextTimer s := mkPoller c siteAddr None]> (pollers s)) s3)))).
Proof.
  intros Hc He s2 s3. unfold start_chain. rewrite Hc, He.
  pose proof (ensureProvider_pool_only c s) as Hpo. rewrite He in Hpo. simpl in Hpo.
  assert (H23 : pool_only s2 s3 /\ keeps s2 s3).
  { subst s3. destruct tokens as [[|tok toks]|].
    - split; [apply spawn_pool_only | by apply spawn_keeps].
    - split; [apply subscribe_all_pool | apply subscribe_all_keeps].
    - split; [apply spawn_pool_only | by apply spawn_keeps]. }
  destruct H23 as [Hpo3 Hk3].
  destruct Hpo as [A1 A2 A3 A4 A5 A6 A7 A8 A9 A10 A11 A12 A13].
  destruct Hpo3 as [B1 B2 B3 B4 B5 B6 B7 B8 B9 B10 B11 B12 B13].
  subst s2. simpl in *.
  split; [constructor; simpl; congruence|]. split; [done|].
  fold s3. f_equal. rewrite B5. simpl. rewrite alter_insert_same. simpl.
  rewrite A5, B10, B9, B11. simpl. rewrite A10, A9, A11.
  assert (Hover : forall m0 m1 x, set_monitors m1 (set_monitors m0 x) = set_monitors m1 x)
    by (by intros ? ? []).
  destruct s3; reflexivity.
Qed.

Lemma start_chain_keeps tokens siteAddr c s : keeps s (start_chain tokens siteAddr c s).2.
Proof.
  destruct (monitors s !! c) as [m|] eqn:Hc.
  { unfold start_chain. rewrite Hc. apply keeps_refl. }
  pose proof (ensureProvider_keeps c s) as Hk1.
  destruct (ensureProvider c s) as [[p|msg] s1] eqn:He.
  2:{ unfold start_chain. by rewrite Hc, He. }
  destruct (start_chain_form tokens siteAddr c s p s1 Hc He) as (Hpo & Hk3 & ->).
  simpl in Hk1 |- *.
  set (s2 := set_monitors (<[c := mkMonitor [] None]> (monitors s1)) s1) in *.
  set (s3 := match tokens with
             | Some (tok :: toks) => _
             | _ => _
             end) in *.
  assert (Hk2 : keeps s1 s2 -> keeps s s3).
  { intros H. eapply keeps_trans; [exact Hk1|]. by eapply keeps_trans. }
  destruct Hpo as [A1 A2 A3 A4 A5 A6 A7 A8 A9 A10 A11 A12 A13]. simpl in *.
  destruct Hk1 as [_ _ _ _ W1 S1]. destruct Hk3 as [_ _ _ _ W3 S3].
  constructor; simpl.
  - by rewrite A6.
  - exists []. by rewrite A8.
  - unfold InvK. simpl. intros [H1 H2]. split.
    + intros t [->%elem_of_singleton|Ht]%elem_of_union.
      * split; [lia|]. exists (mkPoller c siteAddr None), (mkMonitor [] (Some (nextTimer s))).
        simpl. by rewrite !lookup_insert_eq.
      * destruct (H1 t Ht) as (Hlt & p0 & m0 & Hp0 & Hm0 & Hh0).
        split; [lia|]. exists p0, m0. rewrite !lookup_insert_ne; [done| |lia].
        intros Hcp. rewrite <- Hcp in Hm0. congruence.
    + intros c' m t. destruct (decide (c = c')) as [<-|Hne].
      * rewrite lookup_insert_eq. intros [= <-] [= <-].
        split; [by apply elem_of_union_l, elem_of_singleton|].
        eexists. by rewrite lookup_insert_eq.
      * rewrite lookup_insert_ne by done. intros Hm Hh.
        destruct (H2 c' m t Hm Hh) as (Ht & p0 & Hp0 & Hpc).
        split; [by apply elem_of_union_r|]. exists p0. split; [|done].
        rewrite lookup_insert_ne; [done|]. destruct (H1 t Ht). lia.
  - unfold InvV, panel. simpl. by rewrite A8, A7.
  - unfold InvW. simpl. intros H. by apply W3, W1.
  - unfold InvS, getConfig, deref. simpl. intros H.
    specialize (S3 (S1 H)). unfold InvS, getConfig, deref in S3. exact S3.
Qed.

Lemma start_chains_keeps tokens siteAddr cs s : keeps s (start_chains tokens siteAddr cs s).2.
Proof.
  revert s. induction cs as [|c cs IH]; intros s; simpl; [apply keeps_refl|].
  pose proof (start_chain_keeps tokens siteAddr c s) as H.
  destruct (start_chain tokens siteAddr c s) as [[u|msg] s']; simpl in *; [|done].
  eapply keeps_trans; [exact H | apply IH].
Qed.

Lemma startMonitoring_keeps sel toks site s : keeps s (startMonitoring sel toks site s).2.
Proof.
  unfold startMonitoring. destruct (wallet s); [|apply keeps_refl].
  destruct sel; [apply keeps_refl|]. apply start_chains_keeps.
Qed.

Lemma updateBalance_keeps sel s : keeps s (updateBalanceForSelectedChain sel s).
Proof.
  unfold updateBalanceForSelectedChain.
  destruct (wallet s); [|apply keeps_refl].
  destruct (getConfig s sel); [|apply keeps_refl]. apply ensureProvider_keeps.
Qed.

Lemma applyChains_keeps input s : keeps s (applyChains input s).
Proof.
  unfold applyChains. destruct (Js.nonempty (Js.trim input)); simpl; [|apply keeps_refl].
  unfold parseChainsInput.
  destruct (parse_items (parts_of (Js.trim input)) (∅, s)) as [parsed s1] eqn:E.
  destruct (parse_items_ok' _ _ _ _ _ E) as (o & n & ->).
  eapply keeps_trans.
  2:{ unfold applyChainsToUI. destruct (first_key _); [|apply keeps_refl].
      apply updateBalance_keeps. }
  constructor; [done | by exists [] | done..|].
  intros _ k p. simpl. by rewrite lookup_empty.
Qed.

Lemma set_tasks_delete_keeps i s : keeps s (set_tasks (delete i (tasks s)) s).
Proof.
  constructor; [done | by exists [] | done..| |done].
  unfold InvW. simpl. apply Forall_delete.
Qed.

Lemma resume_keeps T r s s' : resume T r s = Some s' -> keeps s s'.
Proof.
  intros H. destruct T, r; simpl in H; simplify_eq; try apply keeps_refl;
    repeat match goal with
    | H : match ?x with _ => _ end = Some _ |- _ => destruct x eqn:?; simplify_eq
    end;
    try apply keeps_refl;
    try (by apply spawn_keeps);
    try apply sub_logs_keeps;
    try apply attach_keeps;
    try apply recordActivity_keeps;
    try apply subscribe_all_keeps;
    try apply set_polledBlock_keeps;
    try apply poll_next_keeps;
    try (eapply keeps_trans; [apply recordActivity_keeps | apply sub_logs_keeps]);
    try (eapply keeps_trans; [apply set_polledBlock_keeps | by apply spawn_keeps]);
    try (eapply keeps_trans; [apply scan_txs_keeps | apply poll_next_keeps]).
Qed.

Lemma step_keeps s e s' : step s e = Some s' -> keeps s s'.
Proof.
  intros H. destruct e; simpl in H; simplify_eq.
  - by constructor; [done | by exists [] | done..].
  - apply updateBalance_keeps.
  - apply logout_keeps.
  - apply applyChains_keeps.
  - apply startMonitoring_keeps.
  - apply stopMonitoring_keeps.
  - case_bool_decide; simplify_eq. by apply spawn_keeps.
  - destruct (listeners s !! lid); simplify_eq. by apply spawn_keeps.
  - destruct (tasks s !! i) as [T|]; simplify_eq.
    eapply keeps_trans; [apply set_tasks_delete_keeps | by eapply resume_keeps].
Qed.

Lemma run_keeps es s s' : run s es = Some s' -> keeps s s'.
Proof.
  revert s. induction es as [|e es IH]; intros s H; simpl in H.
  - simplify_eq. apply keeps_refl.
  - destruct (step s e) as [s1|] eqn:E; [|done].
    eapply keeps_trans; [by eapply step_keeps | by apply IH].
Qed.

Lemma InvK_init : InvK init.
Proof.
  split.
  - intros t H. change (timers init) with (∅ : gset nat) in H.
    by apply not_elem_of_empty in H.
  - intros c m t H. change (monitors init) with (∅ : gmap N Monitor) in H.
    by rewrite lookup_empty in H.
Qed.

Lemma InvV_init : InvV init.
Proof. by exists []. Qed.

Lemma InvW_init : InvW init.
Proof. constructor. Qed.

Lemma InvS_init : InvS init.
Proof.
  intros k p H. change (providers init) with (∅ : gmap N Provider) in H.
  by rewrite lookup_empty in H.
Qed.

(** ** The pool and the configuration *)

(** X4.  In every state the page can reach, a provider held in the pool for
    a chain was opened on the endpoint that chain is configured with now: the
    pool never holds a provider of an endpoint that has been replaced.  The
    endpoint is a non-empty string and the handle was issued by the pool. *)
Theorem pooled_provider_matches_configuration (es : list Event) (s : State) (k : N)
    (p : Provider) :
  run init es = Some s -> providers s !! k = Some p ->
  (exists cfg, getConfig s k = Some cfg /\ cfg_rpc cfg = Some (prov_url p)) /\
  Js.nonempty (prov_url p) = true /\ (prov_id p < nextProvider s)%nat /\
  ensureProvider k s = (Ok p, s).
Proof.
  intros Hrun Hp.
  pose proof (run_Inv _ _ _ Hrun Inv_init) as (_ & HP & _).
  pose proof (run_InvA _ _ _ Hrun Inv_init InvA_init) as (_ & HA).
  pose proof (k_InvS _ _ (run_keeps _ _ _ Hrun) InvS_init) as HS.
  destruct (HS k p Hp) as (cfg & Hc & Hu).
  split; [eauto|]. split; [|split; [by apply (HP k) | by apply ensureProvider_cached]].
  unfold getConfig, deref in Hc.
  destruct (configuredChains s !! k) as [l|]; [|done].
  destruct (objs s !! l) as [c0|] eqn:El; [|done]. simpl in Hc. simplify_eq.
  specialize (HA l cfg El). unfold rpc_ok, Js.or_else in HA. rewrite Hu in HA.
  simpl in HA. by destruct (Js.nonempty (prov_url p)).
Qed.

Lemma pooled_provider_matches_configuration_witness :
  exists cfg,
    getConfig (applyChains "137:https://x" (set_wallet (Some wA) init)) 1 = Some cfg /\
    cfg_rpc cfg = Some "https://cloudflare-eth.com".
Proof.
  exact (proj1 (pooled_provider_matches_configuration
                  [EvWallet wA; EvApplyChains "137:https://x"]
                  (applyChains "137:https://x" (set_wallet (Some wA) init)) 1
                  (mkProvider 0 "https://cloudflare-eth.com") eq_refl ltac:(by vm_compute))).
Defined.

(** ** Intervals and monitors *)

(** X5.  In every state the page can reach, the running intervals and the
    poll handles recorded in the monitors are the same: every running
    interval polls a monitored chain whose monitor records it, every
    recorded handle is a running interval polling that chain, and so no
    chain is polled by two running intervals. *)
Theorem one_interval_per_chain (es : list Event) (s : State) :
  run init es = Some s ->
  (forall t, t ∈ timers s ->
     exists p m, pollers s !! t = Some p /\ monitors s !! p_chainId p = Some m /\
       pollHandle m = Some t) /\
  (forall c m t, monitors s !! c = Some m -> pollHandle m = Some t ->
     t ∈ timers s /\ exists p, pollers s !! t = Some p /\ p_chainId p = c) /\
  (forall t1 t2 p1 p2, t1 ∈ timers s -> t2 ∈ timers s ->
     pollers s !! t1 = Some p1 -> pollers s !! t2 = Some p2 ->
     p_chainId p1 = p_chainId p2 -> t1 = t2).
Proof.
  intros Hrun.
  pose proof (k_InvK _ _ (run_keeps _ _ _ Hrun) InvK_init) as [H1 H2].
  split; [|split; [exact H2|]].
  - intros t Ht. by destruct (H1 t Ht) as (_ & H).
  - intros t1 t2 p1 p2 Ht1 Ht2 Hp1 Hp2 Hc.
    destruct (H1 t1 Ht1) as (_ & q1 & m1 & Hq1 & Hm1 & Hh1).
    destruct (H1 t2 Ht2) as (_ & q2 & m2 & Hq2 & Hm2 & Hh2).
    assert (q1 = p1) as -> by congruence. assert (q2 = p2) as -> by congruence.
    rewrite Hc in Hm1. congruence.
Qed.

Lemma one_interval_per_chain_witness :
  exists p m, pollers started !! 1%nat = Some p /\ monitors started !! p_chainId p = Some m /\
    pollHandle m = Some 1%nat.
Proof.
  apply (proj1 (one_interval_per_chain [EvWallet wA; EvStart [1%N] "" ""] started
                  ltac:(by vm_compute)) 1%nat).
  assert (H : timers started = {[1%nat]}) by (by vm_compute).
  rewrite H. by apply elem_of_singleton.
Defined.

(** ** The seen-set and the sink over time *)

(** X6.  Nothing ever leaves the seen-set or the sink: across any events,
    logout, stopping and chains inputs included, every hash seen before is
    still seen and the sink has only gained messages at its front.  So a
    transaction that was reported once is not reported again, also after the
    panel has been emptied by a logout. *)
Theorem seen_hashes_are_never_forgotten (es : list Event) (s s' : State) :
  run s es = Some s' ->
  seenTxs s ⊆ seenTxs s' /\
  (exists new, posted s' = new ++ posted s) /\
  (forall h c i, h ∈ seenTxs s -> Js.nonempty h = true -> info_txHash i = Some h ->
     recordActivity c i s' = s').
Proof.
  intros Hrun. destruct (run_keeps _ _ _ Hrun) as [Hs Hp _ _ _ _].
  split; [done|]. split; [done|].
  intros h c i Hin Hne Hh. apply (recordActivity_seen c i h); [done..|]. by apply Hs.
Qed.

Lemma seen_hashes_are_never_forgotten_witness :
  recordActivity 137 (site_info tx1)
    (set_wallet (Some wA) (logout (recordActivity 1 (native_info tx1) init))) =
  set_wallet (Some wA) (logout (recordActivity 1 (native_info tx1) init)).
Proof.
  destruct (seen_hashes_are_never_forgotten [EvLogout; EvWallet wA]
              (recordActivity 1 (native_info tx1) init)
              (set_wallet (Some wA) (logout (recordActivity 1 (native_info tx1) init)))
              eq_refl) as (_ & _ & H).
  apply (H "0xabc"); [|reflexivity..].
  assert (E : seenTxs (recordActivity 1 (native_info tx1) init) = {["0xabc"]})
    by (by vm_compute).
  rewrite E. by apply elem_of_singleton.
Defined.

Lemma run_InvD es s s' : run s es = Some s' -> InvD s -> InvD s'.
Proof.
  revert s. induction es as [|e es IH]; intros s H HD; simpl in H; [by simplify_eq|].
  destruct (step s e) as [s1|] eqn:E; [|done].
  eapply IH; [exact H|]. by eapply step_InvD.
Qed.

Lemma InvD_init : InvD init.
Proof. intros h _. reflexivity. Qed.

(** The hash a message of the sink is filed under. *)
Lemma sink_hashes_elem (l : list (N * Info)) h :
  h ∈ omap hash_of l ->
  Js.nonempty h = true /\ (1 <= count_hash h l)%nat.
Proof.
  induction l as [|[c i] l IH]; simpl; [by intros ?%elem_of_nil|].
  unfold count_hash, hash_of. simpl. unfold has_hash at 1. simpl.
  destruct (info_txHash i) as [x|]; [destruct (Js.nonempty x) eqn:Hx|].
  - intros [->|Hin]%elem_of_cons.
    + rewrite String.eqb_refl. simpl. split; [done | lia].
    + destruct (IH Hin) as [? ?]. split; [done|].
      unfold count_hash in *. destruct (String.eqb x h); simpl; lia.
  - intros Hin. destruct (IH Hin) as [? ?]. split; [done|].
    unfold count_hash in *. destruct (String.eqb x h); simpl; lia.
  - intros Hin. destruct (IH Hin) as [? ?]. split; [done|].
    unfold count_hash in *. done.
Qed.

Lemma sink_hashes_NoDup (l : list (N * Info)) :
  (forall h, Js.nonempty h = true -> (count_hash h l <= 1)%nat) ->
  NoDup (omap hash_of l).
Proof.
  induction l as [|[c i] l IH]; intros H; simpl; [constructor|].
  assert (Hl : forall h, Js.nonempty h = true -> (count_hash h l <= 1)%nat).
  { intros h Hh. specialize (H h Hh). unfold count_hash in *. simpl in H.
    destruct (has_hash h (c, i)); simpl in H; lia. }
  unfold hash_of at 1. simpl.
  destruct (info_txHash i) as [x|] eqn:Hi; [destruct (Js.nonempty x) eqn:Hx|]; auto.
  constructor; [|auto].
  intros Hin. destruct (sink_hashes_elem l x Hin) as [_ Hc].
  specialize (H x Hx). unfold count_hash in *. simpl in H.
  unfold has_hash at 1 in H. simpl in H. rewrite Hi, String.eqb_refl in H. simpl in H. lia.
Qed.

Lemma sink_hashes_count (l : list (N * Info)) h :
  Js.nonempty h = true -> (1 <= count_hash h l)%nat ->
  h ∈ omap hash_of l.
Proof.
  intros Hh. induction l as [|[c i] l IH]; unfold count_hash; simpl; [lia|].
  unfold has_hash at 1, hash_of at 1. simpl.
  destruct (info_txHash i) as [x|]; [|exact IH].
  destruct (String.eqb x h) eqn:E.
  - apply String.eqb_eq in E as ->. rewrite Hh. intros _. by left.
  - simpl. intros H. destruct (Js.nonempty x); [right|]; by apply IH.
Qed.

(** X7.  In every state the page can reach, whatever the interleaving of
    ticks, listener events and RPC answers, the messages of the sink that
    carry a non-empty hash carry pairwise distinct hashes, and these hashes
    are exactly the non-empty members of the seen-set. *)
Theorem sink_hashes_are_distinct (es : list Event) (s : State) :
  run init es = Some s ->
  NoDup (sink_hashes s) /\
  forall h, h ∈ sink_hashes s <-> Js.nonempty h = true /\ h ∈ seenTxs s.
Proof.
  intros Hrun. pose proof (run_InvD _ _ _ Hrun InvD_init) as HD. split.
  - apply sink_hashes_NoDup. intros h Hh. rewrite (HD h Hh). case_bool_decide; lia.
  - intros h. split.
    + intros Hin. destruct (sink_hashes_elem _ h Hin) as [Hh Hc].
      split; [done|]. rewrite (HD h Hh) in Hc. case_bool_decide; [done | lia].
    + intros [Hh Hin]. apply sink_hashes_count; [done|].
      rewrite (HD h Hh). by rewrite bool_decide_eq_true_2.
Qed.

Lemma sink_hashes_are_distinct_witness :
  exists s, run init trace_site_payment = Some s /\ NoDup (sink_hashes s).
Proof.
  eexists. split; [by vm_compute|].
  refine (proj1 (sink_hashes_are_distinct trace_site_payment _ _)). by vm_compute.
Defined.

(** X8.  In every state the page can reach, the activity panel lists the
    latest messages of the sink, in the same order: every item of the panel
    has been posted to the embedding site, and what the sink holds besides
    is older than every item of the panel. *)
Theorem panel_lists_latest_messages (es : list Event) (s : State) :
  run init es = Some s -> exists older, posted s = panel s ++ older.
Proof. intros Hrun. exact (k_InvV _ _ (run_keeps _ _ _ Hrun) InvV_init). Qed.

Lemma panel_lists_latest_messages_witness :
  exists s older, run init (trace_site_payment ++ [EvLogout]) = Some s /\
    posted s = panel s ++ older.
Proof.
  eexists. 
  destruct (panel_lists_latest_messages (trace_site_payment ++ [EvLogout]) _
              ltac:(by vm_compute)) as [older H].
  exists older. split; [by vm_compute | exact H].
Defined.

(** ** Starting chains that have an endpoint *)

Lemma start_chain_wallet tokens siteAddr c s :
  wallet (start_chain tokens siteAddr c s).2 = wallet s.
Proof.
  destruct (monitors s !! c) as [m|] eqn:Hc.
  { unfold start_chain. by rewrite Hc. }
  pose proof (ensureProvider_pool_only c s) as Hpo.
  destruct (ensureProvider c s) as [[p|msg] s1] eqn:He.
  - destruct (start_chain_form tokens siteAddr c s p s1 Hc He) as ([] & _ & ->). done.
  - unfold start_chain. rewrite Hc, He. by destruct Hpo.
Qed.

(** A monitor that exists is left alone by [start_chain], and a chain other
    than the one started gets none. *)
Lemma start_chain_monitors_other tokens siteAddr c0 s c :
  (forall m, monitors s !! c = Some m ->
     monitors (start_chain tokens siteAddr c0 s).2 !! c = Some m) /\
  (c <> c0 -> monitors s !! c = None ->
     monitors (start_chain tokens siteAddr c0 s).2 !! c = None).
Proof.
  destruct (monitors s !! c0) as [m0|] eqn:Hc.
  { unfold start_chain. by rewrite Hc. }
  pose proof (ensureProvider_pool_only c0 s) as Hpo.
  destruct (ensureProvider c0 s) as [[p|msg] s1] eqn:He.
  - destruct (start_chain_form tokens siteAddr c0 s p s1 Hc He) as (_ & _ & ->). simpl.
    split.
    + intros m Hm. rewrite lookup_insert_ne; [done|]. congruence.
    + intros Hne Hm. by rewrite lookup_insert_ne.
  - unfold start_chain. rewrite Hc, He. destruct Hpo as [_ _ _ _ Hm _ _ _ _ _ _ _ _].
    simpl in *. by rewrite Hm.
Qed.

(** What [start_chain] leaves for the chain it is called on, when it
    returns. *)
Lemma start_chain_monitored tokens siteAddr c s s' :
  start_chain tokens siteAddr c s = (Ok tt, s') ->
  exists m, monitors s' !! c = Some m /\
    (monitors s !! c = None -> pollHandle m = Some (nextTimer s)).
Proof.
  destruct (monitors s !! c) as [m|] eqn:Hc.
  { unfold start_chain. rewrite Hc. intros [= <-]. exists m. by rewrite Hc. }
  destruct (ensureProvider c s) as [[p|msg] s1] eqn:He.
  - destruct (start_chain_form tokens siteAddr c s p s1 Hc He) as (_ & _ & ->).
    intros [= <-]. simpl. rewrite lookup_insert_eq. eauto.
  - unfold start_chain. by rewrite Hc, He.
Qed.

Lemma start_chains_monitored tokens siteAddr cs s s' :
  start_chains tokens siteAddr cs s = (Ok tt, s') ->
  wallet s' = wallet s /\
  (forall c m, monitors s !! c = Some m -> monitors s' !! c = Some m) /\
  (forall c, c ∈ cs -> exists m, monitors s' !! c = Some m /\
     (monitors s !! c = None -> is_Some (pollHandle m))).
Proof.
  revert s. induction cs as [|c0 cs IH]; intros s; simpl.
  { intros [= <-]. split; [done|]. split; [done|]. by intros c ?%elem_of_nil. }
  pose proof (start_chain_wallet tokens siteAddr c0 s) as Hw.
  pose proof (start_chain_monitors_other tokens siteAddr c0 s) as Ho.
  destruct (start_chain tokens siteAddr c0 s) as [[[]|msg] s1] eqn:E; [|done].
  simpl in Hw, Ho. intros H. destruct (IH s1 H) as (Hw1 & Hk1 & Hc1).
  destruct (start_chain_monitored _ _ _ _ _ E) as (m0 & Hm0 & Hh0).
  split; [congruence|]. split.
  { intros c m Hm. apply Hk1. by apply (Ho c). }
  intros c Hin. destruct (decide (c = c0)) as [->|Hne].
  - exists m0. split; [by apply Hk1|]. intros Hn. rewrite Hh0; eauto.
  - apply elem_of_cons in Hin as [->|Hin]; [done|].
    destruct (Hc1 c Hin) as (m & Hm & Hh). exists m. split; [done|].
    intros Hn. apply Hh. by apply (Ho c).
Qed.

Lemma start_chains_ok tokens siteAddr cs s :
  (forall c, c ∈ cs -> exists cfg url,
     getConfig s c = Some cfg /\ cfg_rpc cfg = Some url /\ Js.nonempty url = true) ->
  exists s', start_chains tokens siteAddr cs s = (Ok tt, s').
Proof.
  revert s. induction cs as [|c0 cs IH]; intros s Hend; simpl; [eauto|].
  destruct (Hend c0) as (cfg & url & Hc & Hu & Hne); [by left|].
  destruct (ensureProvider_valid c0 s cfg url Hc Hu Hne) as (p & s1 & He).
  pose proof (start_chain_quiet tokens siteAddr c0 s) as (Ho & _ & Hcf & _).
  assert (Hok : exists s2, start_chain tokens siteAddr c0 s = (Ok tt, s2)).
  { destruct (monitors s !! c0) as [m|] eqn:Hm.
    - unfold start_chain. rewrite Hm. eauto.
    - destruct (start_chain_form tokens siteAddr c0 s p s1 Hm He) as (_ & _ & ->). eauto. }
  destruct Hok as [s2 E]. rewrite E in Ho, Hcf |- *. simpl in Ho, Hcf.
  apply IH. intros c Hin. rewrite (getConfig_ext _ _ _ Ho Hcf). apply Hend. by right.
Qed.

(** X9.  With a wallet unlocked and every selected chain configured with
    a non-empty endpoint, [startMonitoring] returns normally; afterwards
    every selected chain has a monitor, and each of them that had none
    before has a poll handle on record, which is a running interval polling
    that chain. *)
Theorem start_succeeds_with_endpoints (es : list Event) (s : State) (sel : list N)
    (toks site a : string) :
  run init es = Some s -> wallet s = Some a ->
  (forall c, c ∈ sel -> exists cfg url,
     getConfig s c = Some cfg /\ cfg_rpc cfg = Some url /\ Js.nonempty url = true) ->
  exists s', startMonitoring sel toks site s = (Ok tt, s') /\
    forall c, c ∈ sel ->
      exists m, monitors s' !! c = Some m /\
        (monitors s !! c = None ->
         exists t p, pollHandle m = Some t /\ t ∈ timers s' /\
           pollers s' !! t = Some p /\ p_chainId p = c).
Proof.
  intros Hrun Hw Hend.
  assert (HK : forall s', (startMonitoring sel toks site s).2 = s' -> InvK s').
  { intros s' <-. apply (k_InvK _ _ (startMonitoring_keeps sel toks site s)).
    apply (k_InvK _ _ (run_keeps _ _ _ Hrun) InvK_init). }
  unfold startMonitoring in *. rewrite Hw in *.
  destruct sel as [|c0 sel0]; [exists s; split; [done|]; by intros c ?%elem_of_nil|].
  set (tokens := if Js.nonempty (Js.trim toks) then _ else None) in *.
  set (siteAddr := if Js.nonempty (Js.trim site) then _ else None) in *.
  destruct (start_chains_ok tokens siteAddr (c0 :: sel0) s Hend) as [s' E].
  exists s'. split; [done|]. intros c Hin.
  destruct (start_chains_monitored _ _ _ _ _ E) as (_ & _ & Hm).
  destruct (Hm c Hin) as (m & Hc & Hh). exists m. split; [done|].
  intros Hn. destruct (Hh Hn) as [t Ht].
  destruct (HK s') as [_ H2]; [by rewrite E|].
  destruct (H2 c m t Hc Ht) as (Hin' & p & Hp & Hpc). by exists t, p.
Qed.

Lemma start_succeeds_with_endpoints_witness :
  exists s', startMonitoring [137%N; 999%N] "" "" (set_wallet (Some wA) custom_configured)
             = (Ok tt, s') /\
    exists m, monitors s' !! 999%N = Some m.
Proof.
  destruct (start_succeeds_with_endpoints [EvApplyChains "999:https://y"; EvWallet wA]
              (set_wallet (Some wA) custom_configured) [137%N; 999%N] "" "" wA
              eq_refl eq_refl) as (s' & E & H).
  - intros c [->|[->|[]%elem_of_nil]%elem_of_cons]%elem_of_cons;
      eexists _, _; (split; [by vm_compute|]); by split.
  - exists s'. split; [exact E|].
    destruct (H 999%N) as (m & Hm & _); [by right; left | by exists m].
Defined.

(** X10.  Once [startMonitoring] has returned normally for a selection,
    calling it again for chains of that selection changes nothing, whatever
    the token input and the site address are then: a chain that has a
    monitor is skipped, so its poller keeps the site address it was started
    with. *)
Theorem restart_is_ignored (sel sel' : list N) (toks site toks' site' : string)
    (s s1 : State) :
  startMonitoring sel toks site s = (Ok tt, s1) ->
  sel' ⊆ sel ->
  startMonitoring sel' toks' site' s1 = (Ok tt, s1).
Proof.
  unfold startMonitoring. intros H Hsub.
  destruct (wallet s) as [a|] eqn:Hw.
  2:{ simplify_eq. by rewrite Hw. }
  destruct sel as [|c0 sel0].
  { simplify_eq. rewrite Hw. destruct sel' as [|c sel']; [done|].
    exfalso. assert (Hin : c ∈ @nil N) by (apply Hsub; by left). by apply elem_of_nil in Hin. }
  destruct (start_chains_monitored _ _ _ _ _ H) as (Hw1 & _ & Hm).
  rewrite Hw1, Hw. destruct sel' as [|c sel']; [done|].
  generalize dependent (c :: sel'). clear c sel'. intros cs Hsub.
  induction cs as [|c cs IH]; simpl; [done|].
  destruct (Hm c) as (m & Hc & _); [apply Hsub; by left|].
  unfold start_chain at 1. rewrite Hc. apply IH.
  intros x Hx. apply Hsub. by right.
Qed.

Lemma restart_is_ignored_witness :
  startMonitoring [1%N] "0xTOK" siteA started = (Ok tt, started).
Proof.
  apply (restart_is_ignored [1%N] [1%N] "" "" "0xTOK" siteA (set_wallet (Some wA) init));
    [by vm_compute | done].
Defined.

(** X11.  A subscription that completes when its chain has no monitor,
    as after [stopMonitoring], makes one: it holds the new listener and no
    poll handle.  From then on [startMonitoring] skips the chain as already
    monitored, so no interval is started for it and its blocks are not
    polled. *)
Theorem late_subscription_blocks_restart (s : State) (i : nat) (c : N) (tok a : string)
    (f t : Z) (r : Response) :
  wallet s = Some a -> monitors s !! c = None ->
  tasks s !! i = Some (TSubLogs c tok f t) ->
  r = RReject \/ r = RLogs [] ->
  exists s1, step s (EvResponse i r) = Some s1 /\
    monitors s1 !! c = Some (mkMonitor [nextListener s] None) /\
    listeners s1 !! nextListener s = Some (mkListener c tok a) /\
    timers s1 = timers s /\
    forall sel toks site, sel ⊆ [c] -> startMonitoring sel toks site s1 = (Ok tt, s1).
Proof.
  intros Hw Hm Hi Hr. simpl. rewrite Hi.
  set (s0 := set_tasks (delete i (tasks s)) s).
  exists (attach c tok s0).
  split; [by destruct Hr as [->| ->]|].
  assert (Hmon : monitors (attach c tok s0) !! c = Some (mkMonitor [nextListener s] None)).
  { unfold attach, s0. simpl. rewrite Hw. simpl. by rewrite lookup_insert_eq, Hm. }
  split; [done|]. split.
  { unfold attach, s0. simpl. rewrite Hw. simpl. by rewrite lookup_insert_eq. }
  split; [unfold attach, s0; simpl; by rewrite Hw|].
  intros sel toks site Hsub. unfold startMonitoring.
  assert (Hw' : wallet (attach c tok s0) = Some a)
    by (unfold attach, s0; simpl; by rewrite Hw).
  rewrite Hw'. destruct sel as [|c1 sel]; [done|].
  generalize dependent (c1 :: sel). clear c1 sel. intros cs Hsub.
  induction cs as [|c1 cs IH]; simpl; [done|].
  assert (c1 = c) as ->.
  { assert (Hin : c1 ∈ [c]) by (apply Hsub; by left). by apply list_elem_of_singleton in Hin. }
  unfold start_chain at 1. rewrite Hmon. apply IH.
  intros x Hx. apply Hsub. by right.
Qed.

Lemma late_subscription_blocks_restart_witness :
  exists s s1,
    run init [EvWallet wA; EvStart [1%N] "0xTOK" ""; EvResponse 0 (RNumber 100); EvStop] = Some s /\
    step s (EvResponse 0 RReject) = Some s1 /\
    timers s1 = ∅ /\
    startMonitoring [1%N] "" "" s1 = (Ok tt, s1).
Proof.
  eexists.
  destruct (late_subscription_blocks_restart
              (default init (run init [EvWallet wA; EvStart [1%N] "0xTOK" "";
                                       EvResponse 0 (RNumber 100); EvStop]))
              0 1 "0xTOK" wA 0 100 RReject)
    as (s1 & H1 & _ & _ & H2 & H3); [by vm_compute.. | by left |].
  exists s1. split; [by vm_compute|]. split; [exact H1|].
  split; [rewrite H2; by vm_compute | by apply H3].
Defined.

(** ** Logging out *)

Lemma off_locked lid s : wallet s = None -> off lid s = s.
Proof. intros H. unfold off. by rewrite H. Qed.

Lemma off_all_locked lids s :
  wallet s = None -> fold_left (fun a lid => off lid a) lids s = s.
Proof.
  intros H. induction lids as [|lid lids IH]; simpl; [done|]. by rewrite off_locked.
Qed.

Lemma stop_chain_locked c s :
  wallet s = None ->
  listeners (stop_chain c s) = listeners s /\ activity (stop_chain c s) = activity s /\
  wallet (stop_chain c s) = None.
Proof.
  intros H. unfold stop_chain. destruct (monitors s !! c) as [mon|]; [|done].
  rewrite off_all_locked by done. by destruct (pollHandle mon).
Qed.

Lemma stop_chains_locked cs s :
  wallet s = None ->
  let s' := fold_left (fun a c => stop_chain c a) cs s in
  listeners s' = listeners s /\ activity s' = activity s /\ wallet s' = None.
Proof.
  revert s. induction cs as [|c cs IH]; intros s H; simpl; [done|].
  destruct (stop_chain_locked c s H) as (H1 & H2 & H3).
  destruct (IH (stop_chain c s) H3) as (G1 & G2 & G3).
  repeat split; congruence.
Qed.

(** X12.  [logout] drops the wallet before it stops the monitors, so the
    stored unsubscribe closures run on a locked wallet and detach nothing.
    In every state the page can reach, logging out empties the panel, the
    monitors and the running intervals, and leaves every registered
    listener registered, as it leaves the pending calls, the seen-set and
    the sink: a Transfer event pushed to such a listener afterwards is
    still taken up. *)
Theorem logout_leaves_listeners_attached (es : list Event) (s : State) :
  run init es = Some s ->
  wallet (logout s) = None /\ activity (logout s) = [] /\
  monitors (logout s) = ∅ /\ timers (logout s) = ∅ /\
  listeners (logout s) = listeners s /\ tasks (logout s) = tasks s /\
  seenTxs (logout s) = seenTxs s /\ posted (logout s) = posted s /\
  forall lid l from to value txHash, listeners s !! lid = Some l ->
    step (logout s) (EvTransfer lid from to value txHash) =
    Some (spawn (TLiveDecimals (l_chainId l) (l_token l) from to value txHash) (logout s)).
Proof.
  intros Hrun. pose proof (run_Inv _ _ _ Hrun Inv_init) as HI.
  pose proof (quiet_step_Inv _ _ (logout_quiet s) HI) as (_ & _ & _ & HT).
  set (s0 := set_activity [] (set_wallet None s)).
  destruct (stop_chains_locked (map_to_list (monitors s0)).*1 s0 eq_refl) as (H1 & H2 & H3).
  destruct (stop_chains_frame (map_to_list (monitors s0)).*1 s0) as (G1 & G2 & _ & G4 & _).
  fold (stopMonitoring s0) in H1, H2, H3, G1, G2, G4.
  change (stopMonitoring s0) with (logout s) in *.
  change (listeners s0) with (listeners s) in H1.
  change (tasks s0) with (tasks s) in G1. change (posted s0) with (posted s) in G2.
  change (seenTxs s0) with (seenTxs s) in G4. change (activity s0) with (@nil Delivery) in H2.
  assert (Hmon : monitors (logout s) = ∅) by apply stopMonitoring_monitors.
  split; [done|]. split; [done|]. split; [done|]. split.
  { apply set_eq. intros t. split; [|by intros ?%not_elem_of_empty].
    intros Ht. destruct (HT t Ht) as (c & m & Hc & _).
    rewrite Hmon, lookup_empty in Hc. done. }
  split; [done|]. split; [done|]. split; [done|]. split; [done|].
  intros lid l from to value txHash Hl. simpl. by rewrite H1, Hl.
Qed.

Lemma logout_leaves_listeners_attached_witness :
  exists s, run init trace_twice = Some s /\
    size (listeners s) = 2%nat /\ listeners (logout s) = listeners s.
Proof.
  eexists. split; [by vm_compute|]. split; [by vm_compute|].
  refine (proj1 (proj2 (proj2 (proj2 (proj2
            (logout_leaves_listeners_attached trace_twice _ _)))))). by vm_compute.
Defined.

(** ** Scanning a block *)

Lemma scan_tx_locked c site tx s s' :
  wallet s = None -> scan_tx c site tx s = Some s' -> s' = s.
Proof.
  intros Hw. unfold scan_tx, to_wallet. rewrite Hw.
  destruct (tx_to tx) as [t|]; [destruct (Js.nonempty t); [done|]|];
    (destruct (from_site site tx); [|by intros [= <-]]);
    rewrite ?Hw; by intros [= <-].
Qed.

(** X13.  While no wallet is unlocked a block scan records nothing: a
    block that arrives for a poll still in flight after a logout leaves the
    state as a failed fetch would, and only the loop over the blocks goes
    on. *)
Theorem locked_wallet_records_no_block (s : State) (i : nat) (t : TimerId) (b latest : Z)
    (p : Poller) (full : Block) :
  wallet s = None ->
  pollers s !! t = Some p ->
  tasks s !! i = Some (TPollBlock t b latest) ->
  (forall c site txs, scan_txs c site txs s = s) /\
  step s (EvResponse i (RBlock full)) = step s (EvResponse i RReject) /\
  exists s', step s (EvResponse i (RBlock full)) = Some s' /\
    posted s' = posted s /\ activity s' = activity s /\ seenTxs s' = seenTxs s.
Proof.
  intros Hw Hp Hi.
  assert (Hscan : forall s0, wallet s0 = None -> forall c site txs, scan_txs c site txs s0 = s0).
  { intros s0 Hw0 c site txs. induction txs as [|tx txs IH]; simpl; [done|].
    destruct (scan_tx c site tx s0) as [s'|] eqn:E; [|done].
    by rewrite (scan_tx_locked c site tx s0 s' Hw0 E). }
  split; [by apply Hscan|]. simpl. rewrite Hi. simpl. rewrite Hp.
  rewrite (Hscan (set_tasks (delete i (tasks s)) s)) by done.
  split; [done|]. eexists. split; [done|].
  unfold poll_next. by destruct (_ <=? _)%Z.
Qed.

Lemma locked_wallet_records_no_block_witness :
  exists s s', run init (trace_stop ++ [EvResponse 1 (RBlock (mkBlock 100 [])); EvLogout])
               = Some s /\
    step s (EvResponse 1 (RBlock (mkBlock 100 [tx2]))) = Some s' /\ posted s' = [].
Proof.
  eexists.
  destruct (locked_wallet_records_no_block
              (default init (run init (trace_stop ++
                                         [EvResponse 1 (RBlock (mkBlock 100 [])); EvLogout])))
              1 1%nat 100 100 (mkPoller 1 None (Some 99%Z)) (mkBlock 100 [tx2]))
    as (_ & _ & s' & H1 & H2 & _); [by vm_compute..|].
  exists s'. split; [by vm_compute|]. split; [exact H1|]. rewrite H2. by vm_compute.
Defined.

(** What one transaction adds to the sink. *)
Lemma scan_tx_posted c site tx s s' :
  scan_tx c site tx s = Some s' ->
  wallet s' = wallet s /\
  exists new, posted s' = new ++ posted s /\
    Forall (fun ci => fst ci = c /\
              exists t w, tx_to tx = Some t /\ wallet s = Some w /\
                same_address t w = true /\
                (snd ci = native_info tx \/
                 (snd ci = site_info tx /\ from_site site tx = true))) new.
Proof.
  unfold scan_tx. intros H.
  destruct (to_wallet tx s) as [native|] eqn:Hto; [|done].
  assert (Hnat : native = true -> exists t w,
             tx_to tx = Some t /\ wallet s = Some w /\ same_address t w = true).
  { intros ->. unfold to_wallet in Hto.
    destruct (tx_to tx) as [t|]; [|done]. destruct (Js.nonempty t); [|done].
    destruct (wallet s) as [w|]; [|done]. simplify_eq. eauto. }
  fold (native_info tx) in H. fold (site_info tx) in H.
  set (s1 := if native then _ else s) in H.
  assert (H1 : wallet s1 = wallet s /\ exists new, posted s1 = new ++ posted s /\
            Forall (fun ci => fst ci = c /\ snd ci = native_info tx /\ native = true) new).
  { subst s1. destruct native; [|split; [done|]; by exists []].
    split; [by destruct (recordActivity_sink_only c (native_info tx) s)|].
    destruct (recordActivity_cases c (native_info tx) s) as [->|[-> _]];
      [by exists [] | exists [(c, native_info tx)]]. split; [done|]. by repeat constructor. }
  destruct H1 as (Hw1 & n1 & Hp1 & HF1).
  assert (HF1' : Forall (fun ci => fst ci = c /\
              exists t w, tx_to tx = Some t /\ wallet s = Some w /\
                same_address t w = true /\
                (snd ci = native_info tx \/
                 (snd ci = site_info tx /\ from_site site tx = true))) n1).
  { eapply Forall_impl; [exact HF1|]. intros ci (? & ? & Hn).
    destruct (Hnat Hn) as (t & w & ? & ? & ?). split; [done|]. exists t, w. auto. }
  destruct (from_site site tx) eqn:Hfs.
  2:{ simplify_eq. split; [done|]. by exists n1. }
  destruct (to_wallet tx s1) as [[]|] eqn:Hto1; simplify_eq.
  2:{ split; [done|]. by exists n1. }
  split; [by destruct (recordActivity_sink_only c (site_info tx) s1) as [_ _ _ _ _ -> _ _ _ _ _ _ _]|].
  assert (Hnat1 : exists t w, tx_to tx = Some t /\ wallet s = Some w /\
                    same_address t w = true).
  { unfold to_wallet in Hto1. rewrite Hw1 in Hto1.
    destruct (tx_to tx) as [t|]; [|done]. destruct (Js.nonempty t); [|done].
    destruct (wallet s) as [w|]; [|done]. simplify_eq. eauto. }
  destruct (recordActivity_cases c (site_info tx) s1) as [->|[-> _]].
  - by exists n1.
  - exists ((c, site_info tx) :: n1). rewrite Hp1. split; [done|].
    constructor; [|done]. destruct Hnat1 as (t & w & ? & ? & ?).
    split; [done|]. exists t, w. simpl. auto 10.
Qed.

(** X14.  Whatever a block scan adds to the sink is a record for the
    scanned chain, built from a transaction of the block whose destination
    is, letter case apart, the address of the unlocked wallet; it is a Native
    record, or a SitePayment record of a transaction that comes from the
    site address.  A transaction to anyone else is never reported. *)
Theorem poller_records_only_incoming (c : N) (site : option string) (txs : list Tx)
    (s : State) :
  exists new, posted (scan_txs c site txs s) = new ++ posted s /\
    Forall (fun ci => fst ci = c /\
              exists tx t w, In tx txs /\ tx_to tx = Some t /\ wallet s = Some w /\
                same_address t w = true /\
                (snd ci = native_info tx \/
                 (snd ci = site_info tx /\ from_site site tx = true))) new.
Proof.
  revert s. induction txs as [|tx txs IH]; intros s; simpl; [by exists []|].
  destruct (scan_tx c site tx s) as [s'|] eqn:E; [|by exists []].
  destruct (scan_tx_posted c site tx s s' E) as (Hw & n1 & Hp1 & HF1).
  destruct (IH s') as (n2 & Hp2 & HF2).
  exists (n2 ++ n1). rewrite Hp2, Hp1, app_assoc. split; [done|].
  apply Forall_app. split.
  - eapply Forall_impl; [exact HF2|]. intros ci (? & tx' & t & w & ? & ? & ? & ?).
    split; [done|]. exists tx', t, w. rewrite <- Hw. auto.
  - eapply Forall_impl; [exact HF1|]. intros ci (? & t & w & ?).
    split; [done|]. exists tx, t, w. auto.
Qed.

(** ** Discovering tokens *)

Lemma subscribe_cached c tok s p :
  providers s !! c = Some p ->
  subscribeTokenTransfer c tok s = spawn (TSubBlockNumber c tok) s.
Proof. intros H. unfold subscribeTokenTransfer. by rewrite (ensureProvider_cached c s p H). Qed.

Lemma subscribe_all_cached c toks s p :
  providers s !! c = Some p ->
  fold_left (fun a tk => subscribeTokenTransfer c tk a) toks s =
  set_tasks (tasks s ++ map (TSubBlockNumber c) toks) s.
Proof.
  revert s. induction toks as [|tok toks IH]; intros s H; simpl.
  - rewrite app_nil_r. by destruct s.
  - rewrite (subscribe_cached c tok s p H), IH by done.
    unfold spawn. simpl. rewrite <- app_assoc. by destruct s.
Qed.

Lemma distinct_complete a l : a ∈ l -> a ∈ distinct l.
Proof.
  induction l as [|b l IH]; simpl; [done|].
  intros [->|H]%elem_of_cons; [by left|].
  destruct (String.eqb b a) eqn:E.
  - apply String.eqb_eq in E as ->. by left.
  - right. apply list_elem_of_In, filter_In. split; [by apply list_elem_of_In, IH|].
    by rewrite E.
Qed.

(** X15.  When the logs of the discovery scan arrive for a chain whose
    provider is in the pool, one subscription is started for each contract
    address that occurs in them, in the order of first occurrence and none
    twice, however many logs name the same address; nothing else changes. *)
Theorem discovery_subscribes_each_token_once (c : N) (f t : Z) (logs : list Log) (s : State)
    (p : Provider) :
  providers s !! c = Some p ->
  resume (TDiscLogs c f t) (RLogs logs) s =
    Some (set_tasks (tasks s ++ map (TSubBlockNumber c) (distinct (map log_address logs))) s) /\
  NoDup (distinct (map log_address logs)) /\
  forall a, a ∈ distinct (map log_address logs) <-> a ∈ map log_address logs.
Proof.
  intros Hp. split; [simpl; by rewrite (subscribe_all_cached c _ s p Hp)|].
  split; [apply distinct_NoDup|].
  intros a. split; [apply distinct_subset | apply distinct_complete].
Qed.

Lemma discovery_subscribes_each_token_once_witness :
  tasks <$> resume (TDiscLogs 1 0 100)
              (RLogs [mkLog "0xA" None None; mkLog "0xB" None None; mkLog "0xA" None None])
              (set_tasks [] started) =
  Some [TSubBlockNumber 1 "0xA"; TSubBlockNumber 1 "0xB"].
Proof.
  rewrite (proj1 (discovery_subscribes_each_token_once 1 0 100
                    [mkLog "0xA" None None; mkLog "0xB" None None; mkLog "0xA" None None]
                    (set_tasks [] started) (mkProvider 0 "https://cloudflare-eth.com")
                    ltac:(by vm_compute))).
  reflexivity.
Defined.

(** ** Failed calls *)

Lemma sub_logs_tasks c tok logs s :
  timers (sub_logs c tok logs s) = timers s /\
  exists new, tasks (sub_logs c tok logs s) = tasks s ++ new.
Proof.
  induction logs as [|log rest IH]; simpl.
  - destruct (attach_frame c tok s) as (-> & _ & -> & _). split; [done|].
    exists []. by rewrite app_nil_r.
  - destruct (log_args log); [|exact IH]. split; [done|]. by eexists.
Qed.

Lemma resume_reject T s :
  task_ok T ->
  exists s', resume T RReject s = Some s' /\ timers s' = timers s /\
    exists new, tasks s' = tasks s ++ new.
Proof.
  assert (Hid : exists new, tasks s = tasks s ++ new) by (exists []; by rewrite app_nil_r).
  intros HT. destruct T; simpl in *.
  - by exists s.
  - eexists. split; [done|]. by destruct (attach_frame chainId tokenAddr s) as (-> & _ & -> & _).
  - destruct HT as [[[from to] value] ->]. eexists. split; [done|].
    destruct (sub_logs_tasks chainId tokenAddr rest
                (recordActivity chainId
                   (mkInfo ERC20 (Some tokenAddr) (Some from) (Some to) (formatUnits value 18)
                      (log_transactionHash cur)) s)) as (-> & new & ->).
    destruct (recordActivity_sink_only chainId
                (mkInfo ERC20 (Some tokenAddr) (Some from) (Some to) (formatUnits value 18)
                   (log_transactionHash cur)) s) as [_ _ _ _ _ _ _ -> _ _ _ _ ->].
    split; [done|]. by exists new.
  - by exists s.
  - by exists s.
  - eexists. split; [done|].
    by destruct (recordActivity_sink_only chainId
                   (mkInfo ERC20 (Some tokenAddr) (Some from) (Some to) (formatUnits value 18)
                      txHash) s) as [_ _ _ _ _ _ _ -> _ _ _ _ ->].
  - by exists s.
  - eexists. split; [done|]. unfold poll_next.
    destruct (_ <=? _)%Z; simpl; [split; [done|]; by eexists | done].
Qed.

(** X16.  No pending call is stuck by a failure of its RPC request.  In
    every state the page can reach, whichever call is answered by a
    failure, the body that waits for it takes the failure up and goes on or
    ends; the running intervals stay as they are and every other pending
    call is still pending. *)
Theorem pending_call_survives_failure (es : list Event) (s : State) (i : nat) (T : Task) :
  run init es = Some s -> tasks s !! i = Some T ->
  exists s', step s (EvResponse i RReject) = Some s' /\
    timers s' = timers s /\
    exists new, tasks s' = delete i (tasks s) ++ new.
Proof.
  intros Hrun Hi. simpl. rewrite Hi.
  pose proof (k_InvW _ _ (run_keeps _ _ _ Hrun) InvW_init) as HW.
  assert (HT : task_ok T).
  { unfold InvW in HW. rewrite Forall_lookup in HW. by apply (HW i). }
  exact (resume_reject T (set_tasks (delete i (tasks s)) s) HT).
Qed.

Lemma pending_call_survives_failure_witness :
  exists s', step started (EvResponse 0 RReject) = Some s' /\ timers s' = timers started.
Proof.
  destruct (pending_call_survives_failure [EvWallet wA; EvStart [1%N] "" ""] started 0
              (TDiscBlockNumber 1) ltac:(by vm_compute) ltac:(by vm_compute))
    as (s' & H1 & H2 & _).
  exists s'. by split.
Defined.

(** ** The items of a chains input *)

Lemma split_runs_eq cls c s :
  Js.split_runs cls (String c s) =
  if cls c then
    match s with
    | String c' _ => if cls c' then Js.split_runs cls s else "" :: Js.split_runs cls s
    | EmptyString => "" :: Js.split_runs cls s
    end
  else match Js.split_runs cls s with
       | p :: ps => String c p :: ps
       | [] => [String c ""]
       end.
Proof. reflexivity. Qed.

Lemma split_runs_cons cls s : exists q qs, Js.split_runs cls s = q :: qs.
Proof.
  induction s as [|c s (q & qs & IH)]; [by eexists _, _|].
  rewrite split_runs_eq. destruct (cls c).
  - destruct s as [|c' s']; [by eexists _, _|]. destruct (cls c'); eauto.
  - rewrite IH. eauto.
Qed.

(** No piece of a split holds a separator. *)
Lemma split_runs_pieces cls s q : In q (Js.split_runs cls s) -> none_of cls q = true.
Proof.
  revert q. induction s as [|c s IH]; intros q.
  { intros [<-|[]]. done. }
  rewrite split_runs_eq. destruct (cls c) eqn:Hc.
  - destruct s as [|c' s'].
    + intros [<-|H]; [done | by apply IH].
    + destruct (cls c'); [apply IH|]. intros [<-|H]; [done | by apply IH].
  - destruct (split_runs_cons cls s) as (p & ps & E). rewrite E in IH |- *.
    intros [<-|H].
    + cbn [none_of]. rewrite Hc. simpl. apply IH. by left.
    + apply IH. by right.
Qed.

(** X17.  Every item [parseChainsInput] works on is a non-empty string
    without white space at its ends and without a comma or a newline in it:
    blank items and the white space around an item never reach the loop. *)
Theorem chains_input_items_are_clean (raw p : string) :
  In p (parts_of raw) ->
  Js.nonempty p = true /\ Js.trim p = p /\ none_of is_sep p = true.
Proof.
  unfold parts_of. intros [Hin Hne]%filter_In.
  apply in_map_iff in Hin as (q & <- & Hq).
  split; [done|]. split; [apply trim_idem|].
  apply none_of_trim. by eapply split_runs_pieces.
Qed.

Lemma chains_input_items_are_clean_witness :
  Js.trim "5:https://r" = "5:https://r" /\ none_of is_sep "5:https://r" = true.
Proof.
  exact (proj2 (chains_input_items_are_clean " 1 ,, 5:https://r  , " "5:https://r"
                  ltac:(vm_compute; tauto))).
Defined.

(** *** Items are read one by one *)

(** The non-empty pieces. *)
Lemma filter_nonempty_cons q (qs : list string) :
  List.filter Js.nonempty (q :: qs) =
  (if Js.nonempty q then [q] else []) ++ List.filter Js.nonempty qs.
Proof. simpl. by destruct (Js.nonempty q). Qed.

Lemma split_runs_sep_head cls c s :
  cls c = true -> exists qs, Js.split_runs cls (String c s) = "" :: qs.
Proof.
  intros Hc. revert c Hc. induction s as [|c' s IH]; intros c Hc.
  - rewrite split_runs_eq. rewrite Hc. eauto.
  - rewrite split_runs_eq. rewrite Hc. destruct (cls c') eqn:Hc'; [|eauto].
    apply (IH c' Hc').
Qed.

Lemma split_runs_sep cls c s :
  cls c = true ->
  List.filter Js.nonempty (Js.split_runs cls (String c s)) =
  List.filter Js.nonempty (Js.split_runs cls s).
Proof.
  intros Hc. rewrite split_runs_eq. rewrite Hc.
  destruct s as [|c' s']; [done|]. by destruct (cls c').
Qed.

Lemma split_runs_app cls a sep b :
  cls sep = true ->
  hd "" (Js.split_runs cls (a +:+ String sep b)) = hd "" (Js.split_runs cls a) /\
  List.filter Js.nonempty (tl (Js.split_runs cls (a +:+ String sep b))) =
  List.filter Js.nonempty (tl (Js.split_runs cls a)) ++
  List.filter Js.nonempty (Js.split_runs cls b).
Proof.
  intros Hsep. induction a as [|c a [IH1 IH2]].
  - change ("" +:+ String sep b) with (String sep b).
    destruct (split_runs_sep_head cls sep b Hsep) as [qs E].
    pose proof (split_runs_sep cls sep b Hsep) as F. rewrite E in F |- *.
    simpl in F |- *. by split.
  - change (String c a +:+ String sep b) with (String c (a +:+ String sep b)).
    destruct (split_runs_cons cls (a +:+ String sep b)) as (p & ps & Ep).
    destruct (split_runs_cons cls a) as (q & qs & Eq).
    rewrite Ep, Eq in IH1, IH2. simpl in IH1, IH2. subst q.
    destruct (cls c) eqn:Hc.
    + destruct (split_runs_sep_head cls c (a +:+ String sep b) Hc) as [xs Ex].
      destruct (split_runs_sep_head cls c a Hc) as [ys Ey].
      pose proof (split_runs_sep cls c (a +:+ String sep b) Hc) as Fx.
      pose proof (split_runs_sep cls c a Hc) as Fy.
      rewrite Ex in Fx |- *. rewrite Ey in Fy |- *. simpl in Fx, Fy |- *.
      split; [done|]. rewrite Fx, Fy, Ep, Eq, !filter_nonempty_cons, IH2.
      by rewrite app_assoc.
    + rewrite (split_runs_eq cls c a), (split_runs_eq cls c (a +:+ String sep b)).
      rewrite Hc, Ep, Eq. simpl. by split.
Qed.

Lemma strip_nonempty (l : list string) :
  List.filter Js.nonempty (map Js.trim l) =
  List.filter Js.nonempty (map Js.trim (List.filter Js.nonempty l)).
Proof.
  induction l as [|q l IH]; [done|]. simpl.
  destruct q as [|c q]; simpl; [done|]. by rewrite IH.
Qed.

(** X18.  The items of a chains input are read one by one: for a comma
    or a newline [sep], the items of [a] followed by [sep] and [b] are the
    items of [a] followed by the items of [b], so that parsing the whole is
    parsing [a] and then [b], whatever runs of separators and blanks lie
    between them. *)
Theorem chains_input_items_are_independent (a b : string) (sep : ascii) (s : State) :
  is_sep sep = true ->
  parts_of (a +:+ String sep b) = parts_of a ++ parts_of b /\
  parseChainsInput (a +:+ String sep b) s =
    parse_items (parts_of b) (parseChainsInput a s).
Proof.
  intros Hsep.
  assert (H : parts_of (a +:+ String sep b) = parts_of a ++ parts_of b).
  { unfold parts_of.
    destruct (split_runs_app is_sep a sep b Hsep) as [H1 H2].
    destruct (split_runs_cons is_sep (a +:+ String sep b)) as (p & ps & Ep).
    destruct (split_runs_cons is_sep a) as (q & qs & Eq).
    rewrite Ep, Eq in H1, H2 |- *. simpl in H1, H2. subst q.
    rewrite (strip_nonempty (p :: ps)), (strip_nonempty (p :: qs)),
      (strip_nonempty (Js.split_runs is_sep b)).
    rewrite !filter_nonempty_cons, H2, !map_app, !List.filter_app. by rewrite app_assoc. }
  split; [exact H|]. unfold parseChainsInput, parse_items. by rewrite H, fold_left_app.
Qed.

Lemma chains_input_items_are_independent_witness :
  parts_of ("1, 5:https://r ," +:+ String "010" ", 999") =
  parts_of "1, 5:https://r ," ++ parts_of ", 999".
Proof.
  exact (proj1 (chains_input_items_are_independent "1, 5:https://r ," ", 999" "010" init
                  eq_refl)).
Defined.

(** *** The last entry for a chain *)

Lemma parse_items_snoc l p acc : parse_items (l ++ [p]) acc = parse_item p (parse_items l acc).
Proof. unfold parse_items. by rewrite fold_left_app. Qed.

(** What [parse_item] leaves for an item that comes with an endpoint. *)
Lemma parse_item_endpoint p result s q qs r :
  well_formed p = true ->
  tail (Js.split_char ":" p) = q :: qs -> Js.trim (Js.join ":" (q :: qs)) = r ->
  Js.nonempty r = true ->
  exists c, (parse_item p (result, s)).1 !! item_id p = Some (nextLoc s) /\
    objs (parse_item p (result, s)).2 !! nextLoc s = Some c /\ cfg_rpc c = Some r.
Proof.
  intros Hwf Ht Hr Hne. rewrite parse_item_well_formed by done. rewrite Ht, Hr. simpl.
  rewrite !lookup_insert_eq.
  destruct (deref s DEFAULT_CHAINS (item_id p)) as [[l d]|];
    eexists; (split; [done|]); (split; [done|]); simpl; by rewrite !or_else_supplied.
Qed.

(** X19.  In a chains input the last entry decides: whatever text [a]
    precedes it, an input that ends in a comma followed by an entry with a
    chain id and an endpoint leaves that chain configured with that
    endpoint, also when [a] holds other entries for the same chain. *)
Theorem last_entry_decides_endpoint (s : State) (a ds r : string) :
  Js.test_digits ds = true ->
  Js.nonempty r = true -> Js.trim r = r -> none_of is_sep r = true ->
  cfg_rpc <$> getConfig (applyChains (a +:+ "," +:+ ds +:+ ":" +:+ r) s) (Js.Number ds) =
  Some (Some r).
Proof.
  intros Hds Hr Htrim Hsep.
  destruct (item_with_rpc ds r Hds Hr Htrim Hsep) as (H1 & H2 & H3 & H4 & q & qs & H5 & H6).
  set (p := ds +:+ ":" +:+ r) in *.
  assert (Hp : Js.trim p = p).
  { assert (Hin : In p (parts_of (Js.trim p))) by (rewrite H2; by left).
    unfold parts_of in Hin. apply filter_In in Hin as [Hin _].
    apply in_map_iff in Hin as (x & <- & _). apply trim_idem. }
  rewrite Hp in H1, H2. destruct (trim_fixed p Hp) as [_ Hend].
  change (a +:+ "," +:+ p) with (a +:+ String "," p).
  assert (Htr : Js.trim (a +:+ String "," p) = Js.trimStart a +:+ String "," p).
  { unfold Js.trim. by rewrite trimStart_app_plain, trimEnd_app_plain, Hend. }
  assert (Hparts : parts_of (Js.trim (a +:+ String "," p)) =
                   parts_of (Js.trimStart a) ++ [p]).
  { rewrite Htr.
    destruct (split_runs_app is_sep (Js.trimStart a) "," p eq_refl) as [G1 G2].
    unfold parts_of in *.
    destruct (split_runs_cons is_sep (Js.trimStart a +:+ String "," p)) as (x & xs & Ex).
    destruct (split_runs_cons is_sep (Js.trimStart a)) as (y & ys & Ey).
    rewrite Ex, Ey in G1, G2 |- *. simpl in G1, G2. subst y.
    rewrite (strip_nonempty (x :: xs)), (strip_nonempty (x :: ys)).
    rewrite !filter_nonempty_cons, G2, !map_app, !List.filter_app, <- app_assoc.
    f_equal. f_equal. by rewrite <- strip_nonempty. }
  unfold applyChains.
  assert (Hne : Js.nonempty (Js.trim (a +:+ String "," p)) = true).
  { rewrite Htr. by destruct (Js.trimStart a). }
  rewrite Hne. simpl negb. cbv iota.
  unfold parseChainsInput. rewrite Hparts, parse_items_snoc.
  destruct (parse_items (parts_of (Js.trimStart a)) (∅, s)) as [r1 s1].
  destruct (parse_item_endpoint p r1 s1 q qs r H3 H5 H6 Hr) as (c & G1 & G2 & G3).
  rewrite H4 in G1.
  destruct (parse_item p (r1, s1)) as [parsed s2]. simpl in G1, G2.
  match goal with |- _ <$> getConfig (applyChainsToUI ?x) _ = _ => set (s3 := x) end.
  destruct (applyChainsToUI_quiet s3) as (Ho & _ & Hc & _).
  rewrite (getConfig_ext _ _ _ Ho Hc). subst s3.
  unfold getConfig, deref. simpl.
  rewrite (lookup_union_Some_l _ _ _ _ G1), G2. simpl. by rewrite G3.
Qed.

Lemma last_entry_decides_endpoint_witness :
  cfg_rpc <$> getConfig (applyChains "137:https://a, abc,0137:https://b" init) 137 =
  Some (Some "https://b").
Proof.
  exact (last_entry_decides_endpoint init "137:https://a, abc" "0137" "https://b"
           eq_refl eq_refl eq_refl eq_refl).
Defined.

(** ** The pool after a chains input *)

(** X20.  A chains input that is not blank empties the pool: right after
    it the pool holds at most one provider, opened anew on a configured
    chain for the balance the page shows, and it holds none when no wallet
    is unlocked. *)
Theorem chains_input_empties_pool (input : string) (s : State) (k : N) (p : Provider) :
  Js.nonempty (Js.trim input) = true ->
  providers (applyChains input s) !! k = Some p ->
  is_Some (getConfig (applyChains input s) k) /\
  is_Some (wallet s) /\ prov_id p = nextProvider s /\
  forall k' p', providers (applyChains input s) !! k' = Some p' -> k' = k.
Proof.
  intros Hne. unfold applyChains. rewrite Hne. simpl negb. cbv iota.
  unfold parseChainsInput.
  destruct (parse_items (parts_of (Js.trim input)) (∅, s)) as [parsed s1] eqn:E.
  destruct (parse_items_ok' _ _ _ _ _ E) as (o & n & ->).
  set (s3 := set_providers ∅ _).
  assert (H3 : providers s3 = ∅ /\ wallet s3 = wallet s /\ nextProvider s3 = nextProvider s)
    by done.
  destruct H3 as (Hp3 & Hw3 & Hn3).
  assert (Hc : forall k0, getConfig (applyChainsToUI s3) k0 = getConfig s3 k0).
  { intros k0. destruct (applyChainsToUI_quiet s3) as (Ho & _ & Hc & _).
    by apply getConfig_ext. }
  rewrite Hc. clearbody s3. unfold applyChainsToUI.
  destruct (first_key (configuredChains s3)) as [k0|];
    [|rewrite Hp3, lookup_empty; done].
  unfold updateBalanceForSelectedChain. rewrite Hw3.
  destruct (wallet s) as [a|]; [|rewrite Hp3, lookup_empty; done].
  destruct (getConfig s3 k0) as [cfg|] eqn:Hg; [|rewrite Hp3, lookup_empty; done].
  unfold ensureProvider. rewrite Hp3, lookup_empty, Hg.
  destruct (cfg_rpc cfg) as [url|]; [|simpl; rewrite Hp3, lookup_empty; done].
  destruct (Js.nonempty url); [|simpl; rewrite Hp3, lookup_empty; done].
  simpl. rewrite Hn3.
  assert (Hone : forall k' p', (<[k0 := mkProvider (nextProvider s) url]> ∅ : gmap N Provider)
                               !! k' = Some p' ->
                 k' = k0 /\ p' = mkProvider (nextProvider s) url).
  { intros k' p' H. apply lookup_insert_Some in H as [[<- <-]|[_ H]]; [done|].
    by rewrite lookup_empty in H. }
  intros H. destruct (Hone k p H) as [-> ->].
  split; [by rewrite Hg|]. split; [eauto|]. split; [done|].
  intros k' p' H'. by destruct (Hone k' p' H').
Qed.

Lemma chains_input_empties_pool_witness :
  is_Some (getConfig (applyChains "999:https://y"
                        (snd (ensureProvider 137 (set_wallet (Some wA) init)))) 1).
Proof.
  exact (proj1 (chains_input_empties_pool "999:https://y"
                  (snd (ensureProvider 137 (set_wallet (Some wA) init))) 1
                  (mkProvider 1 "https://cloudflare-eth.com") eq_refl ltac:(by vm_compute))).
Defined.

(** ** A token input without tokens *)

Lemma start_chain_no_tokens siteAddr c s :
  start_chain (Some []) siteAddr c s = start_chain None siteAddr c s.
Proof. reflexivity. Qed.

Lemma start_chains_no_tokens siteAddr cs s :
  start_chains (Some []) siteAddr cs s = start_chains None siteAddr cs s.
Proof.
  revert s. induction cs as [|c cs IH]; intros s; simpl; [done|].
  rewrite start_chain_no_tokens. destruct (start_chain None siteAddr c s) as [[u|msg] s']; auto.
Qed.

Lemma filter_all_blank (l : list string) :
  Forall (fun t => Js.nonempty (Js.trim t) = false) l ->
  List.filter Js.nonempty (map Js.trim l) = [].
Proof. induction 1 as [|t l Ht _ IH]; simpl; [done|]. by rewrite Ht. Qed.

(** X21.  A token input in which no token stands, be it empty, blank, or
    made of commas and blanks only, is the same to [startMonitoring] as an
    empty one: every chain started then discovers its tokens from the logs. *)
Theorem blank_token_input_means_discovery (sel : list N) (toks site : string) (s : State) :
  Forall (fun t => Js.nonempty (Js.trim t) = false) (Js.split_char "," (Js.trim toks)) ->
  startMonitoring sel toks site s = startMonitoring sel "" site s.
Proof.
  intros H. unfold startMonitoring. destruct (wallet s); [|done].
  destruct sel as [|c sel]; [done|].
  rewrite (filter_all_blank _ H). change (Js.nonempty (Js.trim "")) with false. cbv iota.
  destruct (Js.nonempty (Js.trim toks)); [apply start_chains_no_tokens | done].
Qed.

Lemma blank_token_input_means_discovery_witness :
  startMonitoring [1%N] " , ,, " "" (set_wallet (Some wA) init) =
  startMonitoring [1%N] "" "" (set_wallet (Some wA) init).
Proof.
  apply blank_token_input_means_discovery. vm_compute. by repeat constructor.
Defined.

(** ** Shortened addresses *)

Lemma substring_all n s : (String.length s <= n)%nat -> String.substring 0 n s = s.
Proof.
  revert n. induction s as [|c s IH]; intros [|n]; simpl; try done; try lia.
  intros H. by rewrite IH by lia.
Qed.

Lemma substring_0_length n s :
  String.length (String.substring 0 n s) = Nat.min n (String.length s).
Proof.
  revert n. induction s as [|c s IH]; intros [|n]; simpl; try done. by rewrite IH.
Qed.

Lemma substring_skip u v m :
  String.substring (String.length u) m (u +:+ v) = String.substring 0 m v.
Proof.
  induction u as [|c u IH]; [done|].
  change (String c u +:+ v) with (String c (u +:+ v)). simpl. exact IH.
Qed.

Lemma substring_take u v : String.substring 0 (String.length u) (u +:+ v) = u.
Proof.
  induction u as [|c u IH]; simpl.
  - by destruct v.
  - change (String c u +:+ v) with (String c (u +:+ v)). simpl. by rewrite IH.
Qed.

Lemma string_split_at n s :
  (n <= String.length s)%nat ->
  exists u v, s = u +:+ v /\ String.length u = n.
Proof.
  revert n. induction s as [|c s IH]; intros [|n] H; simpl in H.
  - by exists "", "".
  - lia.
  - by exists "", (String c s).
  - destruct (IH n) as (u & v & -> & Hu); [lia|]. exists (String c u), v. simpl. by rewrite Hu.
Qed.

(** X22.  [short] shows the first six and the last four characters of an
    address around an ellipsis.  For a string of ten characters or more
    these are its two ends and only what lies between them is left out;
    for a string of four characters or fewer each end is the whole string,
    which is then shown twice; a missing or empty address gives the empty
    text. *)
Theorem short_shows_both_ends (a : string) :
  Js.nonempty a = true ->
  String.length (short (Some a)) =
    (Nat.min 6 (String.length a) + String.length ellipsis + Nat.min 4 (String.length a))%nat /\
  ((String.length a <= 4)%nat -> short (Some a) = a +:+ ellipsis +:+ a) /\
  ((10 <= String.length a)%nat ->
   exists mid, a = slice_to 6 a +:+ mid +:+ slice_last 4 a /\
     String.length mid = (String.length a - 10)%nat) /\
  short None = "" /\ short (Some "") = "".
Proof.
  intros Hne. unfold short. rewrite Hne. unfold slice_to, slice_last.
  split; [|split; [|split; [|done]]].
  - assert (H4 : String.length (String.substring (String.length a - 4) 4 a) =
                 Nat.min 4 (String.length a)).
    { destruct (string_split_at (String.length a - 4) a) as (u & v & E & Hu); [lia|].
      assert (Hl : String.length a = (String.length u + String.length v)%nat)
        by (rewrite E at 1; apply string_app_length).
      rewrite <- Hu. rewrite E at 1. rewrite substring_skip, substring_0_length. lia. }
    rewrite !string_app_length, substring_0_length, H4. lia.
  - intros Hle. replace (String.length a - 4)%nat with 0%nat by lia.
    by rewrite !substring_all by lia.
  - intros Hge.
    destruct (string_split_at 6 a) as (u & v & E & Hu); [lia|].
    assert (Hv : String.length v = (String.length a - 6)%nat).
    { assert (String.length a = (String.length u + String.length v)%nat)
        by (rewrite E at 1; apply string_app_length). lia. }
    destruct (string_split_at (String.length a - 10) v) as (mid & w & Ev & Hmid); [lia|].
    assert (Hw : String.length w = 4%nat).
    { assert (String.length v = (String.length mid + String.length w)%nat)
        by (rewrite Ev at 1; apply string_app_length). lia. }
    exists mid. split; [|done].
    assert (H6 : String.substring 0 6 a = u).
    { rewrite E, <- Hu. apply substring_take. }
    assert (H4 : String.substring (String.length a - 4) 4 a = w).
    { replace (String.length a - 4)%nat with (String.length (u +:+ mid)).
      - rewrite E, Ev, <- string_app_assoc, substring_skip. apply substring_all. lia.
      - rewrite string_app_length. lia. }
    rewrite H6, H4. by rewrite E, Ev.
Qed.

Lemma short_shows_both_ends_witness :
  short (Some "ab") = "ab" +:+ ellipsis +:+ "ab".
Proof.
  exact (proj1 (proj2 (short_shows_both_ends "ab" eq_refl)) ltac:(simpl; lia)).
Defined.

(** ** Seed phrase or private key *)

Lemma split_char_length sep s : length (Js.split_char sep s) = S (count_char sep s).
Proof.
  induction s as [|c s IH]; [done|]. cbn [Js.split_char count_char].
  destruct (split_char_cons sep s) as (q & qs & E). rewrite E in IH |- *.
  destruct (Ascii.eqb c sep); simpl in *; lia.
Qed.

(** X23.  [importKey] takes its input for a seed phrase exactly when it
    holds at least eleven space characters, whatever stands between them:
    twelve words separated by tabs or newlines go to [new Wallet] as a
    private key, and doubled spaces count as words. *)
Theorem phrase_test_counts_spaces (raw : string) :
  is_phrase raw = true <-> (11 <= count_char " " raw)%nat.
Proof.
  unfold is_phrase. rewrite split_char_length, Nat.leb_le. lia.
Qed.

(** ** A tick that is behind *)

(** X24.  A tick that has found the latest block [L] and stands at block
    [b] fetches the blocks [b], [b + 1], ..., [L] one after the other,
    each once its predecessor is answered and whether that answer is a
    block or a failure; after the last answer nothing of the tick is
    pending and the watermark is [L].  A block whose fetch fails is passed
    over and not asked for again. *)
Theorem poller_catches_up (t : TimerId) (answers : list Response) (p : Poller) (b L : Z)
    (ts : list Task) (s : State) :
  pollers s !! t = Some p -> tasks s = ts ++ [TPollBlock t b L] ->
  (b <= L)%Z -> length answers = Z.to_nat (L - b + 1) ->
  Forall block_answer answers ->
  (forall j, (j < length answers)%nat ->
     exists sj, run s (map (EvResponse (length ts)) (take j answers)) = Some sj /\
       tasks sj = ts ++ [TPollBlock t (b + Z.of_nat j) L]) /\
  exists s', run s (map (EvResponse (length ts)) answers) = Some s' /\
    tasks s' = ts /\ watermark s' t = Some L /\ timers s' = timers s.
Proof.
  revert p b s. induction answers as [|r answers IH]; intros p b s Hp Hts Hb Hlen HF.
  { simpl in Hlen. lia. }
  inversion HF as [|? ? Hr HF']; subst.
  destruct (block_done t p b L r ts s Hp Hts Hr) as (s2 & Hrun & Htm & [p2 Hp2] & H2).
  cbn [run] in Hrun. destruct (step s (EvResponse (length ts) r)) as [s2'|] eqn:E; [|done].
  simplify_eq. destruct (b + 1 <=? L)%Z eqn:Hle.
  - apply Z.leb_le in Hle. destruct H2 as [Hts2 Hw2].
    destruct (IH p2 (b + 1)%Z s2 Hp2 Hts2 Hle) as (Hmid & s' & Hrun' & G1 & G2 & G3);
      [simpl in Hlen; lia | done |].
    split.
    + intros [|j] Hj.
      * exists s. split; [done|]. by rewrite Z.add_0_r.
      * destruct (Hmid j) as (sj & Hsj & Htj); [simpl in Hj; lia|].
        exists sj. cbn [take map run]. rewrite E. split; [done|]. rewrite Htj. do 3 f_equal. lia.
    + exists s'. cbn [map run]. rewrite E. split; [done|]. split; [done|]. split; [done|].
      congruence.
  - apply Z.leb_gt in Hle. destruct H2 as [Hts2 Hw2].
    assert (answers = []) as ->.
    { destruct answers; [done|]. simpl in Hlen. lia. }
    split.
    + intros [|j] Hj; [|simpl in Hj; lia].
      exists s. split; [done|]. by rewrite Z.add_0_r.
    + exists s2. cbn [map run]. rewrite E. done.
Qed.

Lemma poller_catches_up_witness :
  exists s', run (spawn (TPollBlock 1 98 100) (set_tasks [] started))
               (map (EvResponse 0) [RReject; RBlock (mkBlock 99 [tx1]); RReject]) = Some s' /\
    tasks s' = [] /\ watermark s' 1 = Some 100%Z.
Proof.
  destruct (poller_catches_up 1 [RReject; RBlock (mkBlock 99 [tx1]); RReject]
              (mkPoller 1 None None) 98 100 []
              (spawn (TPollBlock 1 98 100) (set_tasks [] started)))
    as (_ & s' & H1 & H2 & H3 & _);
    [by vm_compute | reflexivity | lia | reflexivity | |].
  - repeat (apply Forall_cons; split; [first [by left | right; by eexists]|]).
    apply Forall_nil_2.
  - exists s'. by repeat split.
Defined.

(** ** The history of a token *)

Lemma record_all_tasks calls s : tasks (record_all calls s) = tasks s.
Proof.
  revert s. induction calls as [|[c i] calls IH]; intros s; simpl; [done|].
  rewrite IH. by destruct (recordActivity_sink_only c i s).
Qed.

Lemma record_all_snoc calls c i s :
  record_all calls (recordActivity c i s) = record_all ((c, i) :: calls) s.
Proof. reflexivity. Qed.

(** The loop over the logs, run to its end. *)
Lemma sub_logs_run c tok logs answers ts s0 :
  tasks s0 = ts ->
  Forall decimals_answer answers ->
  length answers = length (parsed_logs logs) ->
  run (sub_logs c tok logs s0) (map (EvResponse (length ts)) answers) =
  Some (attach c tok
          (record_all (history_calls c tok logs (map decimals_or_18 answers)) s0)).
Proof.
  revert answers s0. induction logs as [|log rest IH]; intros answers s0 Hts HF Hlen.
  { simpl in Hlen. destruct answers; [done | discriminate Hlen]. }
  unfold parsed_logs in Hlen. cbn [List.filter] in Hlen.
  cbn [sub_logs history_calls].
  destruct (log_args log) as [[[from to] value]|] eqn:Hargs; [|by apply IH].
  destruct answers as [|r answers]; [discriminate Hlen|].
  inversion HF as [|? ? Hr HF']; subst.
  cbn [map run]. rewrite step_response_last. cbn [resume]. rewrite Hargs.
  assert (Hd : decimals_of r = Some (decimals_or_18 r)).
  { unfold decimals_or_18. by destruct Hr as [->|[d ->]]. }
  rewrite Hd. rewrite <- record_all_snoc. apply IH; [|done|].
  - by destruct (recordActivity_sink_only c
                   (mkInfo ERC20 (Some tok) (Some from) (Some to)
                      (formatUnits value (decimals_or_18 r)) (log_transactionHash log)) s0).
  - simpl in Hlen. by injection Hlen.
Qed.

(** X25.  Once the logs of the history query of a subscription arrive,
    the logs that parse are handed to [recordActivity] one by one in the
    order of the answer, each with the decimals its [decimals()] call is
    answered by and with 18 when that call fails; logs that do not parse
    are passed over.  After the last of them the live listener is attached,
    and nothing of the subscription is pending any more. *)
Theorem history_is_replayed_in_order (c : N) (tok : string) (f t : Z) (logs : list Log)
    (answers : list Response) (ts : list Task) (s : State) :
  tasks s = ts ++ [TSubLogs c tok f t] ->
  Forall decimals_answer answers ->
  length answers = length (parsed_logs logs) ->
  run s (EvResponse (length ts) (RLogs logs) :: map (EvResponse (length ts)) answers) =
  Some (attach c tok
          (record_all (history_calls c tok logs (map decimals_or_18 answers))
             (set_tasks ts s))) /\
  tasks (attach c tok
           (record_all (history_calls c tok logs (map decimals_or_18 answers))
              (set_tasks ts s))) = ts.
Proof.
  intros Hts HF Hlen. split.
  - cbn [run]. rewrite (step_response_at _ _ ts s Hts). simpl.
    by apply sub_logs_run.
  - destruct (attach_frame c tok
                (record_all (history_calls c tok logs (map decimals_or_18 answers))
                   (set_tasks ts s))) as (-> & _).
    by rewrite record_all_tasks.
Qed.

Lemma history_is_replayed_in_order_witness :
  posted <$> run (spawn (TSubLogs 1 "0xTOK" 0 100) (set_tasks [] started))
               [EvResponse 0 (RLogs [mkLog "0xTOK" (Some "0xabc") (Some (siteA, wA, 5%Z));
                                     mkLog "0xTOK" (Some "0xdef") None;
                                     mkLog "0xTOK" (Some "0x123") (Some (siteA, wA, 7%Z))]);
                EvResponse 0 (RNumber 6); EvResponse 0 RReject] =
  Some [(1%N, mkInfo ERC20 (Some "0xTOK") (Some siteA) (Some wA) (formatUnits 7 18)
                (Some "0x123"));
        (1%N, mkInfo ERC20 (Some "0xTOK") (Some siteA) (Some wA) (formatUnits 5 6)
                (Some "0xabc"))].
Proof.
  assert (HF : Forall decimals_answer [RNumber 6; RReject]).
  { repeat (apply Forall_cons; split; [first [by left | right; by eexists]|]).
    apply Forall_nil_2. }
  refine (eq_trans
            (f_equal (fmap posted)
               (proj1 (history_is_replayed_in_order 1 "0xTOK" 0 100
                         [mkLog "0xTOK" (Some "0xabc") (Some (siteA, wA, 5%Z));
                          mkLog "0xTOK" (Some "0xdef") None;
                          mkLog "0xTOK" (Some "0x123") (Some (siteA, wA, 7%Z))]
                         [RNumber 6; RReject] []
                         (spawn (TSubLogs 1 "0xTOK" 0 100) (set_tasks [] started))
                         eq_refl HF eq_refl))) _).
  by vm_compute.
Defined.

(** ** Chain ids and their decimal text *)

Lemma Number_from_digits d acc :
  Js.Number_from (N.pos acc) (NilEmpty.string_of_uint d) = N.pos (Pos.of_uint_acc d acc).
Proof.
  revert acc. induction d; intros acc; cbn [NilEmpty.string_of_uint Js.Number_from Pos.of_uint_acc];
    try done;
    match goal with
    | |- Js.Number_from ?a _ = N.pos (Pos.of_uint_acc _ ?b) =>
        replace a with (N.pos b) by (vm_compute (N.of_nat _); lia)
    end; apply IHd.
Qed.

Lemma Number_digits d : Js.Number_from 0 (NilEmpty.string_of_uint d) = Pos.of_uint d.
Proof.
  induction d; cbn [NilEmpty.string_of_uint Js.Number_from Pos.of_uint]; try done;
    try (match goal with
         | |- Js.Number_from ?a _ = N.pos (Pos.of_uint_acc _ ?b) =>
             replace a with (N.pos b) by (vm_compute; reflexivity)
         end; apply Number_from_digits).
Qed.

Lemma digits_of_uint d : Js.all_digits (NilEmpty.string_of_uint d) = true.
Proof. induction d; cbn [NilEmpty.string_of_uint Js.all_digits]; try done; by rewrite IHd. Qed.

Lemma number_value_small n : (n < 2 ^ 53)%N -> Js.number_value n = n.
Proof. intros H. unfold Js.number_value. by rewrite (proj2 (N.ltb_lt _ _) H). Qed.

Lemma toString_small n : (n < 2 ^ 53)%N -> Js.toString n = Js.digits n.
Proof.
  intros H. unfold Js.toString. cbv zeta. rewrite number_value_small by done.
  by rewrite (proj2 (N.ltb_lt _ _) H).
Qed.

Lemma toString_digits n :
  (n < 2 ^ 53)%N ->
  Js.test_digits (Js.toString n) = true /\ Js.Number (Js.toString n) = n.
Proof.
  intros Hlt. rewrite toString_small by done. unfold Js.digits, Js.Number, Js.test_digits.
  assert (Hn : N.to_uint n <> Decimal.Nil).
  { destruct n; [done | apply DecimalPos.Unsigned.to_uint_nonnil]. }
  assert (E : NilZero.string_of_uint (N.to_uint n) = NilEmpty.string_of_uint (N.to_uint n))
    by (by destruct (N.to_uint n)).
  rewrite E, digits_of_uint, Number_digits. split.
  - by destruct (N.to_uint n).
  - rewrite DecimalN.Unsigned.of_to. by apply number_value_small.
Qed.

(** X26.  The decimal text of a chain id reads back as that id: for
    every id below 2^53, the range in which JavaScript numbers are exact,
    [String(id)] passes the digit test of [parseChainsInput] and
    [Number] gives the id back.  So in every state the page can reach the
    input made of that text configures the chain with that id, and gives
    it, unless it is built in, the name [Chain] followed by the same text,
    no endpoint, no explorer and no native symbol. *)
Theorem chain_id_round_trip (es : list Event) (s : State) (k : N) :
  run init es = Some s -> (k < 2 ^ 53)%N ->
  Js.test_digits (Js.toString k) = true /\ Js.Number (Js.toString k) = k /\
  (exists c, getConfig (applyChains (Js.toString k) s) k = Some c /\ cfg_id c = k) /\
  (DEFAULT_CHAINS !! k = None ->
   getConfig (applyChains (Js.toString k) s) k =
   Some (mkChain k ("Chain " +:+ Js.toString k) None "" "")).
Proof.
  intros Hrun Hlt. destruct (toString_digits k Hlt) as [Hd Hn].
  split; [done|]. split; [done|].
  destruct (item_plain (Js.toString k) Hd) as (G1 & G2 & G3 & G4 & G5).
  rewrite Hn in G4.
  pose proof (applyChains_single (Js.toString k) (Js.toString k) s G1 G2 G3) as H.
  rewrite G4 in H.
  pose proof (applyChains_Inv (Js.toString k) s (run_Inv _ _ _ Hrun Inv_init)) as HI.
  split.
  - eexists. split; [exact H|].
    destruct (getConfig_fixed _ k _ HI H) as (Hid & _). by rewrite Hid, canon_id.
  - intros Hk. rewrite H. unfold item_meta. rewrite G4, G5.
    unfold deref. by rewrite Hk.
Qed.

Lemma chain_id_round_trip_witness :
  getConfig (applyChains (Js.toString 43114) init) 43114 =
  Some (mkChain 43114 "Chain 43114" None "" "").
Proof.
  exact (proj2 (proj2 (proj2 (chain_id_round_trip [] init 43114 eq_refl eq_refl))) eq_refl).
Defined.

(** ** Listeners of another wallet *)

Lemma off_other_wallet lid0 s lid l w :
  wallet s = Some w -> listeners s !! lid = Some l -> l_filterTo l <> w ->
  listeners (off lid0 s) !! lid = Some l.
Proof.
  intros Hw Hl Hne. unfold off. rewrite Hw.
  destruct (listeners s !! lid0) as [l0|] eqn:E; [|done].
  destruct (String.eqb (l_filterTo l0) w) eqn:Eq; [|done].
  apply String.eqb_eq in Eq. simpl. rewrite lookup_delete_ne; [done|].
  intros <-. congruence.
Qed.

Lemma off_all_other_wallet lids s lid l w :
  wallet s = Some w -> listeners s !! lid = Some l -> l_filterTo l <> w ->
  listeners (fold_left (fun a x => off x a) lids s) !! lid = Some l.
Proof.
  revert s. induction lids as [|lid0 lids IH]; intros s Hw Hl Hne; simpl; [done|].
  apply IH; [|by eapply off_other_wallet|done].
  by destruct (off_listeners_only lid0 s) as [_ _ _ _ _ -> _ _ _ _ _ _ _ _ _].
Qed.

Lemma stop_chain_other_wallet c s lid l w :
  wallet s = Some w -> listeners s !! lid = Some l -> l_filterTo l <> w ->
  listeners (stop_chain c s) !! lid = Some l.
Proof.
  intros Hw Hl Hne. unfold stop_chain. destruct (monitors s !! c) as [mon|]; [|done].
  pose proof (off_all_other_wallet (tokenListeners mon) s lid l w Hw Hl Hne) as H.
  by destruct (pollHandle mon).
Qed.

(** X27.  [stopMonitoring] detaches a listener only under the address of
    the wallet unlocked at that moment.  A listener that was registered
    while another wallet was unlocked stays registered through
    [stopMonitoring], though no monitor records it any longer, and a
    Transfer event pushed to it afterwards is still taken up. *)
Theorem stop_keeps_listeners_of_another_wallet (s : State) (lid : ListenerId) (l : Listener)
    (w : string) :
  wallet s = Some w -> listeners s !! lid = Some l -> l_filterTo l <> w ->
  listeners (stopMonitoring s) !! lid = Some l /\
  monitors (stopMonitoring s) = ∅ /\
  forall from to value txHash,
    step (stopMonitoring s) (EvTransfer lid from to value txHash) =
    Some (spawn (TLiveDecimals (l_chainId l) (l_token l) from to value txHash)
            (stopMonitoring s)).
Proof.
  intros Hw Hl Hne.
  assert (H : listeners (stopMonitoring s) !! lid = Some l).
  { unfold stopMonitoring. generalize ((map_to_list (monitors s)).*1). intros cs.
    revert s Hw Hl. induction cs as [|c cs IH]; intros s Hw Hl; simpl; [done|].
    apply IH; [|by eapply stop_chain_other_wallet].
    by destruct (stop_chain_frame c s) as (_ & _ & -> & _). }
  split; [done|]. split; [apply stopMonitoring_monitors|].
  intros from to value txHash. simpl. by rewrite H.
Qed.

Lemma stop_keeps_listeners_of_another_wallet_witness :
  exists s, run init (trace_twice ++ [EvWallet siteA]) = Some s /\
    listeners (stopMonitoring s) !! 0%nat = Some (mkListener 1 "0xTOK" wA).
Proof.
  eexists. split; [by vm_compute|].
  refine (proj1 (stop_keeps_listeners_of_another_wallet _ 0%nat (mkListener 1 "0xTOK" wA) siteA
                   _ _ _)); [by vm_compute | by vm_compute | discriminate].
Defined.

(** ** A Transfer event of a live listener *)

(** X28.  A Transfer event pushed to a registered listener is reported
    once its [decimals()] call is answered: it goes to [recordActivity] as
    an ERC20 record for the chain and the token of the subscription that
    registered the listener, with the decimals answered and with 18 when
    the call fails, and nothing of it stays pending. *)
Theorem live_transfer_is_recorded (s : State) (lid : ListenerId) (l : Listener)
    (from to : string) (value : Z) (txHash : option string) (r : Response) :
  listeners s !! lid = Some l -> decimals_answer r ->
  run s [EvTransfer lid from to value txHash; EvResponse (length (tasks s)) r] =
  Some (recordActivity (l_chainId l)
          (mkInfo ERC20 (Some (l_token l)) (Some from) (Some to)
             (formatUnits value (decimals_or_18 r)) txHash) s).
Proof.
  intros Hl Hr. cbn [run].
  change (step s (EvTransfer lid from to value txHash)) with
    (match listeners s !! lid with
     | Some l => Some (spawn (TLiveDecimals (l_chainId l) (l_token l) from to value txHash) s)
     | None => None
     end).
  rewrite Hl, step_response_last. cbn [resume].
  assert (Hd : decimals_of r = Some (decimals_or_18 r)).
  { unfold decimals_or_18. by destruct Hr as [->|[d ->]]. }
  by rewrite Hd.
Qed.

Lemma live_transfer_is_recorded_witness :
  exists s, run init trace_twice = Some s /\
    posted <$> run s [EvTransfer 1 siteA wA 5 (Some "0xabc"); EvResponse 0 RReject] =
    Some [(1%N, mkInfo ERC20 (Some "0xTOK") (Some siteA) (Some wA) (formatUnits 5 18)
                  (Some "0xabc"))].
Proof.
  eexists. split; [by vm_compute|].
  refine (eq_trans
            (f_equal (fmap posted)
               (live_transfer_is_recorded _ 1%nat (mkListener 1 "0xTOK" wA) siteA wA 5
                  (Some "0xabc") RReject _ (or_introl eq_refl))) _);
    by vm_compute.
Defined.

(** ** Stopping and starting again *)

Lemma stop_chain_nextTimer c s :
  nextTimer (stop_chain c s) = nextTimer s /\ wallet (stop_chain c s) = wallet s /\
  objs (stop_chain c s) = objs s /\ configuredChains (stop_chain c s) = configuredChains s /\
  pollers (stop_chain c s) = pollers s.
Proof.
  destruct (monitors s !! c) as [mon|] eqn:Hm.
  - by destruct (stop_chain_shape c s mon Hm) as (ls & ->).
  - unfold stop_chain. by rewrite Hm.
Qed.

Lemma stopMonitoring_nextTimer s :
  nextTimer (stopMonitoring s) = nextTimer s /\ wallet (stopMonitoring s) = wallet s /\
  objs (stopMonitoring s) = objs s /\
  configuredChains (stopMonitoring s) = configuredChains s /\
  pollers (stopMonitoring s) = pollers s.
Proof.
  unfold stopMonitoring. generalize ((map_to_list (monitors s)).*1). intros cs.
  revert s. induction cs as [|c cs IH]; intros s; simpl; [done|].
  destruct (IH (stop_chain c s)) as (-> & -> & -> & -> & ->). apply stop_chain_nextTimer.
Qed.

(** X29.  Stopping and starting again does not resume where polling
    stood.  In every state the page can reach, with a wallet unlocked and
    the chain configured with an endpoint, [startMonitoring] after
    [stopMonitoring] gives the chain a new interval, one that was not
    running before, whose poller has no watermark and the site address of
    the new call: its first tick begins at the latest block of that moment,
    and what was mined in between is not scanned. *)
Theorem restart_forgets_watermark (es : list Event) (s : State) (c : N) (toks site a : string)
    (cfg : ChainConfig) (url : string) :
  run init es = Some s -> wallet s = Some a ->
  getConfig s c = Some cfg -> cfg_rpc cfg = Some url -> Js.nonempty url = true ->
  exists s2 t,
    startMonitoring [c] toks site (stopMonitoring s) = (Ok tt, s2) /\
    monitors s2 !! c = Some (mkMonitor [] (Some t)) /\
    t ∈ timers s2 /\ (t ∉ timers s) /\
    pollers s2 !! t =
      Some (mkPoller c (if Js.nonempty (Js.trim site) then Some (Js.trim site) else None)
              None) /\
    watermark s2 t = None.
Proof.
  intros Hrun Hw Hc Hu Hne.
  pose proof (k_InvK _ _ (run_keeps _ _ _ Hrun) InvK_init) as [HK _].
  destruct (stopMonitoring_nextTimer s) as (Hn1 & Hw1 & Ho1 & Hc1 & _).
  pose proof (stopMonitoring_monitors s) as Hm1.
  set (s1 := stopMonitoring s) in *.
  assert (Hg1 : getConfig s1 c = Some cfg) by (by rewrite (getConfig_ext _ _ _ Ho1 Hc1)).
  destruct (ensureProvider_valid c s1 cfg url Hg1 Hu Hne) as (p & s1' & He).
  assert (Hnone : monitors s1 !! c = None) by (by rewrite Hm1, lookup_empty).
  unfold startMonitoring. rewrite Hw1, Hw.
  set (tokens := if Js.nonempty (Js.trim toks) then _ else None).
  set (siteAddr := if Js.nonempty (Js.trim site) then _ else None).
  destruct (start_chain_form tokens siteAddr c s1 p s1' Hnone He) as (_ & _ & E).
  cbn [start_chains]. rewrite E.
  eexists _, (nextTimer s1). split; [done|]. simpl.
  rewrite !lookup_insert_eq. split; [done|].
  split; [by apply elem_of_union_l, elem_of_singleton|]. split.
  - intros Hin. destruct (HK _ Hin) as [Hlt _]. lia.
  - split; [done|]. unfold watermark. simpl. by rewrite lookup_insert_eq.
Qed.

Lemma restart_forgets_watermark_witness :
  exists s s2 t,
    run init (trace_stop ++ [EvResponse 1 (RBlock (mkBlock 100 []));
                             EvResponse 1 (RBlock (mkBlock 100 []))]) = Some s /\
    watermark s 1 = Some 100%Z /\
    startMonitoring [1%N] "" "" (stopMonitoring s) = (Ok tt, s2) /\
    watermark s2 t = None.
Proof.
  eexists.
  destruct (restart_forgets_watermark
              (trace_stop ++ [EvResponse 1 (RBlock (mkBlock 100 []));
                              EvResponse 1 (RBlock (mkBlock 100 []))])
              (default init (run init (trace_stop ++
                                         [EvResponse 1 (RBlock (mkBlock 100 []));
                                          EvResponse 1 (RBlock (mkBlock 100 []))])))
              1 "" "" wA
              (mkChain 1 "Ethereum Mainnet" (Some "https://cloudflare-eth.com")
                 "https://etherscan.io/tx/" "ETH") "https://cloudflare-eth.com")
    as (s2 & t & H1 & _ & _ & _ & _ & H2); [by vm_compute.. | reflexivity |].
  exists s2, t. split; [by vm_compute|]. split; [by vm_compute|]. by split.
Defined.

(** * Polling under any timing *)

Lemma poll_keeps_refl t B s : poll_keeps t B s s.
Proof. by constructor. Qed.

Lemma poll_keeps_trans t B s1 s2 s3 :
  poll_keeps t B s1 s2 -> poll_keeps t B s2 s3 -> poll_keeps t B s1 s3.
Proof. intros [A1 B1 C1] [A2 B2 C2]. constructor; auto. Qed.

Lemma tasks_grow_refl s : tasks_grow s s.
Proof. exists []. by rewrite app_nil_r. Qed.

Lemma tasks_grow_eq s s' : tasks s' = tasks s -> tasks_grow s s'.
Proof. intros H. exists []. by rewrite H, app_nil_r. Qed.

Lemma tasks_grow_trans s1 s2 s3 : tasks_grow s1 s2 -> tasks_grow s2 s3 -> tasks_grow s1 s3.
Proof.
  intros (n1 & E1 & F1) (n2 & E2 & F2). exists (n1 ++ n2).
  rewrite E2, E1, app_assoc. split; [done|]. by apply Forall_app.
Qed.

Lemma watermark_ext s s' t : pollers s' = pollers s -> watermark s' t = watermark s t.
Proof. unfold watermark. by intros ->. Qed.

Lemma not_fetch_set s T : not_fetch T -> fetch_set s T.
Proof. by destruct T. Qed.

Lemma not_fetch_from t B T : not_fetch T -> fetch_from t B T.
Proof. by destruct T. Qed.

Lemma fetch_set_ext s s' T :
  (forall t, is_Some (watermark s t) -> is_Some (watermark s' t)) ->
  fetch_set s T -> fetch_set s' T.
Proof. intros H. destruct T; simpl; auto. Qed.

(** A step that leaves the closures of the poll loop alone and asks for no
    block. *)
Lemma frame_poll_keeps t B s s' :
  nextTimer s' = nextTimer s -> pollers s' = pollers s -> tasks_grow s s' ->
  poll_keeps t B s s'.
Proof.
  intros Hn Hp (new & Ht & Hnew). constructor.
  - unfold InvN. by rewrite Hn, Hp.
  - intros _ HF. unfold InvF. rewrite Ht. apply Forall_app. split.
    + eapply Forall_impl; [exact HF|]. intros T. apply fetch_set_ext.
      intros t0. by rewrite (watermark_ext s s' t0 Hp).
    + eapply Forall_impl; [exact Hnew|]. intros T. apply not_fetch_set.
  - intros _ [(w & Hw & Hle) HT]. split.
    + exists w. by rewrite (watermark_ext s s' t Hp).
    + rewrite Ht. apply Forall_app. split; [done|].
      eapply Forall_impl; [exact Hnew|]. intros T. apply not_fetch_from.
Qed.

Lemma sink_only_poll_keeps t B s s' : sink_only s s' -> poll_keeps t B s s'.
Proof.
  intros [_ _ _ _ _ _ _ _ Hn Hp _ _ Hts]. apply frame_poll_keeps; [done..|].
  by apply tasks_grow_eq.
Qed.

Lemma listeners_only_poll_keeps t B s s' : listeners_only s s' -> poll_keeps t B s s'.
Proof.
  intros [_ _ _ _ _ _ _ _ _ _ _ Hn Hp _ Hts]. apply frame_poll_keeps; [done..|].
  by apply tasks_grow_eq.
Qed.

Lemma pool_only_poll_keeps t B s s' : pool_only s s' -> tasks_grow s s' -> poll_keeps t B s s'.
Proof. intros [_ _ _ _ _ _ _ _ _ Hn Hp _ _]. by apply frame_poll_keeps. Qed.

Lemma spawn_grow T s : not_fetch T -> tasks_grow s (spawn T s).
Proof. intros H. exists [T]. split; [done|]. by constructor. Qed.

Lemma ensureProvider_grow c s : tasks_grow s (ensureProvider c s).2.
Proof. apply tasks_grow_eq, ensureProvider_tasks. Qed.

Lemma subscribeTokenTransfer_grow c tok s : tasks_grow s (subscribeTokenTransfer c tok s).
Proof.
  unfold subscribeTokenTransfer. pose proof (ensureProvider_grow c s) as H.
  destruct (ensureProvider c s) as [[p|msg] s1]; simpl in H; [|done].
  eapply tasks_grow_trans; [exact H | by apply spawn_grow].
Qed.

Lemma subscribe_all_grow c toks s :
  tasks_grow s (fold_left (fun a tk => subscribeTokenTransfer c tk a) toks s).
Proof.
  revert s. induction toks as [|tok toks IH]; intros s; simpl; [apply tasks_grow_refl|].
  eapply tasks_grow_trans; [apply subscribeTokenTransfer_grow | apply IH].
Qed.

Lemma spawn_poll_keeps t B T s : not_fetch T -> poll_keeps t B s (spawn T s).
Proof. intros H. apply pool_only_poll_keeps; [apply spawn_pool_only | by apply spawn_grow]. Qed.

Lemma ensureProvider_poll_keeps t B c s : poll_keeps t B s (ensureProvider c s).2.
Proof.
  apply pool_only_poll_keeps; [apply ensureProvider_pool_only | apply ensureProvider_grow].
Qed.

Lemma subscribe_all_poll_keeps t B c toks s :
  poll_keeps t B s (fold_left (fun a tk => subscribeTokenTransfer c tk a) toks s).
Proof.
  apply pool_only_poll_keeps; [apply subscribe_all_pool | apply subscribe_all_grow].
Qed.

Lemma attach_poll_keeps t B c tok s : poll_keeps t B s (attach c tok s).
Proof.
  apply frame_poll_keeps.
  - unfold attach. by destruct (wallet s).
  - unfold attach. by destruct (wallet s).
  - apply tasks_grow_eq. by destruct (attach_frame c tok s) as (-> & _).
Qed.

Lemma sub_logs_poll_keeps t B c tok logs s : poll_keeps t B s (sub_logs c tok logs s).
Proof.
  induction logs as [|log rest IH]; simpl; [apply attach_poll_keeps|].
  destruct (log_args log); [by apply spawn_poll_keeps | apply IH].
Qed.

Lemma stop_chain_poll_keeps t B c s : poll_keeps t B s (stop_chain c s).
Proof.
  destruct (monitors s !! c) as [mon|] eqn:Hm.
  2:{ unfold stop_chain. rewrite Hm. apply poll_keeps_refl. }
  destruct (stop_chain_shape c s mon Hm) as (ls & ->).
  apply frame_poll_keeps; [done..|]. by apply tasks_grow_eq.
Qed.

Lemma stopMonitoring_poll_keeps t B s : poll_keeps t B s (stopMonitoring s).
Proof.
  unfold stopMonitoring. generalize ((map_to_list (monitors s)).*1). intros cs.
  revert s. induction cs as [|c cs IH]; intros s; simpl; [apply poll_keeps_refl|].
  eapply poll_keeps_trans; [apply stop_chain_poll_keeps | apply IH].
Qed.

Lemma logout_poll_keeps t B s : poll_keeps t B s (logout s).
Proof.
  unfold logout. eapply poll_keeps_trans; [|apply stopMonitoring_poll_keeps].
  apply frame_poll_keeps; [done..|]. by apply tasks_grow_eq.
Qed.

Lemma updateBalance_poll_keeps t B sel s :
  poll_keeps t B s (updateBalanceForSelectedChain sel s).
Proof.
  unfold updateBalanceForSelectedChain. destruct (wallet s); [|apply poll_keeps_refl].
  destruct (getConfig s sel); [|apply poll_keeps_refl]. apply ensureProvider_poll_keeps.
Qed.

Lemma applyChains_poll_keeps t B input s : poll_keeps t B s (applyChains input s).
Proof.
  unfold applyChains. destruct (Js.nonempty (Js.trim input)); simpl; [|apply poll_keeps_refl].
  unfold parseChainsInput.
  destruct (parse_items (parts_of (Js.trim input)) (∅, s)) as [parsed s1] eqn:E.
  destruct (parse_items_ok' _ _ _ _ _ E) as (o & n & ->).
  eapply poll_keeps_trans.
  2:{ unfold applyChainsToUI. destruct (first_key _); [|apply poll_keeps_refl].
      apply updateBalance_poll_keeps. }
  apply frame_poll_keeps; [done..|]. by apply tasks_grow_eq.
Qed.

(** A new interval gets a handle no closure has. *)
Lemma start_chain_poll_keeps t B tokens siteAddr c s :
  poll_keeps t B s (start_chain tokens siteAddr c s).2.
Proof.
  destruct (monitors s !! c) as [m|] eqn:Hc.
  { unfold start_chain. rewrite Hc. apply poll_keeps_refl. }
  pose proof (ensureProvider_poll_keeps t B c s) as Hk1.
  pose proof (ensureProvider_grow c s) as Hg1.
  destruct (ensureProvider c s) as [[p|msg] s1] eqn:He.
  2:{ unfold start_chain. by rewrite Hc, He. }
  destruct (start_chain_form tokens siteAddr c s p s1 Hc He) as (Hpo & _ & ->).
  simpl in Hk1, Hg1 |- *.
  set (s2 := set_monitors (<[c := mkMonitor [] None]> (monitors s1)) s1) in *.
  set (s3 := match tokens with
             | Some (tok :: toks) => _
             | _ => _
             end) in *.
  assert (Hg : tasks_grow s s3).
  { eapply tasks_grow_trans; [exact Hg1|]. eapply (tasks_grow_trans _ s2); [by apply tasks_grow_eq|].
    subst s3. destruct tokens as [[|tok toks]|];
      [by apply spawn_grow | apply subscribe_all_grow | by apply spawn_grow]. }
  destruct Hg as (new & Hts & Hnew).
  assert (Hfresh : InvN s -> pollers s !! nextTimer s = None).
  { intros HN. destruct (pollers s !! nextTimer s) eqn:E; [|done].
    assert (nextTimer s < nextTimer s)%nat by (apply HN; eauto). lia. }
  assert (Hwm : InvN s -> forall t0, is_Some (watermark s t0) ->
            watermark (set_pollers (<[nextTimer s := mkPoller c siteAddr None]> (pollers s)) s3) t0
            = watermark s t0).
  { intros HN t0 [w Hw]. unfold watermark in *. simpl.
    destruct (decide (t0 = nextTimer s)) as [->|Hne].
    - by rewrite (Hfresh HN) in Hw.
    - by rewrite lookup_insert_ne. }
  constructor.
  - intros HN t0. simpl. intros [->|[_ H]]%lookup_insert_is_Some; [lia|].
    specialize (HN t0 H). lia.
  - intros HN HF. unfold InvF. simpl. rewrite Hts. apply Forall_app. split.
    + eapply Forall_impl; [exact HF|]. intros T. apply fetch_set_ext.
      intros t0 H0. unfold watermark in *. simpl.
      rewrite <- (Hwm HN t0 H0) in H0. exact H0.
    + eapply Forall_impl; [exact Hnew|]. intros T. apply not_fetch_set.
  - intros HN [(w & Hw & Hle) HT]. split.
    + exists w. split; [|done]. unfold watermark in *. simpl.
      pose proof (Hwm HN t ltac:(unfold watermark; rewrite Hw; eauto)) as H.
      unfold watermark in H. simpl in H. by rewrite H.
    + simpl. rewrite Hts. apply Forall_app. split; [done|].
      eapply Forall_impl; [exact Hnew|]. intros T. apply not_fetch_from.
Qed.

Lemma start_chains_poll_keeps t B tokens siteAddr cs s :
  poll_keeps t B s (start_chains tokens siteAddr cs s).2.
Proof.
  revert s. induction cs as [|c cs IH]; intros s; simpl; [apply poll_keeps_refl|].
  pose proof (start_chain_poll_keeps t B tokens siteAddr c s) as H.
  destruct (start_chain tokens siteAddr c s) as [[u|msg] s']; simpl in *; [|done].
  eapply poll_keeps_trans; [exact H | apply IH].
Qed.

Lemma startMonitoring_poll_keeps t B sel toks site s :
  poll_keeps t B s (startMonitoring sel toks site s).2.
Proof.
  unfold startMonitoring. destruct (wallet s); [|apply poll_keeps_refl].
  destruct sel; [apply poll_keeps_refl|]. apply start_chains_poll_keeps.
Qed.

Lemma set_polledBlock_some t v s t0 :
  is_Some (watermark s t0) -> is_Some (watermark (set_polledBlock t v s) t0).
Proof.
  unfold watermark, set_polledBlock. simpl. intros [w Hw].
  destruct (pollers s !! t0) as [p|] eqn:E; [|done].
  destruct (decide (t = t0)) as [->|Hne].
  - rewrite lookup_alter_eq, E. simpl. eauto.
  - rewrite lookup_alter_ne, E by done. eauto.
Qed.

Lemma set_polledBlock_other t v s t0 :
  t0 <> t -> watermark (set_polledBlock t v s) t0 = watermark s t0.
Proof. intros H. unfold watermark, set_polledBlock. simpl. by rewrite lookup_alter_ne. Qed.

Lemma set_polledBlock_InvN t v s : InvN s -> InvN (set_polledBlock t v s).
Proof.
  intros H t0. unfold set_polledBlock. simpl. intros H0. apply H.
  destruct (decide (t = t0)) as [->|Hne].
  - rewrite lookup_alter_eq in H0. by apply fmap_is_Some in H0.
  - by rewrite lookup_alter_ne in H0.
Qed.

Lemma set_polledBlock_InvF t v s : InvF s -> InvF (set_polledBlock t v s).
Proof.
  unfold InvF. simpl. intros H. eapply Forall_impl; [exact H|].
  intros T. apply fetch_set_ext. intros t0. apply set_polledBlock_some.
Qed.

(** The watermark of [t] moves to [v], which is not below [B - 1]. *)
Lemma set_polledBlock_from t B t0 v s :
  (t0 = t -> (B - 1 <= v)%Z) -> polls_from t B s -> polls_from t B (set_polledBlock t0 v s).
Proof.
  intros Hv [(w & Hw & Hle) HT]. split; [|done].
  destruct (decide (t = t0)) as [<-|Hne].
  - exists v. split; [|by apply Hv]. apply watermark_set_polledBlock.
    unfold watermark in Hw. destruct (pollers s !! t); [eauto | done].
  - exists w. by rewrite set_polledBlock_other.
Qed.

Lemma spawn_from t B T s : fetch_from t B T -> polls_from t B s -> polls_from t B (spawn T s).
Proof.
  intros HT [Hw Hts]. split; [done|]. simpl. apply Forall_app. split; [done|]. by constructor.
Qed.

Lemma spawn_InvF T s : fetch_set s T -> InvF s -> InvF (spawn T s).
Proof. intros HT H. unfold InvF. simpl. apply Forall_app. split; [done|]. by constructor. Qed.

(** The end of one turn of the loop over the blocks. *)
Lemma poll_next_poll t B t0 b latest s :
  (InvN s -> InvN (poll_next t0 b latest s)) /\
  (fetch_set s (TPollBlock t0 b latest) -> InvF s -> InvF (poll_next t0 b latest s)) /\
  (fetch_from t B (TPollBlock t0 b latest) -> polls_from t B s ->
   polls_from t B (poll_next t0 b latest s)).
Proof.
  unfold poll_next. destruct (b + 1 <=? latest)%Z eqn:E.
  - split; [done|]. split.
    + intros HT. by apply spawn_InvF.
    + intros HT. apply spawn_from. simpl in *. intros ->. specialize (HT eq_refl). lia.
  - split; [apply set_polledBlock_InvN|]. split.
    + intros _. apply set_polledBlock_InvF.
    + intros HT. apply set_polledBlock_from. simpl in HT. intros ->.
      specialize (HT eq_refl). lia.
Qed.

Lemma poll_keeps_parts t B T s s' :
  poll_keeps t B s s' -> InvN s ->
  InvN s' /\ (fetch_set s T -> InvF s -> InvF s') /\
  (fetch_from t B T -> polls_from t B s -> polls_from t B s').
Proof. intros [A1 A2 A3] HN. auto. Qed.

(** The continuation of a body, once its call has left the pending ones. *)
Lemma resume_poll t B T r s s' :
  resume T r s = Some s' -> InvN s ->
  InvN s' /\ (fetch_set s T -> InvF s -> InvF s') /\
  (fetch_from t B T -> polls_from t B s -> polls_from t B s').
Proof.
  intros H HN.
  destruct T as [c tok|c tok f u|c tok log rest|c|c f u|c tok from to value h|t0|t0 b latest].
  8:{ (* a block of the poll loop *)
    assert (exists sa, s' = poll_next t0 b latest sa /\ sink_only s sa) as (sa & -> & Hso).
    { destruct r; simpl in H; simplify_eq.
      - destruct (pollers s !! t0) as [p|]; simplify_eq.
        eexists. split; [done|]. apply scan_txs_sink_only.
      - exists s. split; [done|]. apply sink_only_refl. }
    pose proof (sink_only_poll_keeps t B s sa Hso) as [A1 A2 A3].
    destruct (poll_next_poll t B t0 b latest sa) as (B1 & B2 & B3).
    assert (Hwm : forall x, watermark sa x = watermark s x).
    { intros x. apply watermark_ext. by destruct Hso. }
    split; [auto|]. split.
    - intros HT HF. apply B2; [|auto]. simpl in *. by rewrite Hwm.
    - intros HT HP. apply B3; auto. }
  7:{ (* the latest block *)
    destruct r as [| |block|]; simpl in H; simplify_eq; [|by auto].
    destruct (pollers s !! t0) as [p|] eqn:Hp; simplify_eq.
    set (polled := match polledBlock p with Some v => v | None => (blk_number block - 1)%Z end)
      in *.
    set (s1 := set_polledBlock t0 polled s) in *.
    assert (H1 : InvN s1 /\ (InvF s -> InvF s1) /\
                 (polls_from t B s -> polls_from t B s1 /\
                    (t0 = t -> (B - 1 <= polled)%Z))).
    { split; [by apply set_polledBlock_InvN|]. split; [apply set_polledBlock_InvF|].
      intros HP.
      assert (Hb : t0 = t -> (B - 1 <= polled)%Z).
      { intros ->. destruct HP as [(w & Hw & Hle) _]. unfold watermark in Hw.
        rewrite Hp in Hw. subst polled. by rewrite Hw. }
      split; [by apply set_polledBlock_from | done]. }
    destruct H1 as (N1 & F1 & P1).
    destruct (blk_number block <=? polled)%Z eqn:E; simplify_eq.
    { split; [done|]. split; [auto|]. intros _ HP. by apply P1. }
    split; [done|]. split.
    - intros _ HF. apply spawn_InvF; [|auto].
      change (is_Some (watermark s1 t0)). unfold s1.
      rewrite watermark_set_polledBlock; eauto.
    - intros _ HP. destruct (P1 HP) as [HP1 Hb]. apply spawn_from; [|done].
      simpl. intros Ht. specialize (Hb Ht). lia. }
  all: apply poll_keeps_parts; [|done].
  all: destruct r; simpl in H; simplify_eq; try apply poll_keeps_refl;
    repeat match goal with
    | H : match ?x with _ => _ end = Some _ |- _ => destruct x eqn:?; simplify_eq
    end;
    try apply poll_keeps_refl;
    try (by apply spawn_poll_keeps);
    try apply sub_logs_poll_keeps;
    try apply attach_poll_keeps;
    try (apply sink_only_poll_keeps, recordActivity_sink_only);
    try apply subscribe_all_poll_keeps;
    try (eapply poll_keeps_trans;
         [apply sink_only_poll_keeps, recordActivity_sink_only | apply sub_logs_poll_keeps]).
Qed.

Lemma step_poll_keeps t B s e s' : step s e = Some s' -> poll_keeps t B s s'.
Proof.
  intros H. destruct e; simpl in H; simplify_eq.
  - apply frame_poll_keeps; [done..|]. by apply tasks_grow_eq.
  - apply updateBalance_poll_keeps.
  - apply logout_poll_keeps.
  - apply applyChains_poll_keeps.
  - apply startMonitoring_poll_keeps.
  - apply stopMonitoring_poll_keeps.
  - case_bool_decide; simplify_eq. by apply spawn_poll_keeps.
  - destruct (listeners s !! lid); simplify_eq. by apply spawn_poll_keeps.
  - destruct (tasks s !! i) as [T|] eqn:Hi; simplify_eq.
    set (s0 := set_tasks (delete i (tasks s)) s) in *.
    assert (HT : forall P : Task -> Prop, Forall P (tasks s) -> P T /\ Forall P (tasks s0)).
    { intros P HP. split; [by eapply Forall_lookup_1 | by apply Forall_delete]. }
    constructor.
    + intros HN. by destruct (resume_poll t B T r s0 s' H HN).
    + intros HN HF. destruct (resume_poll t B T r s0 s' H HN) as (_ & A & _).
      destruct (HT _ HF). by apply A.
    + intros HN [Hw HP]. destruct (resume_poll t B T r s0 s' H HN) as (_ & _ & A).
      destruct (HT _ HP). by apply A.
Qed.

Lemma run_poll_keeps t B es s s' : run s es = Some s' -> poll_keeps t B s s'.
Proof.
  revert s. induction es as [|e es IH]; intros s H; simpl in H.
  - simplify_eq. apply poll_keeps_refl.
  - destruct (step s e) as [s1|] eqn:E; [|done].
    eapply poll_keeps_trans; [by eapply step_poll_keeps | by apply IH].
Qed.

Lemma reachable_poll es s : run init es = Some s -> InvN s /\ InvF s.
Proof.
  intros H. destruct (run_poll_keeps 0 0 es init s H) as [A1 A2 _].
  assert (HN : InvN init).
  { intros t0 [p Hp]. change (pollers init) with (∅ : gmap nat Poller) in Hp.
    by rewrite lookup_empty in Hp. }
  split; [auto|]. apply A2; [done | by constructor].
Qed.

Lemma requested_spawn t T s :
  requested t (spawn T s) =
  requested t s ++
  match T with
  | TPollBlock t' b _ => if decide (t' = t) then [b] else []
  | _ => []
  end.
Proof.
  unfold requested. simpl. rewrite omap_app. f_equal.
  destruct T; try done. simpl. by destruct (decide _).
Qed.

Lemma requested_none t s : InvF s -> watermark s t = None -> requested t s = [].
Proof.
  unfold requested, InvF. intros HF Hw.
  induction HF as [|T l HT _ IH]; [done|]. simpl.
  destruct T; try done. simpl in HT. destruct (decide _) as [->|]; [|done].
  rewrite Hw in HT. by destruct HT.
Qed.

Lemma requested_from t B s b :
  Forall (fetch_from t B) (tasks s) -> b ∈ requested t s -> (B <= b)%Z.
Proof.
  unfold requested. intros HF (T & HT & Hb)%list_elem_of_omap.
  rewrite Forall_forall in HF. specialize (HF T HT).
  destruct T; try done. destruct (decide _) as [->|]; [|done]. simplify_eq.
  simpl in HF. specialize (HF eq_refl). lia.
Qed.

Lemma fetch_from_none t B s :
  InvF s -> watermark s t = None -> Forall (fetch_from t B) (tasks s).
Proof.
  unfold InvF. intros HF Hw. eapply Forall_impl; [exact HF|].
  intros T HT. destruct T; try done. simpl in *. intros ->. rewrite Hw in HT. by destruct HT.
Qed.

Lemma requested_snoc t s s' b latest :
  tasks s' = tasks s ++ [TPollBlock t b latest] -> requested t s' = requested t s ++ [b].
Proof.
  intros H. unfold requested. rewrite H, omap_app. simpl. by rewrite decide_True.
Qed.

Lemma requested_same t s s' : tasks s' = tasks s -> requested t s' = requested t s.
Proof. intros H. unfold requested. by rewrite H. Qed.

(** A tick answered while no block of its interval is on its way: it asks
    for the block after the watermark, and for nothing when the latest block
    is not beyond the watermark. *)
Lemma tick_idle t w latest txs s :
  t ∈ timers s -> watermark s t = Some w -> requested t s = [] ->
  exists s',
    run s [EvTimer t; EvResponse (length (tasks s)) (RBlock (mkBlock latest txs))] = Some s' /\
    watermark s' t = Some w /\ posted s' = posted s /\
    requested t s' = if (latest <=? w)%Z then [] else [(w + 1)%Z].
Proof.
  intros Ht Hw Hreq. unfold watermark in Hw.
  destruct (pollers s !! t) as [p|] eqn:Hp; [|done].
  pose proof (tick_latest t p latest txs s Ht Hp) as H. simpl in H.
  rewrite Hw in H. simpl in H.
  assert (Hw' : watermark (set_polledBlock t w s) t = Some w)
    by (apply watermark_set_polledBlock; eauto).
  eexists. split; [exact H|]. destruct (latest <=? w)%Z.
  - split; [done|]. split; [done|]. by rewrite (requested_same t s).
  - split; [exact Hw'|]. split; [done|].
    rewrite requested_spawn, decide_True by done. by rewrite (requested_same t s), Hreq.
Qed.

(** C6, as the code has it.  In a state the page can reach, let the
    interval [t] run without a watermark yet, and let the first answer to a
    tick of it show latest block [L].  The watermark becomes [L - 1] and
    block [L] is the one block asked for, nothing older.  Whatever happens
    from then on, in any order, the watermark stays at [L - 1] or above and
    no block below [L] is ever asked for; and a tick that is answered while
    no block of the interval is on its way asks for the block after the
    watermark and no other, or for none when it sees nothing new.  Ticks
    are not serialised: a tick answered while block [L] is still on its way
    starts from the same watermark and asks for block [L] again.  When the
    ticks take their turn, the watermark is [L] after the first, a tick that
    still sees [L] asks for nothing, and the tick that sees [L + 1] asks for
    block [L + 1] alone, after which the watermark is [L + 1]. *)
Theorem poller_scans_from_latest (es : list Event) (s : State) (t : TimerId) (L : Z)
    (txs : list Tx) :
  run init es = Some s -> t ∈ timers s -> watermark s t = None ->
  let n := length (tasks s) in
  exists s1,
    run s [EvTimer t; EvResponse n (RBlock (mkBlock L txs))] = Some s1 /\
    watermark s1 t = Some (L - 1)%Z /\ requested t s1 = [L] /\ posted s1 = posted s /\
    (forall es' s', run s1 es' = Some s' ->
       (exists w, watermark s' t = Some w /\ (L - 1 <= w)%Z) /\
       (forall b, b ∈ requested t s' -> (L <= b)%Z) /\
       forall w latest txs',
         t ∈ timers s' -> watermark s' t = Some w -> requested t s' = [] ->
         exists s'',
           run s' [EvTimer t; EvResponse (length (tasks s')) (RBlock (mkBlock latest txs'))]
             = Some s'' /\
           watermark s'' t = Some w /\ posted s'' = posted s' /\
           requested t s'' = if (latest <=? w)%Z then [] else [(w + 1)%Z]) /\
    (forall L' txs', (L <= L')%Z ->
       exists s', run s1 [EvTimer t; EvResponse (S n) (RBlock (mkBlock L' txs'))] = Some s' /\
         requested t s' = [L; L] /\ watermark s' t = Some (L - 1)%Z) /\
    forall r, block_answer r ->
      exists s2,
        run s1 [EvResponse n r] = Some s2 /\
        watermark s2 t = Some L /\ requested t s2 = [] /\
        (forall txs', exists s3,
            run s2 [EvTimer t; EvResponse n (RBlock (mkBlock L txs'))] = Some s3 /\
            requested t s3 = [] /\ watermark s3 t = Some L /\ posted s3 = posted s2) /\
        (forall txs', exists s3,
            run s2 [EvTimer t; EvResponse n (RBlock (mkBlock (L + 1) txs'))] = Some s3 /\
            requested t s3 = [L + 1]%Z /\
            forall r', block_answer r' ->
              exists s4, run s3 [EvResponse n r'] = Some s4 /\
                watermark s4 t = Some (L + 1)%Z /\ requested t s4 = []).
Proof.
  intros Hrun Ht Hw n.
  destruct (reachable_poll es s Hrun) as [HN HF].
  pose proof (k_InvK _ _ (run_keeps _ _ _ Hrun) InvK_init) as [HK _].
  destruct (HK t Ht) as (_ & p & _ & Hp & _).
  assert (Hnone : polledBlock p = None) by (unfold watermark in Hw; by rewrite Hp in Hw).
  assert (Hreq : requested t s = []) by (by apply requested_none).
  destruct (ticks_in_turn t p L txs s Ht Hp Hnone)
    as (s1 & Hrun1 & Hw1 & Hts1 & Hpo1 & Hseq).
  exists s1. split; [exact Hrun1|]. split; [exact Hw1|].
  split; [by rewrite (requested_snoc t s s1 L L Hts1), Hreq|]. split; [exact Hpo1|].
  assert (E1 : s1 = spawn (TPollBlock t L L) (set_polledBlock t (L - 1) s)).
  { pose proof (tick_latest t p L txs s Ht Hp) as H1. simpl in H1.
    rewrite Hnone in H1. simpl in H1.
    replace (L <=? L - 1)%Z with false in H1 by lia.
    replace (L - 1 + 1)%Z with L in H1 by lia.
    assert (E : Some s1 = Some (spawn (TPollBlock t L L) (set_polledBlock t (L - 1) s)))
      by (rewrite <- Hrun1; exact H1).
    by injection E. }
  split; [|split].
  - (* whatever comes next *)
    intros es' s' Hrun'.
    destruct (run_poll_keeps t L _ _ _ Hrun1) as [N1 _ _].
    destruct (run_poll_keeps t L _ _ _ Hrun') as [_ _ P2].
    assert (HP1 : polls_from t L s1).
    { split; [exists (L - 1)%Z; split; [done | lia]|].
      rewrite Hts1. apply Forall_app. split; [by apply fetch_from_none|].
      constructor; [|done]. simpl. lia. }
    destruct (P2 (N1 HN) HP1) as [Hw' HT']. split; [done|].
    split; [intros b; by apply requested_from|].
    intros w latest txs'. apply tick_idle.
  - (* a tick answered while block [L] is on its way *)
    intros L' txs' HL.
    assert (Ht1 : t ∈ timers s1) by (by rewrite E1).
    assert (Hp1 : pollers s1 !! t =
                  Some (mkPoller (p_chainId p) (p_siteAddr p) (Some (L - 1)%Z))).
    { rewrite E1. simpl. by rewrite lookup_alter_eq, Hp. }
    pose proof (tick_latest t _ L' txs' s1 Ht1 Hp1) as H2. simpl in H2.
    replace (L' <=? L - 1)%Z with false in H2 by lia.
    replace (L - 1 + 1)%Z with L in H2 by lia.
    assert (Hlen : length (tasks s1) = S n).
    { rewrite Hts1, length_app. simpl. unfold n. lia. }
    rewrite Hlen in H2. eexists. split; [exact H2|]. split.
    + rewrite requested_spawn, decide_True by done.
      rewrite (requested_same t s1) by done.
      by rewrite (requested_snoc t s s1 L L Hts1), Hreq.
    + unfold watermark. simpl. by rewrite lookup_alter_eq, Hp1.
  - (* ticks in turn *)
    intros r Hr. destruct (Hseq r Hr) as (s2 & Hrun2 & Hw2 & Hts2 & Hsame & Hnext).
    exists s2. split; [exact Hrun2|]. split; [exact Hw2|].
    split; [by rewrite (requested_same t s s2)|]. split.
    + intros txs'. destruct (Hsame txs') as (s3 & Hrun3 & Hts3 & Hw3 & Hpo3).
      exists s3. split; [exact Hrun3|]. split; [by rewrite (requested_same t s s3)|]. done.
    + intros txs'. destruct (Hnext txs') as (s3 & Hrun3 & Hts3 & Hlast).
      exists s3. split; [exact Hrun3|].
      split; [by rewrite (requested_snoc t s s3 _ _ Hts3), Hreq|].
      intros r' Hr'. destruct (Hlast r' Hr') as (s4 & Hrun4 & Hw4 & Hts4).
      exists s4. split; [exact Hrun4|]. split; [exact Hw4|].
      by rewrite (requested_same t s s4).
Qed.

Lemma poller_scans_from_latest_witness :
  exists s1,
    run started [EvTimer 1; EvResponse 1 (RBlock (mkBlock 100 [tx1]))] = Some s1 /\
    watermark s1 1 = Some 99%Z /\ requested 1 s1 = [100%Z] /\ posted s1 = [].
Proof.
  destruct (poller_scans_from_latest [EvWallet wA; EvStart [1%N] "" ""] started 1 100 [tx1])
    as (s1 & Hrun & Hw & Hreq & Hp & _).
  - vm_compute. reflexivity.
  - vm_compute. reflexivity.
  - reflexivity.
  - exists s1. split; [exact Hrun|]. split; [exact Hw|]. split; [exact Hreq | exact Hp].
Defined.

(** C6, as the specification words it, fails when ticks overlap.  The
    first tick sees block 100 and asks for it; the answer is slow, and the
    next tick sees block 101 while block 100 is still on its way.  That
    tick, the first to detect the advance to 101, does not ask for block
    101 alone: it asks for block 100, scans it when it comes, and only then
    goes on to block 101.  When at last the first tick gets its block, the
    watermark moves from 101 back to 100. *)
Lemma overlapping_tick_rescans :
  exists s1 s2 s3 s4,
    run started trace_overlap = Some s1 /\
    tasks s1 = [TDiscBlockNumber 1; TPollBlock 1 100 100; TPollBlock 1 100 101] /\
    requested 1 s1 = [100; 100]%Z /\
    ~ (forall b latest, TPollBlock 1 b latest ∈ tasks s1 -> latest = 101%Z -> b = 101%Z) /\
    run s1 [EvResponse 2 (RBlock (mkBlock 100 [tx1]))] = Some s2 /\
    posted s2 = [(1%N, native_info tx1)] /\ requested 1 s2 = [100; 101]%Z /\
    run s2 [EvResponse 2 (RBlock (mkBlock 101 []))] = Some s3 /\
    watermark s3 1 = Some 101%Z /\ requested 1 s3 = [100%Z] /\
    run s3 [EvResponse 1 (RBlock (mkBlock 100 [tx1]))] = Some s4 /\
    watermark s4 1 = Some 100%Z /\ requested 1 s4 = [].
Proof.
  eexists _, _, _, _. split; [vm_compute; reflexivity|].
  split; [reflexivity|]. split; [reflexivity|]. split.
  { intros H. specialize (H 100%Z 101%Z). discriminate H; [|done].
    apply list_elem_of_In. simpl. tauto. }
  split; [vm_compute; reflexivity|]. split; [reflexivity|]. split; [reflexivity|].
  split; [vm_compute; reflexivity|]. split; [reflexivity|]. split; [reflexivity|].
  split; [vm_compute; reflexivity|]. split; reflexivity.
Qed.
